(** * go-astisub: the subtitle document model, its timing algebra and its two
    leaf codecs (subtitles.go), embedded in Rocq.

    Conventions of the embedding.
    - A Go [string] is its byte sequence, [list ascii].
    - [int], [int64] and [time.Duration] are [Z] with the 64-bit wrap-around
      written out ([wrap64]); [uint8] and [uint32] are [Z] reduced modulo
      2^8 and 2^32.
    - [[]*Item] is a slice of pointers: the items live in a store ([heap])
      and a slice is the visible part of its backing array together with
      its capacity.
    - Fallible code returns [result]; a run-time panic is the error [Panic].
    - Loops that are not bounded by the data they traverse take fuel. *)

From Stdlib Require Import ZArith Ascii String Lia.
From stdpp Require Import gmap strings list fin_maps sorting.

Local Open Scope Z_scope.

(** The Go string type and literals for it. *)
Abbreviation gostring := (list ascii).

Definition str (s : string) : gostring := list_ascii_of_string s.

(** ** Errors *)

(** The error kinds of package strconv. *)
Inductive NumError := ErrSyntax | ErrRange | ErrBase.

(** The errors the package produces; every constructor carries the text
    its message is built from. *)
Inductive error :=
| ErrMillisecondDigits (i : gostring)
    (* "astisub: Invalid number of millisecond digits detected in %s" *)
| ErrNoHMS (i : gostring)
    (* "astisub: No hours, minutes or seconds detected in %s" *)
| ErrAtoi (s : gostring) (cause : NumError)
    (* Wrapf(err, "astisub: atoi of %s failed", s) *)
| ErrParseInt (s : gostring) (base : Z) (cause : NumError)
    (* Wrapf(err, "parsing int %s with base %d failed", s, base) *)
| Panic (msg : gostring)
| OutOfFuel
    (* not a Go error: a loop of the embedding was cut off by its fuel *).

Inductive result (A : Type) :=
| Ok (a : A)
| Err (e : error).
Arguments Ok {A} a.
Arguments Err {A} e.

Definition bind {A B} (r : result A) (k : A -> result B) : result B :=
  match r with
  | Ok a => k a
  | Err e => Err e
  end.

Notation "x <- r ;; k" := (bind r (fun x => k))
  (at level 100, r at next level, right associativity).

Definition is_Ok {A} (r : result A) : Prop := exists a, r = Ok a.

(** ** Machine integers *)

Definition wrap64 (z : Z) : Z := (z + 2 ^ 63) mod 2 ^ 64 - 2 ^ 63.
Definition MaxInt64 : Z := 2 ^ 63 - 1.
Definition MinInt64 : Z := - 2 ^ 63.
Definition in_int64 (z : Z) : Prop := MinInt64 <= z <= MaxInt64.

Definition uint8 (z : Z) : Z := z mod 2 ^ 8.
Definition uint32 (z : Z) : Z := z mod 2 ^ 32.

(** ** Package strings *)
Module Strings.

Fixpoint HasPrefix (s prefix : gostring) {struct prefix} : bool :=
  match prefix with
  | [] => true
  | p :: prefix' =>
      match s with
      | [] => false
      | c :: s' => Ascii.eqb c p && HasPrefix s' prefix'
      end
  end.

(** [genSplit] for a non-empty separator: the leftmost occurrences of
    [sep], not overlapping.  [skip] counts the bytes of a separator just
    matched that are still to be passed over; [cur] is the current part,
    reversed. *)
Fixpoint split_from (sep s : gostring) (skip : nat) (cur : gostring)
  : list gostring :=
  match s with
  | [] => [rev cur]
  | c :: s' =>
      match skip with
      | S k => split_from sep s' k cur
      | O =>
          if HasPrefix s sep
          then rev cur :: split_from sep s' (List.length sep - 1) []
          else split_from sep s' 0 (c :: cur)
      end
  end.

Section Split.
(** With an empty separator [Split] explodes the string into its UTF-8
    sequences; that decoder is kept abstract. *)
Variable explode : gostring -> list gostring.

Definition Split (s sep : gostring) : list gostring :=
  match sep with
  | [] => explode s
  | _ :: _ => split_from sep s 0 []
  end.
End Split.

Fixpoint Join (a : list gostring) (sep : gostring) : gostring :=
  match a with
  | [] => []
  | [x] => x
  | x :: a' => x ++ sep ++ Join a' sep
  end.

(** [unicode.IsSpace] on the UTF-8 encoding.  One byte: TAB, LF, VT, FF,
    CR and SPACE.  Two bytes: U+0085 and U+00A0.  Three bytes: U+1680,
    U+2000..U+200A, U+2028, U+2029, U+202F, U+205F and U+3000. *)
Definition is_space1 (c : ascii) : bool :=
  let n := N_of_ascii c in
  ((9 <=? n)%N && (n <=? 13)%N) || (n =? 32)%N.

Definition is_space2 (c1 c2 : ascii) : bool :=
  let a := N_of_ascii c1 in
  let b := N_of_ascii c2 in
  (a =? 194)%N && ((b =? 133)%N || (b =? 160)%N).

Definition is_space3 (c1 c2 c3 : ascii) : bool :=
  let a := N_of_ascii c1 in
  let b := N_of_ascii c2 in
  let c := N_of_ascii c3 in
  ((a =? 225)%N && (b =? 154)%N && (c =? 128)%N)
  || ((a =? 226)%N && (b =? 128)%N
      && (((128 <=? c)%N && (c <=? 138)%N)
          || (c =? 168)%N || (c =? 169)%N || (c =? 175)%N))
  || ((a =? 226)%N && (b =? 129)%N && (c =? 159)%N)
  || ((a =? 227)%N && (b =? 128)%N && (c =? 128)%N).

(** [TrimLeftFunc(s, unicode.IsSpace)]: drop leading white space, one
    rune at a time. *)
Fixpoint TrimLeftSpace (s : gostring) : gostring :=
  match s with
  | [] => []
  | c1 :: s1 =>
      if is_space1 c1 then TrimLeftSpace s1 else
      match s1 with
      | [] => s
      | c2 :: s2 =>
          if is_space2 c1 c2 then TrimLeftSpace s2 else
          match s2 with
          | [] => s
          | c3 :: s3 =>
              if is_space3 c1 c2 c3 then TrimLeftSpace s3 else s
          end
      end
  end.

(** [TrimRightFunc] decodes the last rune; on the reversed string the
    bytes of a rune come last byte first. *)
Fixpoint trim_right_rev (r : gostring) : gostring :=
  match r with
  | [] => []
  | c1 :: r1 =>
      if is_space1 c1 then trim_right_rev r1 else
      match r1 with
      | [] => r
      | c2 :: r2 =>
          if is_space2 c2 c1 then trim_right_rev r2 else
          match r2 with
          | [] => r
          | c3 :: r3 =>
              if is_space3 c3 c2 c1 then trim_right_rev r3 else r
          end
      end
  end.

Definition TrimRightSpace (s : gostring) : gostring :=
  rev (trim_right_rev (rev s)).

Definition TrimSpace (s : gostring) : gostring :=
  TrimRightSpace (TrimLeftSpace s).

End Strings.

(** ** Package strconv *)
Module Strconv.

(** The digit table "0123456789abcdefghijklmnopqrstuvwxyz". *)
Definition digit_char (d : Z) : ascii :=
  if d <? 10 then ascii_of_N (Z.to_N (48 + d))
  else ascii_of_N (Z.to_N (87 + d)).

(** The value of a digit byte in [ParseUint]: '0'..'9', 'a'..'z',
    'A'..'Z'; anything else is a syntax error. *)
Definition digit_val (c : ascii) : option Z :=
  let n := Z.of_N (N_of_ascii c) in
  if (48 <=? n) && (n <=? 57) then Some (n - 48)
  else if (97 <=? n) && (n <=? 122) then Some (n - 97 + 10)
  else if (65 <=? n) && (n <=? 90) then Some (n - 65 + 10)
  else None.

(** [formatBits]: the digits of [u >= 0] in [base], most significant
    first, produced from the least significant one. *)
Fixpoint format_loop (fuel : nat) (base u : Z) (acc : gostring) : gostring :=
  match fuel with
  | O => digit_char (u mod base) :: acc
  | S f =>
      if base <=? u
      then format_loop f base (u / base) (digit_char (u mod base) :: acc)
      else digit_char u :: acc
  end.

Definition FormatUint (u base : Z) : gostring :=
  format_loop (Z.to_nat (Z.log2 u)) base u [].

(** [FormatInt(i, base)] for a signed value. *)
Definition FormatInt (i base : Z) : gostring :=
  if i <? 0 then "-"%char :: FormatUint (- i) base else FormatUint i base.

Definition Itoa (i : Z) : gostring := FormatInt i 10.

(** The digit loop of [ParseUint] with bitSize 64: [n] is the value read
    so far. *)
Fixpoint parse_loop (base : Z) (s : gostring) (n : Z) : NumError + Z :=
  match s with
  | [] => inr n
  | d :: s' =>
      match digit_val d with
      | None => inl ErrSyntax
      | Some v =>
          if base <=? v then inl ErrSyntax
          else if (2 ^ 64 - 1) / base + 1 <=? n then inl ErrRange
          else if 2 ^ 64 - 1 <? n * base + v then inl ErrRange
          else parse_loop base s' (n * base + v)
      end
  end.

Section ParseInt.
(** With base 0 the base is taken from the prefix of the string; the
    rules depend on the Go release and are kept abstract. *)
Variable parse_base0 : gostring -> NumError + Z.

Definition ParseUint (s : gostring) (base : Z) : NumError + Z :=
  match s with
  | [] => inl ErrSyntax
  | _ :: _ =>
      if (2 <=? base) && (base <=? 36) then parse_loop base s 0
      else if base =? 0 then parse_base0 s
      else inl ErrBase
  end.

(** [ParseInt(s, base, 64)]. *)
Definition ParseInt (s : gostring) (base : Z) : NumError + Z :=
  match s with
  | [] => inl ErrSyntax
  | c :: s' =>
      let neg := Ascii.eqb c "-" in
      let digits := if Ascii.eqb c "+" || neg then s' else s in
      match ParseUint digits base with
      | inl e => inl e
      | inr un =>
          if negb neg && (2 ^ 63 <=? un) then inl ErrRange
          else if neg && (2 ^ 63 <? un) then inl ErrRange
          else inr (if neg then - un else un)
      end
  end.
End ParseInt.

(** [Atoi(s)] is [ParseInt(s, 10, 0)] on a 64-bit platform (its fast
    path for short strings computes the same result). *)
Definition Atoi (s : gostring) : NumError + Z :=
  ParseInt (fun _ => inl ErrSyntax) s 10.

End Strconv.

(** ** float64, as far as the package uses it *)
Module Float64.

(** A finite binary64 value [mant * 2 ^ expo]. *)
Record t := mk { mant : Z; expo : Z }.

(** [float64(k)] of an integer; exact for [|k| <= 2 ^ 53]. *)
Definition of_int (k : Z) : t := mk k 0.

(** The integer nearest to [a / b], ties to even, for [0 <= a], [0 < b]. *)
Definition div_rne (a b : Z) : Z :=
  let q := a / b in
  let r := a mod b in
  if 2 * r <? b then q
  else if b <? 2 * r then q + 1
  else if Z.even q then q else q + 1.

(** [x / y], correctly rounded to a 53-bit significand.  The divisor is
    not zero and the quotient is zero or in the normal range (here it is
    a number of milliseconds divided by 1000). *)
Definition div (x y : t) : t :=
  if mant x =? 0 then mk 0 0 else
  let a := Z.abs (mant x) in
  let b := Z.abs (mant y) in
  let s0 := 53 + Z.log2 b - Z.log2 a in
  let s := if 2 ^ 53 <=? (a * 2 ^ s0) / b then s0 - 1 else s0 in
  let m := div_rne (a * 2 ^ s) b in
  mk (Z.sgn (mant x) * Z.sgn (mant y) * m) (expo x - expo y - s).

End Float64.

(** ** Package fmt: the two formats the package uses *)
Module Fmt.
Import Strconv.

Definition pad_left (c : ascii) (n : nat) (s : gostring) : gostring :=
  replicate (n - List.length s) c ++ s.

(** The verb [%.Nx] on an unsigned integer: at least [N] digits. *)
Definition fmt_x (prec : nat) (u : Z) : gostring :=
  pad_left "0" prec (FormatUint u 16).

(** The verb [%.Nf]: the exact binary value rounded to [N] decimals,
    ties to even; without a decimal point when [N] is 0. *)
Definition fmt_f (prec : Z) (x : Float64.t) : gostring :=
  let m := Z.abs (Float64.mant x) in
  let e := Float64.expo x in
  let q := if 0 <=? e then m * 2 ^ e * 10 ^ prec
           else Float64.div_rne (m * 10 ^ prec) (2 ^ (- e)) in
  (if Float64.mant x <? 0 then ["-"%char] else [])
    ++ FormatUint (q / 10 ^ prec) 10
    ++ (if prec =? 0 then []
        else "."%char :: pad_left "0" (Z.to_nat prec)
                           (FormatUint (q mod 10 ^ prec) 10)).

Definition is_digit (c : ascii) : bool :=
  let n := N_of_ascii c in (48 <=? n)%N && (n <=? 57)%N.

(** [parsenum]: the decimal number at the head of the format.  [None]
    is the outcome "too large" (an accumulated value above 10^6 with
    digits still to come), after which the rest of the format is
    abandoned. *)
Fixpoint parsenum (s : gostring) (num : Z) (isnum : bool)
  : option (Z * bool * gostring) :=
  match s with
  | [] => Some (num, isnum, [])
  | c :: s' =>
      if is_digit c
      then if 10 ^ 6 <? num then None
           else parsenum s' (num * 10 + (Z.of_N (N_of_ascii c) - 48)) true
      else Some (num, isnum, s)
  end.

Section Sprintf.
(** The default rendering [%v] of a float64 (shortest digits that read
    back), which appears in the diagnostics of a malformed format; it
    is kept abstract. *)
Variable fmt_v : Float64.t -> gostring.

(** [fmt.Sprintf(format, x)] for one float64 operand and a format of
    the shape ["%." ++ digits-or-sign ++ ...]: precision, then the
    verb, then literal text.  A verb other than [f] is reported as a
    bad verb (here it can only be ['-']), a format that ends before
    its verb as [NOVERB] with the operand left over. *)
Definition Sprintf (format : gostring) (x : Float64.t) : gostring :=
  match format with
  | "%"%char :: "."%char :: rest =>
      match parsenum rest 0 false with
      | None =>
          str "%!(NOVERB)" ++ str "%!(EXTRA float64=" ++ fmt_v x ++ str ")"
      | Some (prec, _, []) =>
          str "%!(NOVERB)" ++ str "%!(EXTRA float64=" ++ fmt_v x ++ str ")"
      | Some (prec, _, verb :: tail) =>
          (if Ascii.eqb verb "f" then fmt_f prec x
           else str "%!" ++ [verb] ++ str "(float64=" ++ fmt_v x ++ str ")")
            ++ tail
      end
  | _ => format
  end.
End Sprintf.

End Fmt.

(** ** The data model *)

(** Color represents a color; the four channels are [uint8]. *)
Record Color := { Alpha : Z; Blue : Z; Green : Z; Red : Z }.

Definition wf_Color (c : Color) : Prop :=
  0 <= Alpha c < 256 /\ 0 <= Blue c < 256
  /\ 0 <= Green c < 256 /\ 0 <= Red c < 256.

Section ColorCodec.
Variable parse_base0 : gostring -> NumError + Z.

(** newColorFromString builds a new color based on a string. *)
Definition newColorFromString (s : gostring) (base : Z) : result Color :=
  match Strconv.ParseInt parse_base0 s base with
  | inl e => Err (ErrParseInt s base e)
  | inr i =>
      Ok {| Alpha := Z.land (uint8 (Z.shiftr i 24)) 255;
            Blue := Z.land (uint8 (Z.shiftr i 16)) 255;
            Green := Z.land (uint8 (Z.shiftr i 8)) 255;
            Red := Z.land (uint8 i) 255 |}
  end.
End ColorCodec.

(** The packed word [alpha<<24 | blue<<16 | green<<8 | red], a uint32. *)
Definition Color_word (c : Color) : Z :=
  Z.lor (Z.lor (Z.lor (uint32 (Z.shiftl (uint32 (Alpha c)) 24))
                      (uint32 (Z.shiftl (uint32 (Blue c)) 16)))
               (uint32 (Z.shiftl (uint32 (Green c)) 8)))
        (uint32 (Red c)).

(** String expresses the color as a string for a specific base: eight hex
    digits for base 16, the decimal number for every other base. *)
Definition Color_String (c : Color) (base : Z) : gostring :=
  let i := Color_word c in
  if base =? 16 then Fmt.fmt_x 8 i else Strconv.Itoa i.

(** ** The duration codec *)

Definition Nanosecond : Z := 1.
Definition Microsecond : Z := 1000 * Nanosecond.
Definition Millisecond : Z := 1000 * Microsecond.
Definition Second : Z := 1000 * Millisecond.
Definition Minute : Z := 60 * Second.
Definition Hour : Z := 60 * Minute.

Section DurationCodec.
(** [strings.Split] with an empty separator. *)
Variable explode : gostring -> list gostring.
(** [int(f)] of a float64 beyond the int64 range is implementation
    dependent; [int_overflow e] stands for [int(math.Pow10(e))] when
    [e > 18]. *)
Variable int_overflow : Z -> Z.
(** The [%v] rendering of a float64. *)
Variable fmt_v : Float64.t -> gostring.

(** [int(math.Pow10(e))]: a power below one truncates to 0. *)
Definition int_Pow10 (e : Z) : Z :=
  if e <? 0 then 0 else if e <=? 18 then 10 ^ e else int_overflow e.

Definition atoi (s : gostring) : result Z :=
  match Strconv.Atoi s with
  | inl e => Err (ErrAtoi s e)
  | inr v => Ok v
  end.

(** parseDuration parses a duration in "00:00:00.000", "00:00:00,000"
    or "0:00:00:00" format. *)
Definition parseDuration (i millisecondSep : gostring)
    (numberOfMillisecondDigits : Z) : result Z :=
  let parts := Strings.Split explode i millisecondSep in
  ms_s <-
    (if (2 <=? List.length parts)%nat then
       let s := Strings.TrimSpace (List.last parts []) in
       if (3 <? List.length s)%nat then Err (ErrMillisecondDigits i)
       else
         milliseconds <- atoi s ;;
         Ok (wrap64 (milliseconds
                     * int_Pow10 (wrap64 (numberOfMillisecondDigits
                                          - Z.of_nat (List.length s)))),
             Strings.Join (removelast parts) millisecondSep)
     else Ok (0, i)) ;;
  let milliseconds := fst ms_s in
  let s := snd ms_s in
  let parts := Strings.Split explode (Strings.TrimSpace s) (str ":") in
  hms <-
    (match parts with
     | [m; sec] => Ok ([], m, sec)
     | [h; m; sec] => Ok (h, m, sec)
     | _ => Err (ErrNoHMS i)
     end) ;;
  let '(partHours, partMinutes, partSeconds) := hms in
  seconds <- atoi (Strings.TrimSpace partSeconds) ;;
  minutes <- atoi (Strings.TrimSpace partMinutes) ;;
  hours <-
    (if (0 <? List.length partHours)%nat
     then atoi (Strings.TrimSpace partHours) else Ok 0) ;;
  Ok (wrap64 (wrap64 (wrap64 (wrap64 (milliseconds * Millisecond)
                              + wrap64 (seconds * Second))
                      + wrap64 (minutes * Minute))
              + wrap64 (hours * Hour))).

(** formatDuration formats a duration.  The last step slices the
    rendering of the fractional part from its third byte on, which
    panics on a rendering shorter than two bytes. *)
Definition formatDuration (i : Z) (millisecondSep : gostring)
    (numberOfMillisecondDigits : Z) : result gostring :=
  let hours := Z.quot i Hour in
  let n := Z.rem i Hour in
  let s := (if hours <? 10 then str "0" else [])
             ++ Strconv.Itoa hours ++ str ":" in
  let minutes := Z.quot n Minute in
  let n := Z.rem i Minute in
  let s := s ++ (if minutes <? 10 then str "0" else [])
             ++ Strconv.Itoa minutes ++ str ":" in
  let seconds := Z.quot n Second in
  let n := Z.rem i Second in
  let s := s ++ (if seconds <? 10 then str "0" else [])
             ++ Strconv.Itoa seconds ++ millisecondSep in
  let milliseconds :=
    Float64.div (Float64.of_int (Z.quot n Millisecond))
                (Float64.of_int 1000) in
  let f := Fmt.Sprintf fmt_v
             (str "%." ++ Strconv.Itoa numberOfMillisecondDigits ++ str "f")
             milliseconds in
  if (List.length f <? 2)%nat
  then Err (Panic (str "slice bounds out of range"))
  else Ok (s ++ drop 2 f).

End DurationCodec.

(** ** The document model *)

(** StyleAttributes represents style attributes. *)
Record StyleAttributes := {
  SSAAlignment : option Z;
  SSAAlphaLevel : option Float64.t;
  SSAAngle : option Float64.t;
  SSABackColour : option Color;
  SSABold : option bool;
  SSABorderStyle : option Z;
  SSAEffect : gostring;
  SSAEncoding : option Z;
  SSAFontName : gostring;
  SSAFontSize : option Float64.t;
  SSAItalic : option bool;
  SSALayer : option Z;
  SSAMarginLeft : option Z;
  SSAMarginRight : option Z;
  SSAMarginVertical : option Z;
  SSAMarked : option bool;
  SSAOutline : option Z;
  SSAOutlineColour : option Color;
  SSAPrimaryColour : option Color;
  SSAScaleX : option Float64.t;
  SSAScaleY : option Float64.t;
  SSASecondaryColour : option Color;
  SSAShadow : option Z;
  SSASpacing : option Z;
  SSAStrikeout : option bool;
  SSAUnderline : option bool;
  TeletextColor : option Color;
  TeletextDoubleHeight : option bool;
  TeletextDoubleSize : option bool;
  TeletextDoubleWidth : option bool;
  TeletextSpacesAfter : option Z;
  TeletextSpacesBefore : option Z;
  TTMLBackgroundColor : gostring;
  TTMLColor : gostring;
  TTMLDirection : gostring;
  TTMLDisplay : gostring;
  TTMLDisplayAlign : gostring;
  TTMLExtent : gostring;
  TTMLFontFamily : gostring;
  TTMLFontSize : gostring;
  TTMLFontStyle : gostring;
  TTMLFontWeight : gostring;
  TTMLLineHeight : gostring;
  TTMLOpacity : gostring;
  TTMLOrigin : gostring;
  TTMLOverflow : gostring;
  TTMLPadding : gostring;
  TTMLShowBackground : gostring;
  TTMLTextAlign : gostring;
  TTMLTextDecoration : gostring;
  TTMLTextOutline : gostring;
  TTMLUnicodeBidi : gostring;
  TTMLVisibility : gostring;
  TTMLWrapOption : gostring;
  TTMLWritingMode : gostring;
  TTMLZIndex : Z;
  WebVTTAlign : gostring;
  WebVTTLine : gostring;
  WebVTTLines : Z;
  WebVTTPosition : gostring;
  WebVTTRegionAnchor : gostring;
  WebVTTScroll : gostring;
  WebVTTSize : gostring;
  WebVTTVertical : gostring;
  WebVTTViewportAnchor : gostring;
  WebVTTWidth : gostring
}.

(** The zero value [StyleAttributes{}]. *)
Definition StyleAttributes_zero : StyleAttributes := {|
  SSAAlignment := None;
  SSAAlphaLevel := None;
  SSAAngle := None;
  SSABackColour := None;
  SSABold := None;
  SSABorderStyle := None;
  SSAEffect := [];
  SSAEncoding := None;
  SSAFontName := [];
  SSAFontSize := None;
  SSAItalic := None;
  SSALayer := None;
  SSAMarginLeft := None;
  SSAMarginRight := None;
  SSAMarginVertical := None;
  SSAMarked := None;
  SSAOutline := None;
  SSAOutlineColour := None;
  SSAPrimaryColour := None;
  SSAScaleX := None;
  SSAScaleY := None;
  SSASecondaryColour := None;
  SSAShadow := None;
  SSASpacing := None;
  SSAStrikeout := None;
  SSAUnderline := None;
  TeletextColor := None;
  TeletextDoubleHeight := None;
  TeletextDoubleSize := None;
  TeletextDoubleWidth := None;
  TeletextSpacesAfter := None;
  TeletextSpacesBefore := None;
  TTMLBackgroundColor := [];
  TTMLColor := [];
  TTMLDirection := [];
  TTMLDisplay := [];
  TTMLDisplayAlign := [];
  TTMLExtent := [];
  TTMLFontFamily := [];
  TTMLFontSize := [];
  TTMLFontStyle := [];
  TTMLFontWeight := [];
  TTMLLineHeight := [];
  TTMLOpacity := [];
  TTMLOrigin := [];
  TTMLOverflow := [];
  TTMLPadding := [];
  TTMLShowBackground := [];
  TTMLTextAlign := [];
  TTMLTextDecoration := [];
  TTMLTextOutline := [];
  TTMLUnicodeBidi := [];
  TTMLVisibility := [];
  TTMLWrapOption := [];
  TTMLWritingMode := [];
  TTMLZIndex := 0;
  WebVTTAlign := [];
  WebVTTLine := [];
  WebVTTLines := 0;
  WebVTTPosition := [];
  WebVTTRegionAnchor := [];
  WebVTTScroll := [];
  WebVTTSize := [];
  WebVTTVertical := [];
  WebVTTViewportAnchor := [];
  WebVTTWidth := []
|}.

(** Metadata represents metadata. *)
Record Metadata := {
  Metadata_Comments : list gostring;
  Copyright : gostring;
  Framerate : Z;
  Language : gostring;
  Title : gostring
}.

(** Style represents a subtitle's style; [Style_Style] is the parent.  The
    styles and regions are never written by the operations below, so the
    pointers to them are modelled by the values they point to. *)
Inductive Style := Build_Style {
  Style_ID : gostring;
  Style_InlineStyle : option StyleAttributes;
  Style_Style : option Style
}.

(** Region represents a subtitle's region. *)
Record Region := {
  Region_ID : gostring;
  Region_InlineStyle : option StyleAttributes;
  Region_Style : option Style
}.

(** LineItem represents a formatted line item. *)
Record LineItem := {
  LineItem_InlineStyle : option StyleAttributes;
  LineItem_Style : option Style;
  Text : gostring
}.

(** Line represents a set of formatted line items. *)
Record Line := {
  Line_Items : list LineItem;
  VoiceName : gostring
}.

(** Item represents a text to show between 2 time boundaries with
    formatting. *)
Record Item := {
  Comments : list gostring;
  EndAt : Z;
  Item_InlineStyle : option StyleAttributes;
  Lines : list Line;
  Item_Region : option Region;
  StartAt : Z;
  Item_Style : option Style
}.

Definition set_EndAt (i : Item) (d : Z) : Item :=
  {| Comments := Comments i; EndAt := d; Item_InlineStyle := Item_InlineStyle i;
     Lines := Lines i; Item_Region := Item_Region i; StartAt := StartAt i;
     Item_Style := Item_Style i |}.

Definition set_StartAt (i : Item) (d : Z) : Item :=
  {| Comments := Comments i; EndAt := EndAt i; Item_InlineStyle := Item_InlineStyle i;
     Lines := Lines i; Item_Region := Item_Region i; StartAt := d;
     Item_Style := Item_Style i |}.

(** String implement the Stringer interface. *)
Definition Line_String (l : Line) : gostring :=
  Strings.Join (map Text (Line_Items l)) (str " ").

(** String implements the Stringer interface. *)
Definition Item_String (i : Item) : gostring :=
  Strings.Join (map Line_String (Lines i)) (str " - ").

Fixpoint string_eqb (a b : gostring) : bool :=
  match a, b with
  | [], [] => true
  | x :: a', y :: b' => Ascii.eqb x y && string_eqb a' b'
  | _, _ => false
  end.

(** *** The store of items and slices of pointers into it *)

(** A pointer to an Item is its address in the store; an address outside
    the store stands for nil. *)
Abbreviation ptr := nat.
Abbreviation heap := (list Item).

Definition deref (h : heap) (p : ptr) : result Item :=
  match h !! p with
  | Some it => Ok it
  | None => Err (Panic (str "nil pointer dereference"))
  end.

(** [&Item{...}]: a fresh address. *)
Definition new (h : heap) (it : Item) : heap * ptr := (h ++ [it], List.length h).

(** A slice [[]*Item]: the elements it shows and the capacity of its
    backing array. *)
Record slice := { elems : list ptr; cap : nat }.

Definition at_index (l : list ptr) (i : nat) : result ptr :=
  match l !! i with
  | Some p => Ok p
  | None => Err (Panic (str "index out of range"))
  end.

Fixpoint foldM {A B} (f : A -> B -> result A) (l : list B) (a : A) : result A :=
  match l with
  | [] => Ok a
  | b :: l' => a' <- f a b ;; foldM f l' a'
  end.

(** Subtitles represents an ordered list of items with formatting. *)
Record Subtitles := {
  Items : slice;
  Subtitles_Metadata : option Metadata;
  Regions : gmap gostring Region;
  Styles : gmap gostring Style
}.

Definition set_Items (s : Subtitles) (items : slice) : Subtitles :=
  {| Items := items; Subtitles_Metadata := Subtitles_Metadata s;
     Regions := Regions s; Styles := Styles s |}.

(** NewSubtitles creates new subtitles. *)
Definition NewSubtitles : Subtitles :=
  {| Items := {| elems := []; cap := 0 |}; Subtitles_Metadata := None;
     Regions := ∅; Styles := ∅ |}.

(** ** The timing algebra *)

(** Add adds a duration to each time boundaries.  An item reached through
    two entries of the slice is shifted twice. *)
Definition add_step (d : Z) (h : heap) (v : ptr) : result heap :=
  it <- deref h v ;;
  let it1 := set_EndAt it (wrap64 (EndAt it + d)) in
  Ok (<[v := set_StartAt it1 (wrap64 (StartAt it1 + d))]> h).

Definition Add (d : Z) (h : heap) (s : Subtitles) : result heap :=
  foldM (add_step d) (elems (Items s)) h.

(** Duration returns the subtitles duration. *)
Definition Duration (h : heap) (s : Subtitles) : result Z :=
  let items := elems (Items s) in
  if (List.length items =? 0)%nat then Ok 0
  else
    p <- at_index items (List.length items - 1) ;;
    it <- deref h p ;;
    Ok (EndAt it).

(** IsEmpty returns whether the subtitles are empty. *)
Definition IsEmpty (s : Subtitles) : bool :=
  (List.length (elems (Items s)) =? 0)%nat.

(** *** Order *)

(** The body of the inner loop of [Order] at [index]. *)
Definition order_step (h : heap) (st : list ptr * bool) (index_ : nat)
  : result (list ptr * bool) :=
  let '(items, swapped) := st in
  a <- at_index items (index_ - 1) ;;
  ia <- deref h a ;;
  b <- at_index items index_ ;;
  ib <- deref h b ;;
  if StartAt ia >? StartAt ib
  then Ok (<[index_ := a]> (<[(index_ - 1)%nat := b]> items), true)
  else Ok (items, swapped).

(** [for index := 1; index < len(s.Items); index++]. *)
Definition order_pass (h : heap) (items : list ptr) : result (list ptr * bool) :=
  foldM (order_step h) (seq 1 (List.length items - 1)) (items, false).

(** [for swapped { ... }]. *)
Fixpoint order_loop (fuel : nat) (h : heap) (items : list ptr)
  : result (list ptr) :=
  match fuel with
  | O => Err OutOfFuel
  | S fuel' =>
      r <- order_pass h items ;;
      if snd r then order_loop fuel' h (fst r) else Ok (fst r)
  end.

(** Order orders items.  The items are swapped in place, so the capacity
    of the slice stays.  A pass that swaps nothing ends the loop; there are
    never more passes than items. *)
Definition Order (h : heap) (s : Subtitles) : result Subtitles :=
  let items := elems (Items s) in
  if (List.length items <=? 1)%nat then Ok s
  else
    items' <- order_loop (List.length items) h items ;;
    Ok (set_Items s {| elems := items'; cap := cap (Items s) |}).

(** *** ForceDuration *)

(** The placeholder item [&Item{EndAt: d, Lines: ..."...", StartAt: d - 1ms}]. *)
Definition dummy_item (d : Z) : Item :=
  {| Comments := []; EndAt := d; Item_InlineStyle := None;
     Lines := [ {| Line_Items := [ {| LineItem_InlineStyle := None;
                                      LineItem_Style := None;
                                      Text := str "..." |} ];
                   VoiceName := [] |} ];
     Item_Region := None; StartAt := wrap64 (d - Millisecond);
     Item_Style := None |}.

(** The scan for the last item before the requested duration: the result
    is the store and [lastIndex] ([None] for -1). *)
Fixpoint force_scan (d : Z) (h : heap) (items : list ptr) (index_ : nat)
  : result (heap * option nat) :=
  match items with
  | [] => Ok (h, None)
  | i :: rest =>
      it <- deref h i ;;
      if StartAt it >=? d then Ok (h, Some index_)
      else if EndAt it >? d
           then force_scan d (<[i := set_EndAt it d]> h) rest (S index_)
           else force_scan d h rest (S index_)
  end.

Section Algebra.
(** [growslice]: the capacity of the new backing array when an append
    does not fit, from the old capacity and the length needed.  The
    policy belongs to the Go runtime; only that the new array holds the
    elements is used. *)
Variable growslice : nat -> nat -> nat.

(** [append(s, xs...)]: in place when the capacity allows. *)
Definition append (s : slice) (xs : list ptr) : slice :=
  let n := (List.length (elems s) + List.length xs)%nat in
  if (n <=? cap s)%nat then {| elems := elems s ++ xs; cap := cap s |}
  else {| elems := elems s ++ xs; cap := Nat.max n (growslice (cap s) n) |}.

(** ForceDuration updates the subtitles duration.
    If requested duration is bigger, then we create a dummy item.
    If requested duration is smaller, then we remove useless items and
    we cut the last item or add a dummy item. *)
Definition ForceDuration (d : Z) (h : heap) (s : Subtitles)
  : result (heap * Subtitles) :=
  cur <- Duration h s ;;
  if cur =? d then Ok (h, s)
  else
    st <- (if cur >? d then
             r <- force_scan d h (elems (Items s)) 0 ;;
             match snd r with
             | Some lastIndex =>
                 Ok (fst r,
                     set_Items s {| elems := take lastIndex (elems (Items s));
                                    cap := cap (Items s) |})
             | None => Ok (fst r, s)
             end
           else Ok (h, s)) ;;
    cur1 <- Duration (fst st) (snd st) ;;
    if cur1 <? d then
      let hp := new (fst st) (dummy_item d) in
      Ok (fst hp, set_Items (snd st) (append (Items (snd st)) [snd hp]))
    else Ok st.

(** *** Unfragment *)

(** The inner loop [for j := ...; j < len(s.Items); j++] from [j] on.
    After a merge the entry at [j] is removed and the same index is
    looked at again. *)
Fixpoint unfragment_inner (fuel : nat) (h : heap) (items : list ptr)
    (i j : nat) : result (heap * list ptr) :=
  match fuel with
  | O => Err OutOfFuel
  | S fuel' =>
      if (j <? List.length items)%nat then
        pi <- at_index items i ;;
        ii <- deref h pi ;;
        pj <- at_index items j ;;
        ij <- deref h pj ;;
        if string_eqb (Item_String ii) (Item_String ij)
           && (EndAt ii =? StartAt ij)
        then unfragment_inner fuel' (<[pi := set_EndAt ii (EndAt ij)]> h)
               (take j items ++ drop (S j) items) i j
        else unfragment_inner fuel' h items i (S j)
      else Ok (h, items)
  end.

(** The outer loop [for i := 0; i < len(s.Items)-1; i++] from [i] on. *)
Fixpoint unfragment_outer (fuel : nat) (h : heap) (items : list ptr)
    (i : nat) : result (heap * list ptr) :=
  match fuel with
  | O => Err OutOfFuel
  | S fuel' =>
      if (i <? List.length items - 1)%nat then
        r <- unfragment_inner (S (List.length items)) h items i (S i) ;;
        unfragment_outer fuel' (fst r) (snd r) (S i)
      else Ok (h, items)
  end.

(** Unfragment unfragments subtitles.  Removing an entry shifts the rest
    of the slice down in place. *)
Definition Unfragment (h : heap) (s : Subtitles) : result (heap * Subtitles) :=
  let items := elems (Items s) in
  if (List.length items <=? 1)%nat then Ok (h, s)
  else
    r <- unfragment_outer (List.length items) h items 0 ;;
    s' <- Order (fst r)
            (set_Items s {| elems := snd r; cap := cap (Items s) |}) ;;
    Ok (fst r, s').

(** *** Fragment *)

(** The state of one [for i, sub := range s.Items] loop.  The range
    reads the backing array that [s.Items] had when the loop started:
    [rs_array] is what that array holds.  While [s.Items] still lives in
    it ([rs_shared]), an insertion that fits the capacity is done in that
    array and is seen by the range; after the first insertion that does
    not fit, [s.Items] lives in a new array and the range keeps reading
    the old one. *)
Record range_state := {
  rs_heap : heap;
  rs_array : list ptr;
  rs_items : slice;
  rs_shared : bool
}.

(** [s.Items = append(s.Items[:i], append([]*Item{newSub}, s.Items[i:]...)...)]. *)
Definition insert_at (st : range_state) (h : heap) (i : nat) (newSub : ptr)
  : result range_state :=
  let items := elems (rs_items st) in
  if (List.length items <? i)%nat
  then Err (Panic (str "slice bounds out of range"))
  else
    let items' := take i items ++ newSub :: drop i items in
    let n := List.length items' in
    if (n <=? cap (rs_items st))%nat
    then Ok {| rs_heap := h;
               rs_array := if rs_shared st then items' else rs_array st;
               rs_items := {| elems := items'; cap := cap (rs_items st) |};
               rs_shared := rs_shared st |}
    else Ok {| rs_heap := h;
               rs_array := rs_array st;
               rs_items := {| elems := items';
                              cap := Nat.max n (growslice (cap (rs_items st)) n) |};
               rs_shared := false |}.

(** The body of the range loop for the fragment
    [fragmentStartAt, fragmentEndAt] at index [i]. *)
Definition fragment_step (fragmentStartAt fragmentEndAt : Z)
    (st : range_state) (i : nat) : result range_state :=
  sub <- at_index (rs_array st) i ;;
  it <- deref (rs_heap st) sub ;;
  let hn := new (rs_heap st) it in
  let h1 := fst hn in
  let newSub := snd hn in
  if (StartAt it <? fragmentStartAt) && (EndAt it >? fragmentStartAt) then
    let h2 := <[sub := set_StartAt it fragmentStartAt]> h1 in
    let h3 := <[newSub := set_EndAt it fragmentStartAt]> h2 in
    insert_at st h3 i newSub
  else if (StartAt it <? fragmentEndAt) && (EndAt it >? fragmentEndAt) then
    let h2 := <[sub := set_StartAt it fragmentEndAt]> h1 in
    let h3 := <[newSub := set_EndAt it fragmentEndAt]> h2 in
    insert_at st h3 i newSub
  else
    Ok {| rs_heap := h1; rs_array := rs_array st;
          rs_items := rs_items st; rs_shared := rs_shared st |}.

(** One [for i, sub := range s.Items] loop: as many steps as the slice
    had elements when it started. *)
Definition fragment_pass (fragmentStartAt fragmentEndAt : Z)
    (h : heap) (items : slice) : result range_state :=
  foldM (fragment_step fragmentStartAt fragmentEndAt)
    (seq 0 (List.length (elems items)))
    {| rs_heap := h; rs_array := elems items;
       rs_items := items; rs_shared := true |}.

(** [for fragmentStartAt < s.Items[len(s.Items)-1].EndAt { ... }]. *)
Fixpoint fragment_loop (fuel : nat) (f fragmentStartAt fragmentEndAt : Z)
    (h : heap) (items : slice) : result (heap * slice) :=
  match fuel with
  | O => Err OutOfFuel
  | S fuel' =>
      p <- at_index (elems items) (List.length (elems items) - 1) ;;
      last <- deref h p ;;
      if fragmentStartAt <? EndAt last then
        st <- fragment_pass fragmentStartAt fragmentEndAt h items ;;
        fragment_loop fuel' f (wrap64 (fragmentStartAt + f))
          (wrap64 (fragmentEndAt + f)) (rs_heap st) (rs_items st)
      else Ok (h, items)
  end.

(** Fragment fragments subtitles with a specific fragment duration. *)
Definition Fragment (fuel : nat) (f : Z) (h : heap) (s : Subtitles)
  : result (heap * Subtitles) :=
  if (List.length (elems (Items s)) =? 0)%nat then Ok (h, s)
  else
    r <- fragment_loop fuel f 0 f h (Items s) ;;
    s' <- Order (fst r) (set_Items s (snd r)) ;;
    Ok (fst r, s').

(** *** Merge *)

Definition merge_region (m : gmap gostring Region) (region : Region)
  : gmap gostring Region :=
  match m !! Region_ID region with
  | Some _ => m
  | None => <[Region_ID region := region]> m
  end.

Definition merge_style (m : gmap gostring Style) (style : Style)
  : gmap gostring Style :=
  match m !! Style_ID style with
  | Some _ => m
  | None => <[Style_ID style := style]> m
  end.

(** Merge merges subtitles i into subtitles.  Go visits the entries of
    a map in an order of its own choosing: [regions] and [styles] are
    the values of [i.Regions] and [i.Styles] in the order of the visit. *)
Definition Merge (h : heap) (s i : Subtitles)
    (regions : list Region) (styles : list Style) : result Subtitles :=
  s1 <- Order h (set_Items s (append (Items s) (elems (Items i)))) ;;
  Ok {| Items := Items s1;
        Subtitles_Metadata := Subtitles_Metadata s1;
        Regions := foldl merge_region (Regions s1) regions;
        Styles := foldl merge_style (Styles s1) styles |}.

End Algebra.

(** A visit of the values of a map, in any order. *)
Definition visit_of {V} (m : gmap gostring V) (vs : list V) : Prop :=
  vs ≡ₚ (map_to_list m).*2.

(** The items a slice shows, read from the store. *)
Fixpoint read (h : heap) (l : list ptr) : result (list Item) :=
  match l with
  | [] => Ok []
  | p :: l' => it <- deref h p ;; r <- read h l' ;; Ok (it :: r)
  end.

(** A document whose item sequence is [items], each item at an address
    of its own, in a backing array of capacity [c]. *)
Definition doc_store (items : list Item) : heap := items.

Definition doc_of (items : list Item) (c : nat) : Subtitles :=
  set_Items NewSubtitles {| elems := seq 0 (List.length items); cap := c |}.

(** ** Files *)

Module Filepath.
Section Ext.
(** [os.IsPathSeparator], which depends on the platform. *)
Variable IsPathSeparator : ascii -> bool.

(** The loop of [Ext], from the last byte down: [r] holds the bytes
  still to be looked at, last byte first, and [acc] those passed. *)
Fixpoint ext_loop (r acc : gostring) : gostring :=
match r with
| [] => []
| c :: r' =>
    if IsPathSeparator c then []
    else if Ascii.eqb c "." then c :: acc
    else ext_loop r' (c :: acc)
end.

(** [filepath.Ext]: the suffix beginning at the final dot in the final
  element of the path; empty if there is no dot. *)
Definition Ext (path : gostring) : gostring := ext_loop (rev path) [].
End Ext.
End Filepath.

(** The error values that [Open] and [Write] return: the two errors of
    the package, an error of the operating system or of a reader or
    writer ([E]), and [errors.Wrapf] of an error with its message. *)
Inductive file_error (E : Type) : Type :=
| ErrInvalidExtension
| ErrNoSubtitlesToWrite
| Foreign (e : E)
| Wrapf (cause : file_error E) (message : gostring).
Arguments ErrInvalidExtension {E}.
Arguments ErrNoSubtitlesToWrite {E}.
Arguments Foreign {E} e.
Arguments Wrapf {E} cause message.

(** Options represents open or write options. *)
Record Options (TeletextOptions : Type) := {
  Filename : gostring;
  Teletext : TeletextOptions
}.
Arguments Filename {TeletextOptions} o.
Arguments Teletext {TeletextOptions} o.

Section Files.
Variable IsPathSeparator : ascii -> bool.
(** The state of the file system, open files, the options of the
    teletext reader, the errors of the operating system and of the
    readers and writers, and the documents as the readers and writers
    of the other files of the package see them. *)
Variables FS File TeletextOptions E Doc : Type.
Variable os_Open : FS -> gostring -> E + File.
Variable os_Create : FS -> gostring -> FS * (E + File).
Variable Close : File -> FS -> FS.
Variables ReadFromSRT ReadFromSSA ReadFromSTL ReadFromTTML ReadFromWebVTT
  : File -> file_error E + Doc.
Variable ReadFromTeletext : File -> TeletextOptions -> file_error E + Doc.
Variables WriteToSRT WriteToSSA WriteToSTL WriteToTTML WriteToWebVTT
  : Doc -> File -> FS -> FS * option (file_error E).
(** The zero value of the teletext options. *)
Variable no_teletext_options : TeletextOptions.

(** Open opens a subtitle reader based on options.  The file is opened
    before the extension is looked at; closing it does not change what
    is returned. *)
Definition Open (w : FS) (o : Options TeletextOptions) : file_error E + Doc :=
  match os_Open w (Filename o) with
  | inl err =>
      inl (Wrapf (Foreign err)
             (str "astisub: opening " ++ Filename o ++ str " failed"))
  | inr f =>
      let ext := Filepath.Ext IsPathSeparator (Filename o) in
      if string_eqb ext (str ".srt") then ReadFromSRT f
      else if string_eqb ext (str ".ssa") || string_eqb ext (str ".ass")
      then ReadFromSSA f
      else if string_eqb ext (str ".stl") then ReadFromSTL f
      else if string_eqb ext (str ".ts") then ReadFromTeletext f (Teletext o)
      else if string_eqb ext (str ".ttml") then ReadFromTTML f
      else if string_eqb ext (str ".vtt") then ReadFromWebVTT f
      else inl ErrInvalidExtension
  end.

(** OpenFile opens a file regardless of other options. *)
Definition OpenFile (w : FS) (filename : gostring) : file_error E + Doc :=
  Open w {| Filename := filename; Teletext := no_teletext_options |}.

(** Write writes subtitles to a file.  The file is created before the
    extension is looked at, and closed when the function returns. *)
Definition Write (s : Doc) (dst : gostring) (w : FS)
  : FS * option (file_error E) :=
  match os_Create w dst with
  | (w1, inl err) =>
      (w1, Some (Wrapf (Foreign err)
                   (str "astisub: creating " ++ dst ++ str " failed")))
  | (w1, inr f) =>
      let ext := Filepath.Ext IsPathSeparator dst in
      let r :=
        if string_eqb ext (str ".srt") then WriteToSRT s f w1
        else if string_eqb ext (str ".ssa") || string_eqb ext (str ".ass")
        then WriteToSSA s f w1
        else if string_eqb ext (str ".stl") then WriteToSTL s f w1
        else if string_eqb ext (str ".ttml") then WriteToTTML s f w1
        else if string_eqb ext (str ".vtt") then WriteToWebVTT s f w1
        else (w1, Some ErrInvalidExtension) in
      (Close f (fst r), snd r)
  end.
End Files.

(** ** Lines of bytes *)

Definition bytesLineSeparator : gostring := ["010"%char].

(** appendStringToBytesWithNewLine adds a string to bytes then adds a new
    line. *)
Definition appendStringToBytesWithNewLine (i s : gostring) : gostring :=
  (i ++ s) ++ bytesLineSeparator.

(** * The vocabulary of the statements *)

(** ** Texts *)

(** A decimal digit. *)
Definition dec_digit (c : ascii) : Prop := (48 <= N_of_ascii c <= 57)%N.

(** A byte below 128 that is not white space. *)
Definition plain (c : ascii) : Prop :=
  (N_of_ascii c < 128)%N /\ Strings.is_space1 c = false.


(** ** The duration codec *)

(** Two digits at least: the padding [formatDuration] writes by hand. *)
Definition pad2 (v : Z) : gostring :=
  (if v <? 10 then str "0" else []) ++ Strconv.Itoa v.

(** The check that the three-digit rendering of [k] milliseconds is the
    number [k] written with three digits. *)
Definition frac_ok (fmt_v : Float64.t -> gostring) (k : nat) : bool :=
  let f := Fmt.Sprintf fmt_v (str "%." ++ Strconv.Itoa 3 ++ str "f")
             (Float64.div (Float64.of_int (Z.of_nat k)) (Float64.of_int 1000)) in
  (2 <=? List.length f)%nat
  && (List.length (drop 2 f) =? 3)%nat
  && forallb Fmt.is_digit (drop 2 f)
  && match Strconv.Atoi (drop 2 f) with
     | inr v => v =? Z.of_nat k
     | inl _ => false
     end.

(** The check that the rendering of [k] milliseconds with no decimals
    is a single byte. *)
Definition zero_prec_ok (k : nat) : bool :=
  (List.length (Fmt.fmt_f 0 (Float64.div (Float64.of_int (Z.of_nat k))
                                         (Float64.of_int 1000))) =? 1)%nat.

(** A separator that is not empty and holds neither a digit nor a colon. *)
Definition sep_ok (sep : gostring) : Prop :=
  sep <> [] /\ Forall (fun c => Fmt.is_digit c = false /\ c <> ":"%char) sep.

(** Formatting [d] and parsing the text again gives [d], whatever the
    parts of the Go runtime left abstract do. *)
Definition duration_roundtrip (d : Z) (sep : gostring) (n : Z) : Prop :=
  forall explode int_overflow fmt_v,
  exists s, formatDuration fmt_v d sep n = Ok s
            /\ parseDuration explode int_overflow s sep n = Ok d.


Section Segments.
Variable explode : gostring -> list gostring.

(** The fractional segment of an input, when the separator occurs. *)
Definition fraction_of (i sep : gostring) : option gostring :=
  let parts := Strings.Split explode i sep in
  if (2 <=? List.length parts)%nat
  then Some (Strings.TrimSpace (List.last parts []))
  else None.

(** The fields of the part before the fractional segment. *)
Definition clock_fields (i sep : gostring) : list gostring :=
  let parts := Strings.Split explode i sep in
  Strings.Split explode
    (Strings.TrimSpace
       (if (2 <=? List.length parts)%nat
        then Strings.Join (removelast parts) sep else i))
    (str ":").

(** What [parseDuration] returns once the fractional segment has given
    [milliseconds]: the part of the source from the split at ":" on. *)
Definition clock_total (i sep : gostring) (milliseconds : Z) : result Z :=
  hms <-
    (match clock_fields i sep with
     | [m; sec] => Ok ([], m, sec)
     | [h; m; sec] => Ok (h, m, sec)
     | _ => Err (ErrNoHMS i)
     end) ;;
  let '(partHours, partMinutes, partSeconds) := hms in
  seconds <- atoi (Strings.TrimSpace partSeconds) ;;
  minutes <- atoi (Strings.TrimSpace partMinutes) ;;
  hours <-
    (if (0 <? List.length partHours)%nat
     then atoi (Strings.TrimSpace partHours) else Ok 0) ;;
  Ok (wrap64 (wrap64 (wrap64 (wrap64 (milliseconds * Millisecond)
                              + wrap64 (seconds * Second))
                      + wrap64 (minutes * Minute))
              + wrap64 (hours * Hour))).
End Segments.

(** ** Items and the store *)

(** Every pointer of the slice points into the store. *)
Definition allocated (h : heap) (l : list ptr) : Prop :=
  Forall (fun p => (p < List.length h)%nat) l.

(** [reads h l xs]: the pointers [l] point to the items [xs]. *)
Definition reads (h : heap) (l : list ptr) (xs : list Item) : Prop :=
  Forall2 (fun p it => h !! p = Some it) l xs.

(** The start offset of the item at [p]. *)
Definition start_of (h : heap) (p : ptr) : Z :=
  match h !! p with
  | Some it => StartAt it
  | None => 0
  end.

Definition start_le (h : heap) (p q : ptr) : Prop := start_of h p <= start_of h q.

(** The entries with start offset [t], in their order. *)
Definition starting_at (h : heap) (t : Z) (l : list ptr) : list ptr :=
  filter (fun p => start_of h p = t) l.

(** Items in the order of their start offsets. *)
Definition starts_le (a b : Item) : Prop := StartAt a <= StartAt b.

(** The items with start offset [t], in their order. *)
Definition items_starting_at (t : Z) (l : list Item) : list Item :=
  filter (fun it => StartAt it = t) l.

(** An item showing the one-line text [t] from [s] to [e] seconds. *)
Definition text_item (s e : Z) (t : string) : Item :=
  {| Comments := []; EndAt := e * Second; Item_InlineStyle := None;
     Lines := [ {| Line_Items := [ {| LineItem_InlineStyle := None;
                                      LineItem_Style := None;
                                      Text := str t |} ];
                   VoiceName := [] |} ];
     Item_Region := None; StartAt := s * Second; Item_Style := None |}.

(** A growth policy to run examples with: twice the old capacity. *)
Definition double_cap (c n : nat) : nat := (2 * c)%nat.

(** ** One pass of [Order] as a recursion on the list *)
Section Bubble.
Context {A : Type} (key : A -> Z).

(** Carry [x] through [r], letting it past every element with a smaller
    key. *)
Fixpoint bubble (x : A) (r : list A) : list A :=
  match r with
  | [] => [x]
  | y :: r' => if key x >? key y then y :: bubble x r' else x :: bubble y r'
  end.

(** Whether carrying [x] through [r] swaps anything. *)
Fixpoint bubbled (x : A) (r : list A) : bool :=
  match r with
  | [] => false
  | y :: r' => if key x >? key y then true else bubbled y r'
  end.

Definition pass (l : list A) : list A :=
  match l with
  | [] => []
  | x :: r => bubble x r
  end.

Definition key_le (a b : A) : Prop := key a <= key b.

(** [tail_done i l]: the last [i] elements of [l] are in their final
    places. *)
Definition tail_done (i : nat) (l : list A) : Prop :=
  exists a s, l = a ++ s /\ List.length s = i
              /\ StronglySorted key_le s
              /\ Forall (fun u => Forall (key_le u) s) a.
End Bubble.

(** ** Unfragment *)

(** Two items merge when their texts are equal and the second starts
    where the first ends. *)
Definition mergeable (x y : Item) : bool :=
  string_eqb (Item_String x) (Item_String y) && (EndAt x =? StartAt y).

(** The item at [pi] takes in, in scan order, every later item that is
    mergeable with it as it then is; the result is the store and the
    later entries that stay. *)
Fixpoint absorb (h : heap) (pi : ptr) (rest : list ptr)
  : result (heap * list ptr) :=
  match rest with
  | [] => Ok (h, [])
  | pj :: rest' =>
      ii <- deref h pi ;;
      ij <- deref h pj ;;
      if mergeable ii ij
      then absorb (<[pi := set_EndAt ii (EndAt ij)]> h) pi rest'
      else r <- absorb h pi rest' ;; Ok (fst r, pj :: snd r)
  end.

(** Every entry in turn takes in the later ones. *)
Fixpoint scan_ptrs (fuel : nat) (h : heap) (l : list ptr)
  : result (heap * list ptr) :=
  match fuel with
  | O => Err OutOfFuel
  | S fuel' =>
      match l with
      | p :: (_ :: _) as rest =>
          r <- absorb h p rest ;;
          r' <- scan_ptrs fuel' (fst r) (snd r) ;;
          Ok (fst r', p :: snd r')
      | _ => Ok (h, l)
      end
  end.

(** The same on item values. *)
Fixpoint absorb_items (x : Item) (rest : list Item) : Item * list Item :=
  match rest with
  | [] => (x, [])
  | y :: rest' =>
      if mergeable x y then absorb_items (set_EndAt x (EndAt y)) rest'
      else let r := absorb_items x rest' in (fst r, y :: snd r)
  end.

Fixpoint scan_items (fuel : nat) (l : list Item) : list Item :=
  match fuel with
  | O => l
  | S fuel' =>
      match l with
      | x :: (_ :: _) as rest =>
          let r := absorb_items x rest in
          fst r :: scan_items fuel' (snd r)
      | _ => l
      end
  end.

(** Every item in turn takes in every later item it is mergeable with. *)
Definition merge_later (l : list Item) : list Item :=
  scan_items (List.length l) l.

(** A run: each item has the text of [x] and starts where the one
    before it ends. *)
Fixpoint run_after (x : Item) (ys : list Item) : Prop :=
  match ys with
  | [] => True
  | y :: ys' =>
      Item_String y = Item_String x /\ StartAt y = EndAt x
      /\ run_after (set_EndAt x (EndAt y)) ys'
  end.



(** ** Fragment *)

(** The item holds the offset [b] strictly inside. *)
Definition contains (b : Z) (it : Item) : bool :=
  (StartAt it <? b) && (EndAt it >? b).

(** The positive multiples of [f] strictly between [s] and [e], in
    increasing order. *)
Definition boundaries_in (f s e : Z) : list Z :=
  filter (fun b => s < b < e)
         (map (fun k => Z.of_nat k * f) (seq 1 (Z.to_nat (e / f)))).

(** An item cut at the given offsets. *)
Fixpoint cut_at (x : Item) (bs : list Z) : list Item :=
  match bs with
  | [] => [x]
  | b :: bs' => set_EndAt x b :: cut_at (set_StartAt x b) bs'
  end.

(** An item cut at every boundary inside it. *)
Definition fragments (f : Z) (x : Item) : list Item :=
  cut_at x (boundaries_in f (StartAt x) (EndAt x)).


(** The passes of [Fragment] over a last item [y], as they cut it:
    [S] is the start of the current fragment. *)
Fixpoint cuts_loop (fuel : nat) (f S : Z) (y : Item) : list Item :=
  match fuel with
  | O => [y]
  | Datatypes.S fuel' =>
      if S <? EndAt y then
        if (StartAt y <? S + f) && (EndAt y >? S + f)
        then set_EndAt y (S + f)
               :: cuts_loop fuel' f (S + f) (set_StartAt y (S + f))
        else cuts_loop fuel' f (S + f) y
      else [y]
  end.


(** [cutting f xs out]: [out] comes from [xs] by cutting items in two at
    multiples [k * f], [k >= 0], that lie strictly inside them; the order
    of the items does not count. *)
Inductive cutting (f : Z) : list Item -> list Item -> Prop :=
| cutting_same xs out : xs ≡ₚ out -> cutting f xs out
| cutting_cut xs x rest k out :
    cutting f xs (x :: rest) ->
    0 <= k -> StartAt x < k * f < EndAt x ->
    set_EndAt x (k * f) :: set_StartAt x (k * f) :: rest ≡ₚ out ->
    cutting f xs out.

(** What a range loop of [Fragment] keeps true: the range has [n] steps;
    the array it reads holds entries of [s.Items]; the entries of
    [s.Items] are distinct and point to a cutting of the items [xs]; the
    last entry is [pl], which ends at [L]. *)
Record range_inv (f : Z) (xs : list Item) (n : nat) (pl : ptr) (L : Z)
    (st : range_state) : Prop := {
  ri_array : (n <= List.length (rs_array st))%nat;
  ri_items : (n <= List.length (elems (rs_items st)))%nat;
  ri_sub : forall p, p ∈ rs_array st -> p ∈ elems (rs_items st);
  ri_nodup : NoDup (elems (rs_items st));
  ri_reads : exists vs, reads (rs_heap st) (elems (rs_items st)) vs
                        /\ cutting f xs vs;
  ri_last : exists init it,
      elems (rs_items st) = init ++ [pl]
      /\ rs_heap st !! pl = Some it /\ EndAt it = L
}.


(** ** Merge *)


(** The first value of a visit that carries the identifier [k]. *)
Definition first_with {V} (id : V -> gostring) (k : gostring) (vs : list V)
  : option V :=
  head (filter (fun v => id v = k) vs).

(** Store [v] under its identifier unless the identifier is taken. *)
Definition merge_with {V} (id : V -> gostring) (m : gmap gostring V) (v : V)
  : gmap gostring V :=
  match m !! id v with
  | Some _ => m
  | None => <[id v := v]> m
  end.

(** A style that sets the TTML colour and nothing else. *)
Definition colour_style (id colour : string) : Style :=
  {| Style_ID := str id;
     Style_InlineStyle :=
       Some {| SSAAlignment := None;
               SSAAlphaLevel := None; SSAAngle := None; SSABackColour := None;
               SSABold := None; SSABorderStyle := None; SSAEffect := [];
               SSAEncoding := None; SSAFontName := []; SSAFontSize := None;
               SSAItalic := None; SSALayer := None; SSAMarginLeft := None;
               SSAMarginRight := None; SSAMarginVertical := None;
               SSAMarked := None; SSAOutline := None; SSAOutlineColour := None;
               SSAPrimaryColour := None; SSAScaleX := None; SSAScaleY := None;
               SSASecondaryColour := None; SSAShadow := None; SSASpacing := None;
               SSAStrikeout := None; SSAUnderline := None; TeletextColor := None;
               TeletextDoubleHeight := None; TeletextDoubleSize := None;
               TeletextDoubleWidth := None; TeletextSpacesAfter := None;
               TeletextSpacesBefore := None; TTMLBackgroundColor := [];
               TTMLColor := str colour; TTMLDirection := []; TTMLDisplay := [];
               TTMLDisplayAlign := []; TTMLExtent := []; TTMLFontFamily := [];
               TTMLFontSize := []; TTMLFontStyle := []; TTMLFontWeight := [];
               TTMLLineHeight := []; TTMLOpacity := []; TTMLOrigin := [];
               TTMLOverflow := []; TTMLPadding := []; TTMLShowBackground := [];
               TTMLTextAlign := []; TTMLTextDecoration := [];
               TTMLTextOutline := []; TTMLUnicodeBidi := [];
               TTMLVisibility := []; TTMLWrapOption := [];
               TTMLWritingMode := []; TTMLZIndex := 0; WebVTTAlign := [];
               WebVTTLine := []; WebVTTLines := 0; WebVTTPosition := [];
               WebVTTRegionAnchor := []; WebVTTScroll := []; WebVTTSize := [];
               WebVTTVertical := []; WebVTTViewportAnchor := [];
               WebVTTWidth := [] |};
     Style_Style := None |}.

(** A document with the styles [m] and nothing else. *)
Definition styled (m : gmap gostring Style) : Subtitles :=
  {| Items := {| elems := []; cap := 0 |}; Subtitles_Metadata := None;
     Regions := ∅; Styles := m |}.

(** ** Add *)

(** An item with both boundaries moved by [d], as [Add] moves them. *)
Definition shifted (d : Z) (it : Item) : Item :=
  set_StartAt (set_EndAt it (wrap64 (EndAt it + d))) (wrap64 (StartAt it + d)).

(** How many entries of [l] are the pointer [p]. *)
Definition occurrences (p : ptr) (l : list ptr) : nat :=
  List.length (filter (fun q => q = p) l).

(** The boundaries of an item are [time.Duration] values. *)
Definition int64_item (it : Item) : Prop :=
  in_int64 (StartAt it) /\ in_int64 (EndAt it).

(** ** ForceDuration *)

(** An item cut off at [d] when it ends later. *)
Definition clipped (d : Z) (it : Item) : Item :=
  if EndAt it >? d then set_EndAt it d else it.

(** The items before the first one that starts at [d] or later, cut off
    at [d]. *)
Fixpoint kept_before (d : Z) (xs : list Item) : list Item :=
  match xs with
  | [] => []
  | x :: rest =>
      if StartAt x >=? d then [] else clipped d x :: kept_before d rest
  end.

(** The end of the last item, 0 when there is none. *)
Definition duration_of (xs : list Item) : Z :=
  match last xs with
  | Some x => EndAt x
  | None => 0
  end.

(** ** Unfragment *)

(** No item can take in an item after it. *)
Fixpoint none_mergeable (xs : list Item) : Prop :=
  match xs with
  | [] => True
  | x :: rest =>
      Forall (fun y => mergeable x y = false) rest /\ none_mergeable rest
  end.

(** The texts of an item, line by line: what [String] renders. *)
Definition texts_of (it : Item) : list (list gostring) :=
  map (fun l => map Text (Line_Items l)) (Lines it).

(** ** Files *)

(** A byte that is neither a dot nor a path separator. *)
Definition in_name (IsPathSeparator : ascii -> bool) (c : ascii) : Prop :=
  c <> "."%char /\ IsPathSeparator c = false.

(** A platform to run examples on: "/" separates the elements of a
    path, every file can be opened and created, a reader answers with the
    name of its format and a writer adds the name of its format to the
    state. *)
Definition unix_separator (c : ascii) : bool := Ascii.eqb c "/".

Inductive format := SRT | SSA | STL | Teletext_ | TTML | WebVTT.

Definition example_Open (w : list format) (o : Options unit)
  : file_error unit + format :=
  Open unix_separator (list format) unit unit unit format
    (fun _ _ => inr tt)
    (fun _ => inr SRT) (fun _ => inr SSA) (fun _ => inr STL)
    (fun _ => inr TTML) (fun _ => inr WebVTT) (fun _ _ => inr Teletext_)
    w o.

Definition example_Write (s : format) (dst : gostring) (w : list format)
  : list format * option (file_error unit) :=
  Write unix_separator (list format) unit unit format
    (fun w _ => (w, inr tt)) (fun _ w => w)
    (fun _ _ w => (w ++ [SRT], None)) (fun _ _ w => (w ++ [SSA], None))
    (fun _ _ w => (w ++ [STL], None)) (fun _ _ w => (w ++ [TTML], None))
    (fun _ _ w => (w ++ [WebVTT], None))
    s dst w.

(** * Lemmas and theorems *)

(** * strconv: formatting and parsing agree *)
Module StrconvFacts.
Import Strconv.

Lemma digit_val_char d :
  0 <= d < 36 -> digit_val (digit_char d) = Some d.
Proof.
  intros Hd.
  assert (Hall : forallb (fun k => match digit_val (digit_char (Z.of_nat k)) with
                                   | Some v => v =? Z.of_nat k
                                   | None => false
                                   end) (seq 0 36) = true) by (vm_compute; reflexivity).
  rewrite forallb_forall in Hall.
  specialize (Hall (Z.to_nat d)).
  rewrite Z2Nat.id in Hall by lia.
  destruct (digit_val (digit_char d)) as [v|].
  - f_equal. apply Z.eqb_eq. apply Hall. apply in_seq. lia.
  - discriminate Hall. apply in_seq. lia.
Qed.

Lemma digit_char_dec d : 0 <= d < 10 -> dec_digit (digit_char d).
Proof.
  intros Hd. unfold dec_digit, digit_char.
  destruct (Z.ltb_spec d 10); [|lia].
  rewrite N_ascii_embedding; lia.
Qed.

Lemma digit_char_not_sign d :
  0 <= d < 36 ->
  Ascii.eqb (digit_char d) "+" = false /\ Ascii.eqb (digit_char d) "-" = false.
Proof.
  intros Hd.
  assert (Hall : forallb (fun k => negb (Ascii.eqb (digit_char (Z.of_nat k)) "+")
                                   && negb (Ascii.eqb (digit_char (Z.of_nat k)) "-"))
                         (seq 0 36) = true) by (vm_compute; reflexivity).
  rewrite forallb_forall in Hall.
  specialize (Hall (Z.to_nat d)).
  rewrite Z2Nat.id in Hall by lia.
  assert (Hin : In (Z.to_nat d) (seq 0 36)) by (apply in_seq; lia).
  apply Hall in Hin. apply andb_true_iff in Hin as [H1 H2].
  split; [destruct (Ascii.eqb (digit_char d) "+") | destruct (Ascii.eqb (digit_char d) "-")];
    simpl in *; congruence.
Qed.

(** Reading the digits that [format_loop] wrote gives the number back. *)
Lemma parse_format_loop base :
  2 <= base <= 36 ->
  forall f u acc,
    0 <= u < 2 ^ (Z.of_nat f + 1) -> u < 2 ^ 64 ->
    parse_loop base (format_loop f base u acc) 0 = parse_loop base acc u.
Proof.
  intros Hb. induction f as [|f IH]; intros u acc Hu Hmax.
  - simpl in Hu. simpl.
    rewrite Z.mod_small by lia.
    rewrite digit_val_char by lia.
    destruct (Z.leb_spec base u); [lia|].
    destruct (Z.leb_spec ((2 ^ 64 - 1) / base + 1) 0).
    { assert (0 <= (2 ^ 64 - 1) / base) by (apply Z.div_pos; lia). lia. }
    destruct (Z.ltb_spec (2 ^ 64 - 1) (0 * base + u)); [lia|].
    f_equal.
  - cbn [format_loop].
    destruct (Z.leb_spec base u) as [Hge|Hlt].
    + rewrite IH.
      * cbn [parse_loop].
        assert (Hm : 0 <= u mod base < base) by (apply Z.mod_pos_bound; lia).
        rewrite digit_val_char by lia.
        destruct (Z.leb_spec base (u mod base)); [lia|].
        assert (Hdiv : u / base <= (2 ^ 64 - 1) / base)
          by (apply Z.div_le_mono; lia).
        destruct (Z.leb_spec ((2 ^ 64 - 1) / base + 1) (u / base)); [lia|].
        assert (Heq : u / base * base + u mod base = u).
        { pose proof (Z.div_mod u base). lia. }
        rewrite Heq.
        destruct (Z.ltb_spec (2 ^ 64 - 1) u); [lia|]. reflexivity.
      * split; [apply Z.div_pos; lia|].
        apply Z.div_lt_upper_bound; [lia|].
        replace (Z.of_nat (S f) + 1) with (Z.succ (Z.of_nat f + 1)) in Hu by lia.
        rewrite Z.pow_succ_r in Hu by lia. nia.
      * assert (u / base <= u) by (apply Z.div_le_upper_bound; nia). lia.
    + cbn [parse_loop].
      rewrite digit_val_char by lia.
      destruct (Z.leb_spec base u); [lia|].
      destruct (Z.leb_spec ((2 ^ 64 - 1) / base + 1) 0).
      { assert (0 <= (2 ^ 64 - 1) / base) by (apply Z.div_pos; lia). lia. }
      destruct (Z.ltb_spec (2 ^ 64 - 1) (0 * base + u)); [lia|].
      f_equal.
Qed.

Lemma log2_fuel u : 0 <= u -> 0 <= u < 2 ^ (Z.of_nat (Z.to_nat (Z.log2 u)) + 1).
Proof.
  intros Hu. split; [lia|].
  rewrite Z2Nat.id by apply Z.log2_nonneg.
  destruct (Z.eq_dec u 0) as [->|Hne]; [reflexivity|].
  replace (Z.log2 u + 1) with (Z.succ (Z.log2 u)) by lia.
  apply Z.log2_spec. lia.
Qed.

Lemma parse_FormatUint base u :
  2 <= base <= 36 -> 0 <= u < 2 ^ 64 ->
  parse_loop base (FormatUint u base) 0 = inr u.
Proof.
  intros Hb Hu. unfold FormatUint.
  rewrite parse_format_loop; [reflexivity|lia|apply log2_fuel; lia|lia].
Qed.

(** The shape of a rendering: a first digit, never empty. *)
Lemma format_loop_head base :
  2 <= base <= 36 ->
  forall f u acc, 0 <= u < 2 ^ (Z.of_nat f + 1) ->
    exists d s, 0 <= d < base /\ format_loop f base u acc = digit_char d :: s.
Proof.
  intros Hb. induction f as [|f IH]; intros u acc Hu.
  - simpl in *. exists (u mod base), acc. split; [apply Z.mod_pos_bound; lia|reflexivity].
  - cbn [format_loop]. destruct (Z.leb_spec base u).
    + apply IH. split; [apply Z.div_pos; lia|].
      apply Z.div_lt_upper_bound; [lia|].
      replace (Z.of_nat (S f) + 1) with (Z.succ (Z.of_nat f + 1)) in Hu by lia.
      rewrite Z.pow_succ_r in Hu by lia. nia.
    + exists u, acc. split; [lia|reflexivity].
Qed.

Lemma FormatUint_head base u :
  2 <= base <= 36 -> 0 <= u ->
  exists d s, 0 <= d < base /\ FormatUint u base = digit_char d :: s.
Proof.
  intros Hb Hu. apply format_loop_head; [lia|apply log2_fuel; lia].
Qed.

Lemma format_loop_dec f : forall u acc,
    0 <= u -> Forall dec_digit acc -> Forall dec_digit (format_loop f 10 u acc).
Proof.
  induction f as [|f IH]; intros u acc Hu Hacc; cbn [format_loop].
  - constructor; [|done]. apply digit_char_dec, Z.mod_pos_bound; lia.
  - destruct (Z.leb_spec 10 u).
    + apply IH; [apply Z.div_pos; lia|].
      constructor; [|done]. apply digit_char_dec, Z.mod_pos_bound; lia.
    + constructor; [|done]. apply digit_char_dec; lia.
Qed.

Lemma Itoa_dec u : 0 <= u -> Forall dec_digit (Itoa u).
Proof.
  intros Hu. unfold Itoa, FormatInt.
  destruct (Z.ltb_spec u 0); [lia|]. apply format_loop_dec; [lia|constructor].
Qed.

Lemma Itoa_nonneg u : 0 <= u -> Itoa u = FormatUint u 10.
Proof. intros Hu. unfold Itoa, FormatInt. destruct (Z.ltb_spec u 0); [lia|done]. Qed.

(** [ParseInt] reads back what [FormatUint] wrote, below 2^63. *)
Lemma ParseInt_FormatUint p0 base u :
  2 <= base <= 36 -> 0 <= u < 2 ^ 63 ->
  ParseInt p0 (FormatUint u base) base = inr u.
Proof.
  intros Hb Hu.
  destruct (FormatUint_head base u) as (d & s & Hd & Hs); [lia..|].
  pose proof (parse_FormatUint base u Hb ltac:(lia)) as Hp.
  destruct (digit_char_not_sign d ltac:(lia)) as [Hplus Hminus].
  unfold ParseInt, ParseUint. rewrite Hs in *.
  rewrite Hplus, Hminus. cbn [orb negb andb].
  destruct (Z.leb_spec 2 base); [|lia].
  destruct (Z.leb_spec base 36); [|lia]. cbn [andb].
  rewrite Hp.
  destruct (Z.leb_spec (2 ^ 63) u); [lia|]. reflexivity.
Qed.

Lemma Atoi_Itoa u : 0 <= u < 2 ^ 63 -> Atoi (Itoa u) = inr u.
Proof.
  intros Hu. rewrite Itoa_nonneg by lia. apply ParseInt_FormatUint; lia.
Qed.

(** A leading zero does not change the value read. *)
Lemma Atoi_zero_Itoa u :
  0 <= u < 2 ^ 63 -> Atoi ("0"%char :: Itoa u) = inr u.
Proof.
  intros Hu. rewrite Itoa_nonneg by lia.
  pose proof (parse_FormatUint 10 u ltac:(lia) ltac:(lia)) as Hp.
  unfold Atoi, ParseInt, ParseUint.
  change (Ascii.eqb "0" "-") with false. change (Ascii.eqb "0" "+") with false.
  cbn [orb negb andb].
  change ((2 <=? 10) && (10 <=? 36)) with true. cbv iota.
  cbn [parse_loop].
  change (digit_val "0") with (Some 0). cbv iota.
  change (10 <=? 0) with false. cbv iota.
  change ((2 ^ 64 - 1) / 10 + 1 <=? 0) with false. cbv iota.
  change (2 ^ 64 - 1 <? 0 * 10 + 0) with false. cbv iota.
  change (0 * 10 + 0) with 0. rewrite Hp.
  destruct (Z.leb_spec (2 ^ 63) u); [lia|]. reflexivity.
Qed.
End StrconvFacts.
Import StrconvFacts.

Module ColorFacts.
Import Strconv.

Lemma land_shiftl_small b a k :
  0 <= k -> 0 <= a < 2 ^ k -> Z.land (Z.shiftl b k) a = 0.
Proof.
  intros Hk Ha. apply Z.bits_inj'. intros n Hn.
  rewrite Z.land_spec, Z.bits_0.
  destruct (Z.lt_ge_cases n k) as [Hlt|Hge].
  - rewrite Z.shiftl_spec_low by lia. reflexivity.
  - assert (Hbit : Z.testbit a n = false).
    { destruct (Z.eq_dec a 0) as [->|Hne]; [apply Z.bits_0|].
      apply Z.bits_above_log2; [lia|].
      apply Z.lt_le_trans with k; [|lia].
      apply Z.log2_lt_pow2; lia. }
    rewrite Hbit. apply andb_false_r.
Qed.

Lemma lor_shiftl_add b a k :
  0 <= k -> 0 <= a < 2 ^ k -> Z.lor (Z.shiftl b k) a = b * 2 ^ k + a.
Proof.
  intros Hk Ha.
  pose proof (land_shiftl_small b a k Hk Ha) as Hland.
  rewrite <- Z.lxor_lor by exact Hland.
  rewrite <- Z.add_nocarry_lxor by exact Hland.
  rewrite Z.shiftl_mul_pow2 by lia. reflexivity.
Qed.

(** The packed word is the base-256 number alpha, blue, green, red. *)
Lemma Color_word_sum c :
  wf_Color c ->
  Color_word c = Alpha c * 2 ^ 24 + Blue c * 2 ^ 16 + Green c * 2 ^ 8 + Red c.
Proof.
  intros (HA & HB & HG & HR). unfold Color_word, uint32.
  rewrite (Z.mod_small (Alpha c)), (Z.mod_small (Blue c)),
    (Z.mod_small (Green c)), (Z.mod_small (Red c)) by lia.
  rewrite (Z.mod_small (Z.shiftl (Alpha c) 24)),
    (Z.mod_small (Z.shiftl (Blue c) 16)),
    (Z.mod_small (Z.shiftl (Green c) 8))
    by (rewrite Z.shiftl_mul_pow2 by lia; lia).
  replace (Z.shiftl (Alpha c) 24) with (Z.shiftl (Z.shiftl (Alpha c) 8) 16)
    by (rewrite Z.shiftl_shiftl by lia; reflexivity).
  rewrite <- Z.shiftl_lor.
  rewrite (lor_shiftl_add (Alpha c) (Blue c) 8) by lia.
  replace (Z.shiftl (Alpha c * 2 ^ 8 + Blue c) 16)
    with (Z.shiftl (Z.shiftl (Alpha c * 2 ^ 8 + Blue c) 8) 8)
    by (rewrite Z.shiftl_shiftl by lia; reflexivity).
  rewrite <- Z.shiftl_lor.
  rewrite (lor_shiftl_add _ (Green c) 8) by lia.
  rewrite (lor_shiftl_add _ (Red c) 8) by lia.
  lia.
Qed.

Lemma Color_word_range c : wf_Color c -> 0 <= Color_word c < 2 ^ 32.
Proof.
  intros Hc. rewrite Color_word_sum by exact Hc.
  destruct Hc as (HA & HB & HG & HR). lia.
Qed.

(** Unpacking the word gives the channels back. *)
Lemma unpack_word c :
  wf_Color c ->
  {| Alpha := Z.land (uint8 (Z.shiftr (Color_word c) 24)) 255;
     Blue := Z.land (uint8 (Z.shiftr (Color_word c) 16)) 255;
     Green := Z.land (uint8 (Z.shiftr (Color_word c) 8)) 255;
     Red := Z.land (uint8 (Color_word c)) 255 |} = c.
Proof.
  intros Hc. rewrite Color_word_sum by exact Hc.
  destruct c as [A B G R]. destruct Hc as (HA & HB & HG & HR). cbn in *.
  unfold uint8. change 255 with (Z.ones 8).
  rewrite !Z.land_ones, !Z.shiftr_div_pow2 by lia.
  rewrite !Z.mod_mod by lia.
  f_equal.
  - rewrite Z.mod_small; [|split].
    + symmetry. apply Z.div_unique with (B * 2 ^ 16 + G * 2 ^ 8 + R); lia.
    + apply Z.div_pos; lia.
    + apply Z.div_lt_upper_bound; lia.
  - replace (A * 2 ^ 24 + B * 2 ^ 16 + G * 2 ^ 8 + R)
      with ((A * 2 ^ 8 + B) * 2 ^ 16 + (G * 2 ^ 8 + R)) by lia.
    rewrite Z.div_add_l by lia. rewrite (Z.div_small (G * 2 ^ 8 + R)) by lia.
    rewrite Z.add_0_r, Z.add_comm, Z.mod_add by lia. apply Z.mod_small; lia.
  - replace (A * 2 ^ 24 + B * 2 ^ 16 + G * 2 ^ 8 + R)
      with ((A * 2 ^ 16 + B * 2 ^ 8 + G) * 2 ^ 8 + R) by lia.
    rewrite Z.div_add_l by lia. rewrite (Z.div_small R) by lia.
    rewrite Z.add_0_r.
    replace (A * 2 ^ 16 + B * 2 ^ 8 + G) with (G + (A * 2 ^ 8 + B) * 2 ^ 8) by lia.
    rewrite Z.mod_add by lia. apply Z.mod_small; lia.
  - replace (A * 2 ^ 24 + B * 2 ^ 16 + G * 2 ^ 8 + R)
      with (R + (A * 2 ^ 16 + B * 2 ^ 8 + G) * 2 ^ 8) by lia.
    rewrite Z.mod_add by lia. apply Z.mod_small; lia.
Qed.

(** Leading zeros are read as nothing. *)
Lemma parse_loop_zeros base k s :
  2 <= base <= 36 ->
  parse_loop base (replicate k "0"%char ++ s) 0 = parse_loop base s 0.
Proof.
  intros Hb. induction k as [|k IH]; [reflexivity|].
  cbn [replicate app parse_loop].
  change (digit_val "0") with (Some 0). cbv iota.
  destruct (Z.leb_spec base 0); [lia|].
  destruct (Z.leb_spec ((2 ^ 64 - 1) / base + 1) 0).
  { assert (0 <= (2 ^ 64 - 1) / base) by (apply Z.div_pos; lia). lia. }
  change (0 * base + 0) with 0.
  change (2 ^ 64 - 1 <? 0) with false. cbv iota. exact IH.
Qed.

Lemma ParseInt_fmt_x p0 n u :
  0 <= u < 2 ^ 63 -> ParseInt p0 (Fmt.fmt_x n u) 16 = inr u.
Proof.
  intros Hu. unfold Fmt.fmt_x, Fmt.pad_left.
  destruct (n - List.length (FormatUint u 16))%nat as [|k] eqn:Hk.
  - apply ParseInt_FormatUint; lia.
  - pose proof (parse_loop_zeros 16 (S k) (FormatUint u 16) ltac:(lia)) as Hz.
    rewrite parse_FormatUint in Hz by lia.
    cbn [replicate app] in *.
    unfold ParseInt, ParseUint.
    change (Ascii.eqb "0" "-") with false. change (Ascii.eqb "0" "+") with false.
    cbn [orb negb andb].
    change ((2 <=? 16) && (16 <=? 36)) with true. cbv iota.
    rewrite Hz. destruct (Z.leb_spec (2 ^ 63) u); [lia|]. reflexivity.
Qed.
(** C2: for every colour with four 8-bit channels, the packed word is
    alpha, blue, green, red from the high byte down, and
    [newColorFromString] reads back the channels from the text that
    [String] writes, in base 16 and in base 10. *)
Theorem Color_roundtrip parse_base0 c :
  wf_Color c ->
  Color_word c = Alpha c * 2 ^ 24 + Blue c * 2 ^ 16 + Green c * 2 ^ 8 + Red c
  /\ newColorFromString parse_base0 (Color_String c 16) 16 = Ok c
  /\ newColorFromString parse_base0 (Color_String c 10) 10 = Ok c.
Proof.
  intros Hc. pose proof (Color_word_range c Hc) as Hw.
  split; [apply Color_word_sum, Hc|].
  unfold newColorFromString, Color_String. split.
  - change (16 =? 16) with true. cbv iota.
    rewrite ParseInt_fmt_x by lia. f_equal. apply unpack_word, Hc.
  - change (10 =? 16) with false. cbv iota.
    rewrite Itoa_nonneg by lia.
    rewrite ParseInt_FormatUint by lia. f_equal. apply unpack_word, Hc.
Qed.

Lemma Color_roundtrip_witness :
  wf_Color {| Alpha := 128; Blue := 255; Green := 0; Red := 7 |}
  /\ newColorFromString (fun _ => inl ErrSyntax) (str "80ff0007") 16
     = Ok {| Alpha := 128; Blue := 255; Green := 0; Red := 7 |}.
Proof.
  assert (H : wf_Color {| Alpha := 128; Blue := 255; Green := 0; Red := 7 |})
    by (unfold wf_Color; cbn; lia).
  split; [exact H|].
  exact (proj1 (proj2 (Color_roundtrip (fun _ => inl ErrSyntax) _ H))).
Defined.
End ColorFacts.
Import ColorFacts.

Module StringsFacts.
Import Strings.

Lemma HasPrefix_app s t : HasPrefix (s ++ t) s = true.
Proof.
  induction s as [|c s IH]; [reflexivity|].
  cbn. rewrite Ascii.eqb_refl. exact IH.
Qed.

Lemma HasPrefix_head_ne c c0 s sep :
  c <> c0 -> HasPrefix (c :: s) (c0 :: sep) = false.
Proof.
  intros Hne. cbn. destruct (Ascii.eqb_spec c c0); [contradiction|reflexivity].
Qed.

Lemma split_from_skip sep pre : forall s cur,
    split_from sep (pre ++ s) (List.length pre) cur = split_from sep s 0 cur.
Proof.
  induction pre as [|c pre IH]; intros s cur; [destruct s; reflexivity|].
  cbn. apply IH.
Qed.

(** Bytes other than the first byte of the separator are taken into the
    current part. *)
Lemma split_from_no_sep c0 sep a : forall rest cur,
    Forall (fun c => c <> c0) a ->
    split_from (c0 :: sep) (a ++ rest) 0 cur
    = split_from (c0 :: sep) rest 0 (rev a ++ cur).
Proof.
  induction a as [|c a IH]; intros rest cur Ha; [reflexivity|].
  inversion Ha as [|? ? Hc Ha']; subst.
  cbn [app split_from]. rewrite HasPrefix_head_ne by exact Hc.
  rewrite IH by exact Ha'. cbn [rev]. rewrite <- app_assoc. reflexivity.
Qed.

Lemma split_from_at_sep c0 sep s cur :
  split_from (c0 :: sep) ((c0 :: sep) ++ s) 0 cur
  = rev cur :: split_from (c0 :: sep) s 0 [].
Proof.
  cbn [app split_from].
  pose proof (HasPrefix_app (c0 :: sep) s) as Hp. cbn [app] in Hp. rewrite Hp.
  f_equal. cbn [List.length]. rewrite Nat.sub_succ, Nat.sub_0_r.
  apply split_from_skip.
Qed.

Lemma split_from_end c0 sep a :
  Forall (fun c => c <> c0) a -> split_from (c0 :: sep) a 0 [] = [a].
Proof.
  intros Ha. pose proof (split_from_no_sep c0 sep a [] [] Ha) as H.
  rewrite !app_nil_r in H. rewrite H. cbn. rewrite rev_involutive. reflexivity.
Qed.

Lemma split_from_cons c0 sep a rest :
  Forall (fun c => c <> c0) a ->
  split_from (c0 :: sep) (a ++ (c0 :: sep) ++ rest) 0 []
  = a :: split_from (c0 :: sep) rest 0 [].
Proof.
  intros Ha. rewrite split_from_no_sep by exact Ha.
  rewrite split_from_at_sep, app_nil_r, rev_involutive. reflexivity.
Qed.

Lemma is_space2_l c1 c2 : (N_of_ascii c1 < 128)%N -> is_space2 c1 c2 = false.
Proof.
  intros H. unfold is_space2.
  destruct (N.eqb_spec (N_of_ascii c1) 194); [lia|reflexivity].
Qed.

Lemma is_space2_r c1 c2 : (N_of_ascii c2 < 128)%N -> is_space2 c1 c2 = false.
Proof.
  intros H. unfold is_space2.
  destruct (N.eqb_spec (N_of_ascii c2) 133); [lia|].
  destruct (N.eqb_spec (N_of_ascii c2) 160); [lia|]. apply andb_false_r.
Qed.

Lemma is_space3_l c1 c2 c3 : (N_of_ascii c1 < 128)%N -> is_space3 c1 c2 c3 = false.
Proof.
  intros H. unfold is_space3.
  destruct (N.eqb_spec (N_of_ascii c1) 225); [lia|].
  destruct (N.eqb_spec (N_of_ascii c1) 226); [lia|].
  destruct (N.eqb_spec (N_of_ascii c1) 227); [lia|]. reflexivity.
Qed.

Lemma is_space3_r c1 c2 c3 : (N_of_ascii c3 < 128)%N -> is_space3 c1 c2 c3 = false.
Proof.
  intros H. unfold is_space3.
  destruct (N.eqb_spec (N_of_ascii c3) 128); [lia|].
  destruct (N.eqb_spec (N_of_ascii c3) 168); [lia|].
  destruct (N.eqb_spec (N_of_ascii c3) 169); [lia|].
  destruct (N.eqb_spec (N_of_ascii c3) 175); [lia|].
  destruct (N.eqb_spec (N_of_ascii c3) 159); [lia|].
  destruct (N.leb_spec 128 (N_of_ascii c3)); [lia|].
  rewrite !andb_false_r. reflexivity.
Qed.

Lemma TrimLeftSpace_plain c s : plain c -> TrimLeftSpace (c :: s) = c :: s.
Proof.
  intros [Hlt Hsp]. cbn [TrimLeftSpace]. rewrite Hsp.
  destruct s as [|c2 [|c3 s3]]; try reflexivity.
  - rewrite is_space2_l by exact Hlt. reflexivity.
  - rewrite is_space2_l, is_space3_l by exact Hlt. reflexivity.
Qed.

Lemma trim_right_rev_plain c r : plain c -> trim_right_rev (c :: r) = c :: r.
Proof.
  intros [Hlt Hsp]. cbn [trim_right_rev]. rewrite Hsp.
  destruct r as [|c2 [|c3 r3]]; try reflexivity.
  - rewrite is_space2_r by exact Hlt. reflexivity.
  - rewrite is_space2_r, is_space3_r by exact Hlt. reflexivity.
Qed.

(** Text without white space at either end is left alone. *)
Lemma TrimSpace_plain s : Forall plain s -> TrimSpace s = s.
Proof.
  intros Hs. unfold TrimSpace, TrimRightSpace.
  destruct s as [|c s]; [reflexivity|].
  inversion Hs as [|? ? Hc Hs']; subst.
  rewrite TrimLeftSpace_plain by exact Hc.
  destruct (rev (c :: s)) as [|c' r] eqn:Hrev.
  - apply (f_equal (@List.length ascii)) in Hrev.
    rewrite length_rev in Hrev. discriminate Hrev.
  - assert (Hc' : plain c').
    { assert (Hin : In c' (rev (c :: s))) by (rewrite Hrev; left; reflexivity).
      apply in_rev in Hin. rewrite Forall_forall in Hs.
      apply Hs. apply list_elem_of_In. exact Hin. }
    rewrite trim_right_rev_plain by exact Hc'.
    rewrite <- Hrev. apply rev_involutive.
Qed.

Lemma dec_digit_plain c : dec_digit c -> plain c.
Proof.
  unfold dec_digit, plain, is_space1. intros H. split; [lia|].
  destruct (N.leb_spec (N_of_ascii c) 13); [lia|].
  destruct (N.eqb_spec (N_of_ascii c) 32); [lia|].
  rewrite andb_false_r. reflexivity.
Qed.

Lemma colon_plain : plain ":".
Proof. split; [vm_compute; reflexivity|reflexivity]. Qed.
End StringsFacts.
Import StringsFacts.

Module DurationFacts.

Lemma wrap64_id x : MinInt64 <= x <= MaxInt64 -> wrap64 x = x.
Proof.
  unfold MinInt64, MaxInt64, wrap64. intros H.
  rewrite Z.mod_small by lia. lia.
Qed.

Lemma frac_all fmt_v : forallb (frac_ok fmt_v) (seq 0 1000) = true.
Proof. vm_compute. reflexivity. Qed.

Lemma is_digit_dec c : Fmt.is_digit c = true <-> dec_digit c.
Proof.
  unfold Fmt.is_digit, dec_digit.
  rewrite andb_true_iff, N.leb_le, N.leb_le. reflexivity.
Qed.

Lemma frac_spec fmt_v k :
  0 <= k < 1000 ->
  let f := Fmt.Sprintf fmt_v (str "%." ++ Strconv.Itoa 3 ++ str "f")
             (Float64.div (Float64.of_int k) (Float64.of_int 1000)) in
  (2 <= List.length f)%nat
  /\ List.length (drop 2 f) = 3%nat
  /\ Forall dec_digit (drop 2 f)
  /\ Strconv.Atoi (drop 2 f) = inr k.
Proof.
  intros Hk f.
  pose proof (frac_all fmt_v) as Hall. rewrite forallb_forall in Hall.
  specialize (Hall (Z.to_nat k)).
  unfold frac_ok in Hall. rewrite Z2Nat.id in Hall by lia. fold f in Hall.
  assert (Hin : In (Z.to_nat k) (seq 0 1000)) by (apply in_seq; lia).
  apply Hall in Hin. clear Hall.
  apply andb_true_iff in Hin as [Hin H4].
  apply andb_true_iff in Hin as [Hin H3].
  apply andb_true_iff in Hin as [H1 H2].
  split; [apply Nat.leb_le, H1|].
  split; [apply Nat.eqb_eq, H2|].
  split.
  - rewrite Forall_forall. rewrite forallb_forall in H3.
    intros c Hc. apply is_digit_dec, H3, list_elem_of_In, Hc.
  - destruct (Strconv.Atoi (drop 2 f)) as [e|v]; [discriminate|].
    f_equal. apply Z.eqb_eq, H4.
Qed.

Lemma pad2_dec v : 0 <= v -> Forall dec_digit (pad2 v).
Proof.
  intros Hv. unfold pad2. apply Forall_app. split; [|apply Itoa_dec, Hv].
  destruct (v <? 10); repeat constructor; vm_compute; discriminate.
Qed.

Lemma pad2_atoi v : 0 <= v < 2 ^ 63 -> atoi (pad2 v) = Ok v.
Proof.
  intros Hv. unfold atoi, pad2.
  destruct (v <? 10); cbn [str list_ascii_of_string app].
  - rewrite Atoi_zero_Itoa by lia. reflexivity.
  - rewrite Atoi_Itoa by lia. reflexivity.
Qed.

Lemma pad2_length v : 0 <= v -> (0 < List.length (pad2 v))%nat.
Proof.
  intros Hv. unfold pad2. rewrite length_app.
  rewrite Itoa_nonneg by lia.
  destruct (FormatUint_head 10 v) as (d & s & _ & ->); [lia..|].
  cbn [List.length]. lia.
Qed.

Lemma dec_digit_not_colon c : dec_digit c -> c <> ":"%char.
Proof. intros H ->. vm_compute in H. destruct H as [_ H]. apply H. reflexivity. Qed.

Lemma Forall_dec_not_colon s :
  Forall dec_digit s -> Forall (fun c => c <> ":"%char) s.
Proof. intros H. eapply Forall_impl; [exact H|apply dec_digit_not_colon]. Qed.

(** Reading a text of the shape written by [formatDuration] with three
    fractional digits. *)
Lemma parse_formatted explode int_overflow h m s k F c0 sep :
  0 <= h -> 0 <= m -> 0 <= s -> 0 <= k ->
  k * Millisecond + s * Second + m * Minute + h * Hour <= MaxInt64 ->
  Forall dec_digit F -> List.length F = 3%nat -> Strconv.Atoi F = inr k ->
  Fmt.is_digit c0 = false -> c0 <> ":"%char ->
  parseDuration explode int_overflow
    (pad2 h ++ str ":" ++ pad2 m ++ str ":" ++ pad2 s ++ (c0 :: sep) ++ F)
    (c0 :: sep) 3
  = Ok (k * Millisecond + s * Second + m * Minute + h * Hour).
Proof.
  intros Hh Hm Hs Hk Hsum HF HlenF HatoiF Hc0 Hcolon.
  assert (Hnd : forall t, Forall dec_digit t -> Forall (fun c => c <> c0) t).
  { intros t Ht. eapply Forall_impl; [exact Ht|]. intros c Hc ->.
    apply is_digit_dec in Hc. congruence. }
  set (hms := pad2 h ++ str ":" ++ pad2 m ++ str ":" ++ pad2 s).
  assert (Hhms : Forall (fun c => c <> c0) hms).
  { assert (Hc : Forall (fun c => c <> c0) (str ":"))
      by (constructor; [congruence|constructor]).
    unfold hms. apply Forall_app_2; [apply Hnd, pad2_dec, Hh|].
    apply Forall_app_2; [exact Hc|].
    apply Forall_app_2; [apply Hnd, pad2_dec, Hm|].
    apply Forall_app_2; [exact Hc|apply Hnd, pad2_dec, Hs]. }
  assert (Hplain : Forall plain hms).
  { assert (Hc : Forall plain (str ":"))
      by (constructor; [apply colon_plain|constructor]).
    assert (Hp : forall v, 0 <= v -> Forall plain (pad2 v)).
    { intros v Hv. eapply Forall_impl; [apply pad2_dec, Hv|apply dec_digit_plain]. }
    unfold hms. apply Forall_app_2; [apply Hp, Hh|].
    apply Forall_app_2; [exact Hc|].
    apply Forall_app_2; [apply Hp, Hm|].
    apply Forall_app_2; [exact Hc|apply Hp, Hs]. }
  unfold parseDuration, Strings.Split.
  replace (pad2 h ++ str ":" ++ pad2 m ++ str ":" ++ pad2 s ++ (c0 :: sep) ++ F)
    with (hms ++ (c0 :: sep) ++ F)
    by (unfold hms; rewrite <- !app_assoc; reflexivity).
  rewrite split_from_cons by exact Hhms.
  rewrite split_from_end by (apply Hnd, HF).
  cbn [List.length Nat.leb List.last removelast Strings.Join].
  rewrite TrimSpace_plain
    by (eapply Forall_impl; [exact HF|apply dec_digit_plain]).
  rewrite HlenF. cbn [Nat.ltb Nat.leb].
  unfold atoi at 1. rewrite HatoiF. cbn [bind fst snd].
  rewrite TrimSpace_plain by exact Hplain.
  unfold hms. change (str ":") with [":"%char].
  rewrite split_from_cons by (apply Forall_dec_not_colon, pad2_dec, Hh).
  rewrite split_from_cons by (apply Forall_dec_not_colon, pad2_dec, Hm).
  rewrite split_from_end by (apply Forall_dec_not_colon, pad2_dec, Hs).
  cbn [bind].
  rewrite !TrimSpace_plain
    by (eapply Forall_impl; [apply pad2_dec; assumption|apply dec_digit_plain]).
  cbv delta [Millisecond Microsecond Nanosecond Second Minute Hour MaxInt64] in *.
  rewrite !pad2_atoi by lia. cbn [bind].
  pose proof (pad2_length h Hh) as Hlen.
  destruct (List.length (pad2 h)) as [|n]; [lia|]. cbn [bind].
  change (wrap64 (3 - Z.of_nat 3)) with 0.
  change (int_Pow10 int_overflow 0) with 1.
  f_equal.
  repeat match goal with
         | |- context [wrap64 ?x] =>
             lazymatch x with
             | context [wrap64 _] => fail
             | _ => rewrite (wrap64_id x) by (unfold MinInt64, MaxInt64; lia)
             end
         end.
  lia.
Qed.

End DurationFacts.
Import DurationFacts.

Module RoundTrip.
Lemma split_units d :
  0 <= d -> d mod Millisecond = 0 ->
  let h := d / Hour in
  let m := (d mod Hour) / Minute in
  let s := (d mod Minute) / Second in
  let k := (d mod Second) / Millisecond in
  0 <= h /\ 0 <= m /\ 0 <= s /\ 0 <= k < 1000
  /\ k * Millisecond + s * Second + m * Minute + h * Hour = d.
Proof.
  cbv delta [Millisecond Microsecond Nanosecond Second Minute Hour].
  cbv beta. change (1000 * (1000 * 1)) with 1000000.
  change (1000 * 1000000) with 1000000000.
  change (60 * 1000000000) with 60000000000.
  change (60 * 60000000000) with 3600000000000.
  intros Hd Hms. cbv zeta.
  pose proof (Z.div_mod d 3600000000000 ltac:(lia)) as E1.
  pose proof (Z.mod_pos_bound d 3600000000000 ltac:(lia)) as B1.
  pose proof (Z.div_mod (d mod 3600000000000) 60000000000 ltac:(lia)) as E2.
  pose proof (Z.mod_pos_bound (d mod 3600000000000) 60000000000 ltac:(lia)) as B2.
  pose proof (Z.div_mod d 60000000000 ltac:(lia)) as E3.
  pose proof (Z.mod_pos_bound d 60000000000 ltac:(lia)) as B3.
  pose proof (Z.div_mod (d mod 60000000000) 1000000000 ltac:(lia)) as E4.
  pose proof (Z.mod_pos_bound (d mod 60000000000) 1000000000 ltac:(lia)) as B4.
  pose proof (Z.div_mod d 1000000000 ltac:(lia)) as E5.
  pose proof (Z.mod_pos_bound d 1000000000 ltac:(lia)) as B5.
  pose proof (Z.div_mod (d mod 1000000000) 1000000 ltac:(lia)) as E6.
  pose proof (Z.mod_pos_bound (d mod 1000000000) 1000000 ltac:(lia)) as B6.
  pose proof (Z.div_mod d 1000000 ltac:(lia)) as E7.
  assert (0 <= d / 3600000000000) by (apply Z.div_pos; lia).
  assert (0 <= d mod 3600000000000 / 60000000000) by (apply Z.div_pos; lia).
  assert (0 <= d mod 60000000000 / 1000000000) by (apply Z.div_pos; lia).
  assert (0 <= d mod 1000000000 / 1000000) by (apply Z.div_pos; lia).
  lia.
Qed.

Lemma pad2_unfold v :
  (if v <? 10 then str "0" else []) ++ Strconv.Itoa v = pad2 v.
Proof. reflexivity. Qed.

(** C1, as amended: for every non-negative duration [d] that is a whole
    number of milliseconds and every separator that is not empty and
    holds neither a decimal digit nor a colon, [parseDuration] reads the
    text that [formatDuration] writes with three millisecond digits, and
    gives [d] back. *)
Theorem format_parse_three d sep :
  0 <= d <= MaxInt64 -> d mod Millisecond = 0 -> sep_ok sep ->
  duration_roundtrip d sep 3.
Proof.
  intros [Hd Hmax] Hms [Hne Hsep] explode int_overflow fmt_v.
  destruct sep as [|c0 sep]; [contradiction|].
  inversion Hsep as [|? ? [Hc0 Hcolon] _]; subst.
  destruct (split_units d Hd Hms) as (Hh & Hm & Hs & Hk & Hsum).
  destruct (frac_spec fmt_v _ Hk) as (Hlen & Hlen3 & Hdig & Hatoi).
  unfold formatDuration.
  assert (H1 : 0 <= d mod Hour) by (apply Z.mod_pos_bound; reflexivity).
  assert (H2 : 0 <= d mod Minute) by (apply Z.mod_pos_bound; reflexivity).
  assert (H3 : 0 <= d mod Second) by (apply Z.mod_pos_bound; reflexivity).
  rewrite (Z.quot_div_nonneg d Hour), (Z.rem_mod_nonneg d Hour),
    (Z.rem_mod_nonneg d Minute), (Z.rem_mod_nonneg d Second)
    by first [assumption | reflexivity].
  rewrite (Z.quot_div_nonneg (d mod Hour) Minute),
    (Z.quot_div_nonneg (d mod Minute) Second),
    (Z.quot_div_nonneg (d mod Second) Millisecond)
    by first [assumption | reflexivity].
  match goal with
  | |- context [(List.length ?f <? 2)%nat] =>
      destruct (Nat.ltb_spec (List.length f) 2) as [Hbad|_]; [lia|]
  end.
  eexists. split; [reflexivity|].
  match goal with
  | |- parseDuration _ _ (_ ++ drop 2 ?f) _ _ = _ =>
      transitivity
        (parseDuration explode int_overflow
           (pad2 (d / Hour) ++ str ":" ++ pad2 (d mod Hour / Minute) ++ str ":"
              ++ pad2 (d mod Minute / Second) ++ (c0 :: sep) ++ drop 2 f)
           (c0 :: sep) 3);
      [f_equal; unfold pad2; rewrite <- !app_assoc; reflexivity|]
  end.
  rewrite (parse_formatted explode int_overflow _ _ _ (d mod Second / Millisecond));
    try assumption; try lia.
  f_equal. exact Hsum.
Qed.

(** C1 as stated, with any number of digits from three on, fails at
    four digits: the zero duration is written "00:00:00.0000", and a
    fractional segment of more than three bytes is refused. *)
Lemma format_parse_four_fails :
  (0 <= 0 <= MaxInt64 /\ 0 mod Millisecond = 0 /\ 3 <= 4 /\ sep_ok (str "."))
  /\ ~ duration_roundtrip 0 (str ".") 4.
Proof.
  split.
  - split; [vm_compute; split; discriminate|].
    split; [reflexivity|]. split; [lia|].
    split; [discriminate|].
    constructor; [split; [reflexivity|discriminate]|constructor].
  - intros H.
    destruct (H (fun _ => []) (fun _ => 0) (fun _ => [])) as (s & Hf & Hp).
    vm_compute in Hf. injection Hf as <-.
    vm_compute in Hp. discriminate Hp.
Qed.
Lemma format_parse_three_witness :
  (0 <= 3723500 * Millisecond <= MaxInt64
   /\ (3723500 * Millisecond) mod Millisecond = 0
   /\ sep_ok (str ","))
  /\ duration_roundtrip (3723500 * Millisecond) (str ",") 3.
Proof.
  assert (H1 : 0 <= 3723500 * Millisecond <= MaxInt64)
    by (vm_compute; split; discriminate).
  assert (H2 : (3723500 * Millisecond) mod Millisecond = 0) by reflexivity.
  assert (H3 : sep_ok (str ",")).
  { split; [discriminate|].
    constructor; [split; [reflexivity|discriminate]|constructor]. }
  split; [auto|]. exact (format_parse_three _ _ H1 H2 H3).
Defined.
End RoundTrip.
Import RoundTrip.

Module FormatFacts.
Import Strconv Fmt.

Lemma digit_char_is_digit d :
  0 <= d < 10 ->
  is_digit (digit_char d) = true /\ Z.of_N (N_of_ascii (digit_char d)) - 48 = d.
Proof.
  intros Hd. unfold is_digit, digit_char.
  destruct (Z.ltb_spec d 10); [|lia].
  rewrite N_ascii_embedding by lia.
  split; [|lia].
  apply andb_true_iff. split; apply N.leb_le; lia.
Qed.

(** [parsenum] reads the digits written by [format_loop], unless it
    gives up on a number that is too large. *)
Lemma parsenum_format_loop : forall f u acc b,
    0 <= u < 2 ^ (Z.of_nat f + 1) ->
    parsenum (format_loop f 10 u acc) 0 b = None
    \/ parsenum (format_loop f 10 u acc) 0 b = parsenum acc u true.
Proof.
  induction f as [|f IH]; intros u acc b Hu.
  - simpl in Hu. right. cbn [format_loop parsenum].
    rewrite Z.mod_small by lia.
    destruct (digit_char_is_digit u ltac:(lia)) as [-> ->].
    change (10 ^ 6 <? 0) with false. cbv iota. f_equal.
  - cbn [format_loop]. destruct (Z.leb_spec 10 u) as [Hge|Hlt].
    + assert (Hq : 0 <= u / 10 < 2 ^ (Z.of_nat f + 1)).
      { split; [apply Z.div_pos; lia|].
        apply Z.div_lt_upper_bound; [lia|].
        replace (Z.of_nat (S f) + 1) with (Z.succ (Z.of_nat f + 1)) in Hu by lia.
        rewrite Z.pow_succ_r in Hu by lia. lia. }
      destruct (IH (u / 10) (digit_char (u mod 10) :: acc) b Hq) as [->| ->];
        [left; reflexivity|].
      cbn [parsenum].
      destruct (digit_char_is_digit (u mod 10)) as [-> ->];
        [apply Z.mod_pos_bound; lia|].
      destruct (10 ^ 6 <? u / 10); [left; reflexivity|right].
      f_equal. pose proof (Z.div_mod u 10). lia.
    + right. cbn [parsenum].
      destruct (digit_char_is_digit u ltac:(lia)) as [-> ->].
      change (10 ^ 6 <? 0) with false. cbv iota. f_equal.
Qed.

Lemma format_loop_length f : forall base u acc,
    (1 <= List.length (format_loop f base u acc))%nat.
Proof.
  induction f as [|f IH]; intros base u acc; cbn [format_loop].
  - cbn. lia.
  - destruct (base <=? u); [apply IH|cbn; lia].
Qed.

Lemma fmt_f_length prec x : prec <> 0 -> (2 <= List.length (fmt_f prec x))%nat.
Proof.
  intros Hp. unfold fmt_f.
  destruct (Z.eqb_spec prec 0); [contradiction|].
  rewrite !length_app. cbn [List.length].
  pose proof (format_loop_length
                (Z.to_nat (Z.log2 ((if 0 <=? Float64.expo x
                   then Z.abs (Float64.mant x) * 2 ^ Float64.expo x * 10 ^ prec
                   else Float64.div_rne (Z.abs (Float64.mant x) * 10 ^ prec)
                          (2 ^ (- Float64.expo x))) / 10 ^ prec))) 10
                ((if 0 <=? Float64.expo x
                   then Z.abs (Float64.mant x) * 2 ^ Float64.expo x * 10 ^ prec
                   else Float64.div_rne (Z.abs (Float64.mant x) * 10 ^ prec)
                          (2 ^ (- Float64.expo x))) / 10 ^ prec) []) as Hl.
  unfold FormatUint. lia.
Qed.

(** The rendering has at least two bytes unless the precision is 0. *)
Lemma Sprintf_length fmt_v n x :
  n <> 0 ->
  (2 <= List.length (Sprintf fmt_v (str "%." ++ Itoa n ++ str "f") x))%nat.
Proof.
  intros Hn. unfold Sprintf. cbn [str list_ascii_of_string app].
  unfold Itoa, FormatInt. destruct (Z.ltb_spec n 0) as [Hneg|Hpos].
  - cbn [app parsenum]. change (is_digit "-") with false. cbv iota.
    change (Ascii.eqb "-" "f") with false. cbv iota.
    cbn [str list_ascii_of_string app List.length]. lia.
  - unfold FormatUint.
    rewrite <- (app_nil_r (format_loop _ _ _ _)) at 1.
    assert (Hfl : forall f u acc, format_loop f 10 u [] ++ acc = format_loop f 10 u acc).
    { induction f as [|f IH]; intros u acc; cbn [format_loop].
      - reflexivity.
      - destruct (10 <=? u); [|reflexivity].
        rewrite <- (IH _ [_]), <- (IH _ (_ :: acc)), <- app_assoc. reflexivity. }
    rewrite app_nil_r, Hfl.
    destruct (parsenum_format_loop (Z.to_nat (Z.log2 n)) n ["f"%char] false
                (log2_fuel n Hpos)) as [->| ->].
    + cbn [str list_ascii_of_string app List.length]. lia.
    + cbn [parsenum]. change (is_digit "f") with false. cbv iota.
      change (Ascii.eqb "f" "f") with true. cbv iota.
      rewrite length_app. pose proof (fmt_f_length n x Hn). lia.
Qed.

Lemma zero_prec_all : forallb zero_prec_ok (seq 0 1000) = true.
Proof. vm_compute. reflexivity. Qed.

Lemma Sprintf_zero_length fmt_v k :
  0 <= k < 1000 ->
  List.length (Sprintf fmt_v (str "%." ++ Itoa 0 ++ str "f")
                 (Float64.div (Float64.of_int k) (Float64.of_int 1000))) = 1%nat.
Proof.
  intros Hk. pose proof zero_prec_all as Hall.
  rewrite forallb_forall in Hall. specialize (Hall (Z.to_nat k)).
  unfold zero_prec_ok in Hall. rewrite Z2Nat.id in Hall by lia.
  change (Sprintf fmt_v (str "%." ++ Itoa 0 ++ str "f")
            (Float64.div (Float64.of_int k) (Float64.of_int 1000)))
    with (fmt_f 0 (Float64.div (Float64.of_int k) (Float64.of_int 1000)) ++ []).
  rewrite app_nil_r. apply Nat.eqb_eq, Hall, in_seq. lia.
Qed.

(** C10, as amended: for a non-negative duration, [formatDuration]
    returns a text exactly when the number of millisecond digits is not
    0; with 0 digits the rendering of the fraction is a single byte and
    slicing it from its third byte on faults. *)
Theorem formatDuration_faults_at_zero fmt_v d sep n :
  0 <= d -> (is_Ok (formatDuration fmt_v d sep n) <-> n <> 0).
Proof.
  intros Hd. unfold formatDuration.
  split.
  - intros [s Hs] ->.
    assert (Hk : 0 <= Z.quot (Z.rem d Second) Millisecond < 1000).
    { rewrite Z.rem_mod_nonneg, Z.quot_div_nonneg;
        try first [assumption | reflexivity | apply Z.mod_pos_bound; reflexivity].
      pose proof (Z.mod_pos_bound d Second eq_refl) as Hb.
      split; [apply Z.div_pos; [lia|reflexivity]|].
      apply Z.div_lt_upper_bound; [reflexivity|].
      change (Millisecond * 1000) with Second. lia. }
    rewrite (Sprintf_zero_length fmt_v _ Hk) in Hs. discriminate Hs.
  - intros Hn.
    pose proof (Sprintf_length fmt_v n
                  (Float64.div (Float64.of_int (Z.quot (Z.rem d Second) Millisecond))
                               (Float64.of_int 1000)) Hn) as Hl.
    match goal with
    | |- context [(List.length ?f <? 2)%nat] =>
        destruct (Nat.ltb_spec (List.length f) 2) as [Hbad|_]; [lia|]
    end.
    eexists. reflexivity.
Qed.

(** C10 as stated makes one digit or more the condition for a result;
    with -1 digits the format is malformed, [Sprintf] renders a
    diagnostic text instead, and [formatDuration] returns. *)
Lemma formatDuration_negative_digits :
  0 <= 0 /\ ~ (1 <= -1)
  /\ forall fmt_v, is_Ok (formatDuration fmt_v 0 (str ".") (-1)).
Proof.
  split; [lia|]. split; [lia|]. intros fmt_v. eexists. vm_compute. reflexivity.
Qed.
Lemma formatDuration_faults_at_zero_witness :
  0 <= 1500 * Millisecond
  /\ (is_Ok (formatDuration (fun _ => []) (1500 * Millisecond) (str ".") 3)
      <-> 3 <> 0).
Proof.
  assert (H : 0 <= 1500 * Millisecond) by (vm_compute; discriminate).
  split; [exact H|].
  exact (formatDuration_faults_at_zero (fun _ => []) _ (str ".") 3 H).
Defined.
End FormatFacts.
Import FormatFacts.

Module ParseFacts.








(** With a fractional segment, [parseDuration] is the guard on its
    length, [Atoi], the scaling and the clock fields. *)
Lemma parseDuration_fraction explode int_overflow i sep n f :
  fraction_of explode i sep = Some f ->
  parseDuration explode int_overflow i sep n
  = if (3 <? List.length f)%nat then Err (ErrMillisecondDigits i)
    else
      v <- atoi f ;;
      clock_total explode i sep
        (wrap64 (v * int_Pow10 int_overflow (wrap64 (n - Z.of_nat (List.length f))))).
Proof.
  unfold fraction_of, parseDuration, clock_total, clock_fields.
  destruct (2 <=? List.length (Strings.Split explode i sep))%nat; [|discriminate].
  intros [= <-].
  destruct (3 <? _)%nat; [reflexivity|].
  destruct (atoi _) as [v|e]; reflexivity.
Qed.

(** A fractional segment of more than 3 bytes is refused whatever the
    number of digits [n] is; one that [Atoi] accepts is scaled by
    [10 ^ (n - length)] when it has at most [n] bytes, and contributes
    nothing when it has more: the scaling factor [int(math.Pow10(e))]
    is 0 for a negative [e]. *)
Lemma fraction_scaled_or_dropped explode int_overflow i sep n f :
  fraction_of explode i sep = Some f ->
  ((3 < List.length f)%nat ->
   parseDuration explode int_overflow i sep n = Err (ErrMillisecondDigits i))
  /\ (forall v, (List.length f <= 3)%nat -> Strconv.Atoi f = inr v ->
        (Z.of_nat (List.length f) <= n <= Z.of_nat (List.length f) + 18 ->
         parseDuration explode int_overflow i sep n
         = clock_total explode i sep
             (wrap64 (v * 10 ^ (n - Z.of_nat (List.length f)))))
        /\ (MinInt64 + 3 <= n < Z.of_nat (List.length f) ->
            parseDuration explode int_overflow i sep n
            = clock_total explode i sep 0)).
Proof.
  intros Hf. rewrite (parseDuration_fraction _ _ _ _ _ _ Hf). split.
  - intros Hlen. destruct (Nat.ltb_spec 3 (List.length f)); [reflexivity|lia].
  - intros v Hlen Hv.
    destruct (Nat.ltb_spec 3 (List.length f)); [lia|].
    unfold atoi. rewrite Hv. cbn [bind]. split; intros Hn.
    + rewrite (wrap64_id (n - _)) by (unfold MinInt64, MaxInt64; lia).
      unfold int_Pow10.
      destruct (Z.ltb_spec (n - Z.of_nat (List.length f)) 0); [lia|].
      destruct (Z.leb_spec (n - Z.of_nat (List.length f)) 18); [|lia].
      reflexivity.
    + rewrite (wrap64_id (n - _)) by (unfold MinInt64, MaxInt64 in *; lia).
      unfold int_Pow10.
      destruct (Z.ltb_spec (n - Z.of_nat (List.length f)) 0); [|lia].
      rewrite Z.mul_0_r. reflexivity.
Qed.

(** C5, evaluated: a fractional segment shorter than the number of
    digits is scaled up ("5" with three digits is 500 milliseconds), a
    segment as long as the number of digits is taken as it is, and a
    segment longer than the number of digits contributes nothing:
    [int(math.Pow10(-1))] is 0, where the claim has the leading digits
    kept. *)
Theorem long_fraction_dropped explode int_overflow :
  parseDuration explode int_overflow (str "00:00:01.5") (str ".") 3
  = Ok (1 * Second + 500 * Millisecond)
  /\ parseDuration explode int_overflow (str "00:00:01.56") (str ".") 2
     = Ok (1 * Second + 56 * Millisecond)
  /\ parseDuration explode int_overflow (str "00:00:01.567") (str ".") 2
     = Ok (1 * Second).
Proof. repeat split; vm_compute; reflexivity. Qed.
End ParseFacts.
Import ParseFacts.

(** * One pass of [Order] as a recursion on the list *)
Section BubbleFacts.
Context {A : Type} (key : A -> Z).

#[local] Abbreviation bubble := (@bubble A key).
#[local] Abbreviation bubbled := (@bubbled A key).
#[local] Abbreviation pass := (@pass A key).
#[local] Abbreviation key_le := (@key_le A key).
#[local] Abbreviation tail_done := (@tail_done A key).

#[local] Instance key_le_trans : Transitive key_le.
Proof. unfold key_le. intros a b c. lia. Qed.

Lemma bubble_length x r : List.length (bubble x r) = S (List.length r).
Proof.
  revert x. induction r as [|y r IH]; intros x; [reflexivity|].
  cbn. destruct (key x >? key y); cbn; rewrite IH; reflexivity.
Qed.

Lemma bubble_perm x r : bubble x r ≡ₚ x :: r.
Proof.
  revert x. induction r as [|y r IH]; intros x; [reflexivity|].
  cbn. destruct (key x >? key y).
  - rewrite IH. apply Permutation_swap.
  - rewrite IH. reflexivity.
Qed.

(** A pass keeps the elements of every key in their order. *)
Lemma bubble_stable k x r :
  filter (fun a => key a = k) (bubble x r) = filter (fun a => key a = k) (x :: r).
Proof.
  revert x. induction r as [|y r IH]; intros x; [reflexivity|].
  cbn [bubble]. destruct (Z.gtb_spec (key x) (key y)) as [Hgt|Hle].
  - rewrite filter_cons, IH, !filter_cons.
    repeat case_decide; try reflexivity. lia.
  - rewrite filter_cons, IH, !filter_cons. reflexivity.
Qed.

(** No swap happens exactly on a sorted list, which the pass leaves as
    it is. *)
Lemma bubbled_false_sorted x r :
  bubbled x r = false <-> StronglySorted key_le (x :: r).
Proof.
  revert x. induction r as [|y r IH]; intros x.
  - split; [intros _; repeat constructor|reflexivity].
  - cbn [bubbled]. destruct (Z.gtb_spec (key x) (key y)) as [Hgt|Hle].
    + split; [discriminate|]. intros Hs.
      apply StronglySorted_cons in Hs as [Hx _].
      apply Forall_cons in Hx as [Hxy _]. unfold key_le in Hxy. lia.
    + rewrite IH. split.
      * intros Hs. apply StronglySorted_cons. split; [|exact Hs].
        apply StronglySorted_cons in Hs as [Hy _].
        constructor; [exact Hle|].
        eapply Forall_impl; [exact Hy|]. unfold key_le. intros; lia.
      * intros Hs. apply StronglySorted_cons in Hs as [_ Hs]. exact Hs.
Qed.

Lemma bubble_sorted_id x r :
  StronglySorted key_le (x :: r) -> bubble x r = x :: r.
Proof.
  revert x. induction r as [|y r IH]; intros x Hs; [reflexivity|].
  cbn [bubble].
  pose proof Hs as Hs'. apply StronglySorted_cons in Hs' as [Hx Hyr].
  apply Forall_cons in Hx as [Hxy _]. unfold key_le in Hxy.
  destruct (Z.gtb_spec (key x) (key y)); [lia|].
  rewrite IH by exact Hyr. reflexivity.
Qed.

(** The pass ends with an element of greatest key. *)
Lemma bubble_last x r :
  exists a m, bubble x r = a ++ [m] /\ Forall (fun u => key_le u m) a.
Proof.
  revert x. induction r as [|y r IH]; intros x.
  - exists [], x. split; [reflexivity|constructor].
  - cbn [bubble]. destruct (Z.gtb_spec (key x) (key y)) as [Hgt|Hle].
    + destruct (IH x) as (a & m & Heq & Ha).
      exists (y :: a), m. split; [rewrite Heq; reflexivity|].
      constructor; [|exact Ha].
      assert (Hin : x ∈ a ++ [m]) by (rewrite <- Heq, bubble_perm; left).
      apply elem_of_app in Hin as [Hin|Hin].
      * rewrite Forall_forall in Ha. specialize (Ha x Hin).
        unfold key_le in *. lia.
      * apply list_elem_of_singleton in Hin. subst. unfold key_le. lia.
    + destruct (IH y) as (a & m & Heq & Ha).
      exists (x :: a), m. split; [rewrite Heq; reflexivity|].
      constructor; [|exact Ha].
      assert (Hin : y ∈ a ++ [m]) by (rewrite <- Heq, bubble_perm; left).
      apply elem_of_app in Hin as [Hin|Hin].
      * rewrite Forall_forall in Ha. specialize (Ha y Hin).
        unfold key_le in *. lia.
      * apply list_elem_of_singleton in Hin. subst. exact Hle.
Qed.

(** A sorted tail of greatest elements is passed over unchanged. *)
Lemma bubble_app x r s :
  StronglySorted key_le s ->
  Forall (fun u => Forall (key_le u) s) (x :: r) ->
  bubble x (r ++ s) = bubble x r ++ s /\ bubbled x (r ++ s) = bubbled x r.
Proof.
  intros Hs. revert x. induction r as [|y r IH]; intros x Hall.
  - cbn [app bubble bubbled].
    apply Forall_cons in Hall as [Hx _].
    assert (Hxs : StronglySorted key_le (x :: s))
      by (apply StronglySorted_cons; split; assumption).
    split; [apply bubble_sorted_id, Hxs|apply bubbled_false_sorted, Hxs].
  - cbn [app bubble bubbled].
    apply Forall_cons in Hall as [Hx Hall].
    pose proof Hall as Hall'. apply Forall_cons in Hall' as [Hy Hr].
    destruct (key x >? key y).
    + destruct (IH x) as [-> _]; [constructor; assumption|].
      split; reflexivity.
    + destruct (IH y Hall) as [-> ->]. split; reflexivity.
Qed.

Lemma tail_done_0 l : tail_done 0 l.
Proof.
  exists l, []. rewrite app_nil_r. repeat split; try constructor.
  apply Forall_forall. intros; constructor.
Qed.

Lemma tail_done_pass i l :
  tail_done i l -> (i < List.length l)%nat -> tail_done (S i) (pass l).
Proof.
  intros (a & s & -> & Hlen & Hs & Ha) Hi.
  rewrite length_app in Hi.
  destruct a as [|x a]; [cbn in Hi; lia|].
  cbn [app pass].
  destruct (bubble_app x a s Hs Ha) as [-> _].
  destruct (bubble_last x a) as (a' & m & Heq & Ha').
  rewrite Heq, <- app_assoc. cbn [app].
  exists a', (m :: s).
  assert (Hperm : a' ++ [m] ≡ₚ x :: a) by (rewrite <- Heq; apply bubble_perm).
  assert (Hm : Forall (key_le m) s).
  { rewrite Forall_forall in Ha. apply Ha. rewrite <- Hperm.
    apply elem_of_app. right. left. }
  split; [reflexivity|]. split; [cbn; lia|].
  split; [apply StronglySorted_cons; split; assumption|].
  apply Forall_forall. intros u Hu. constructor.
  - rewrite Forall_forall in Ha'. apply Ha', Hu.
  - rewrite Forall_forall in Ha. apply Ha. rewrite <- Hperm.
    apply elem_of_app. left. exact Hu.
Qed.

Lemma tail_done_sorted i l :
  tail_done i l -> (List.length l <= S i)%nat -> StronglySorted key_le l.
Proof.
  intros (a & s & -> & Hlen & Hs & Ha) Hi. rewrite length_app in Hi.
  destruct a as [|x [|y a]]; [exact Hs| |cbn in Hi; lia].
  cbn [app]. apply StronglySorted_cons. split; [|exact Hs].
  apply Forall_cons in Ha as [Hx _]. exact Hx.
Qed.

Lemma pass_perm l : pass l ≡ₚ l.
Proof. destruct l; [reflexivity|apply bubble_perm]. Qed.

Lemma pass_length l : List.length (pass l) = List.length l.
Proof. destruct l; [reflexivity|apply bubble_length]. Qed.

Lemma pass_stable k l :
  filter (fun a => key a = k) (pass l) = filter (fun a => key a = k) l.
Proof. destruct l; [reflexivity|apply bubble_stable]. Qed.
End BubbleFacts.

Module OrderFacts.

Lemma deref_allocated h p :
  (p < List.length h)%nat -> exists it, h !! p = Some it /\ deref h p = Ok it.
Proof.
  intros Hp. destruct (lookup_lt_is_Some_2 h p Hp) as [it Hit].
  exists it. split; [exact Hit|]. unfold deref. rewrite Hit. reflexivity.
Qed.

Lemma index_middle out c rest :
  at_index (out ++ c :: rest) (List.length out) = Ok c.
Proof. unfold at_index. rewrite list_lookup_middle by reflexivity. reflexivity. Qed.

(** The inner loop of [Order], started in the middle of a pass: [out]
    is behind the index, [c] is the entry at [index - 1]. *)
Lemma order_fold h : forall rest out c sw,
    allocated h (out ++ c :: rest) ->
    foldM (order_step h) (seq (S (List.length out)) (List.length rest))
      (out ++ c :: rest, sw)
    = Ok (out ++ bubble (start_of h) c rest, sw || bubbled (start_of h) c rest).
Proof.
  induction rest as [|y rest IH]; intros out c sw Hall.
  - cbn. rewrite orb_false_r. reflexivity.
  - cbn [List.length seq foldM bubble bubbled].
    assert (Hc : (c < List.length h)%nat).
    { unfold allocated in Hall. rewrite Forall_app, Forall_cons in Hall. tauto. }
    assert (Hy : (y < List.length h)%nat).
    { unfold allocated in Hall. rewrite Forall_app, !Forall_cons in Hall. tauto. }
    destruct (deref_allocated h c Hc) as (ic & Hic & Hdc).
    destruct (deref_allocated h y Hy) as (iy & Hiy & Hdy).
    unfold order_step at 1.
    replace (S (List.length out) - 1)%nat with (List.length out) by lia.
    rewrite index_middle. cbn [bind]. rewrite Hdc. cbn [bind].
    replace (out ++ c :: y :: rest) with ((out ++ [c]) ++ y :: rest)
      by (rewrite <- app_assoc; reflexivity).
    replace (S (List.length out)) with (List.length (out ++ [c]))
      by (rewrite length_app; cbn; lia).
    rewrite index_middle. cbn [bind]. rewrite Hdy. cbn [bind].
    assert (Hkc : start_of h c = StartAt ic) by (unfold start_of; rewrite Hic; reflexivity).
    assert (Hky : start_of h y = StartAt iy) by (unfold start_of; rewrite Hiy; reflexivity).
    rewrite Hkc, Hky.
    destruct (StartAt ic >? StartAt iy).
    + cbn [bind].
      replace (<[List.length (out ++ [c]):=c]>
                 (<[List.length out:=y]> ((out ++ [c]) ++ y :: rest)))
        with ((out ++ [y]) ++ c :: rest).
      2:{ rewrite <- !app_assoc. cbn [app].
          rewrite (insert_app_r_alt out _ (List.length out)) by lia.
          rewrite Nat.sub_diag. cbn [list_insert].
          rewrite length_app. cbn [List.length].
          rewrite (insert_app_r_alt out _ (List.length out + 1)) by lia.
          replace (List.length out + 1 - List.length out)%nat with 1%nat by lia.
          reflexivity. }
      replace (S (List.length (out ++ [c])))
        with (S (List.length (out ++ [y])))
        by (rewrite !length_app; reflexivity).
      rewrite IH.
      * rewrite <- app_assoc, orb_true_r. reflexivity.
      * unfold allocated in *. rewrite !Forall_app, !Forall_cons in *.
        rewrite Forall_nil. tauto.
    + cbn [bind]. rewrite IH.
      * rewrite <- app_assoc. reflexivity.
      * unfold allocated in *. rewrite !Forall_app, !Forall_cons in *.
        rewrite Forall_nil. tauto.
Qed.

(** One pass of the loop is one [pass] of the list. *)
Lemma order_pass_bubble h l :
  allocated h l ->
  order_pass h l
  = Ok (pass (start_of h) l,
        match l with [] => false | x :: r => bubbled (start_of h) x r end).
Proof.
  intros Hall. unfold order_pass. destruct l as [|x r]; [reflexivity|].
  cbn [List.length pass]. rewrite Nat.sub_succ, Nat.sub_0_r.
  apply (order_fold h r [] x false Hall).
Qed.

Lemma allocated_perm h l l' : l' ≡ₚ l -> allocated h l -> allocated h l'.
Proof. unfold allocated. intros Hp. rewrite Hp. auto. Qed.

(** With as many passes allowed as there are entries not yet in their
    final places, the loop comes to an end, on a sorted list. *)
Lemma order_loop_ok h : forall fuel i l,
    allocated h l ->
    tail_done (start_of h) i l ->
    (List.length l <= i + fuel)%nat -> (1 <= fuel)%nat ->
    exists l',
      order_loop fuel h l = Ok l'
      /\ l' ≡ₚ l
      /\ StronglySorted (key_le (start_of h)) l'
      /\ forall t, starting_at h t l' = starting_at h t l.
Proof.
  induction fuel as [|fuel IH]; intros i l Hall Hdone Hlen Hfuel; [lia|].
  cbn [order_loop]. rewrite order_pass_bubble by exact Hall. cbn [bind fst snd].
  destruct l as [|x r].
  { exists []. repeat split; try reflexivity. constructor. }
  destruct (bubbled (start_of h) x r) eqn:Hsw.
  - assert (Hi : (i < List.length (x :: r))%nat).
    { destruct (Nat.lt_ge_cases i (List.length (x :: r))) as [|Hge]; [assumption|].
      exfalso. assert (Hs : StronglySorted (key_le (start_of h)) (x :: r))
        by (eapply tail_done_sorted; [exact Hdone|lia]).
      apply bubbled_false_sorted in Hs. congruence. }
    assert (Hfuel' : (1 <= fuel)%nat).
    { destruct fuel; [|lia]. exfalso.
      assert (Hs : StronglySorted (key_le (start_of h)) (x :: r))
        by (eapply tail_done_sorted; [exact Hdone|lia]).
      apply bubbled_false_sorted in Hs. congruence. }
    destruct (IH (S i) (pass (start_of h) (x :: r))) as (l' & Hl' & Hperm & Hs & Hst).
    + eapply allocated_perm; [apply pass_perm|exact Hall].
    + apply tail_done_pass; assumption.
    + rewrite pass_length. lia.
    + exact Hfuel'.
    + exists l'. split; [exact Hl'|]. split; [rewrite Hperm; apply pass_perm|].
      split; [exact Hs|]. intros t. rewrite Hst. apply pass_stable.
  - apply bubbled_false_sorted in Hsw.
    exists (x :: r). cbn [pass]. rewrite bubble_sorted_id by exact Hsw.
    repeat split; try reflexivity. exact Hsw.
Qed.

Lemma order_loop_sorted h fuel l :
  allocated h l -> StronglySorted (key_le (start_of h)) l -> (1 <= fuel)%nat ->
  order_loop fuel h l = Ok l.
Proof.
  intros Hall Hs Hfuel. destruct fuel as [|fuel]; [lia|].
  cbn [order_loop]. rewrite order_pass_bubble by exact Hall. cbn [bind fst snd].
  destruct l as [|x r]; [reflexivity|].
  pose proof Hs as Hs'. apply bubbled_false_sorted in Hs'. rewrite Hs'.
  cbn [pass]. rewrite bubble_sorted_id by exact Hs. reflexivity.
Qed.

(** What [Order] returns. *)
Lemma Order_spec h s :
  allocated h (elems (Items s)) ->
  exists l',
    Order h s = Ok (set_Items s {| elems := l'; cap := cap (Items s) |})
    /\ l' ≡ₚ elems (Items s)
    /\ StronglySorted (start_le h) l'
    /\ forall t, starting_at h t l' = starting_at h t (elems (Items s)).
Proof.
  intros Hall. unfold Order.
  destruct (Nat.leb_spec (List.length (elems (Items s))) 1) as [Hle|Hgt].
  - exists (elems (Items s)).
    split; [destruct s as [[l c] ? ? ?]; reflexivity|].
    split; [reflexivity|]. split; [|reflexivity].
    destruct (elems (Items s)) as [|x [|y r]]; [constructor| |cbn in Hle; lia].
    repeat constructor.
  - destruct (order_loop_ok h (List.length (elems (Items s))) 0
                (elems (Items s)) Hall (tail_done_0 _ _) ltac:(lia) ltac:(lia))
      as (l' & Hl' & Hperm & Hs & Hst).
    exists l'. rewrite Hl'. cbn [bind]. repeat split; assumption.
Qed.

Lemma Order_sorted_id h s :
  allocated h (elems (Items s)) ->
  StronglySorted (start_le h) (elems (Items s)) ->
  Order h s = Ok s.
Proof.
  intros Hall Hs. unfold Order.
  destruct (Nat.leb_spec (List.length (elems (Items s))) 1) as [Hle|Hgt];
    [reflexivity|].
  rewrite order_loop_sorted; [|assumption..|lia].
  cbn [bind]. destruct s as [[l c] ? ? ?]; reflexivity.
Qed.

(** C3: on a slice of pointers into the store, [Order] returns; its
    result is a permutation of the input, sorted ascending by StartAt;
    for every start offset the entries with that offset keep their
    order; and ordering the result again changes nothing. *)
Theorem Order_stable_sort h s :
  allocated h (elems (Items s)) ->
  exists s',
    Order h s = Ok s'
    /\ elems (Items s') ≡ₚ elems (Items s)
    /\ Sorted (start_le h) (elems (Items s'))
    /\ (forall t, starting_at h t (elems (Items s'))
                  = starting_at h t (elems (Items s)))
    /\ Order h s' = Ok s'.
Proof.
  intros Hall. destruct (Order_spec h s Hall) as (l' & HO & Hperm & Hs & Hst).
  eexists. split; [exact HO|]. cbn [Items set_Items elems].
  split; [exact Hperm|]. split; [apply StronglySorted_Sorted, Hs|].
  split; [exact Hst|].
  apply Order_sorted_id; cbn [Items set_Items elems]; [|exact Hs].
  eapply allocated_perm; [exact Hperm|exact Hall].
Qed.
Lemma Order_stable_sort_witness :
  let h := doc_store [text_item 5 6 "a"; text_item 3 4 "b"; text_item 5 7 "c"] in
  let s := doc_of [text_item 5 6 "a"; text_item 3 4 "b"; text_item 5 7 "c"] 3 in
  allocated h (elems (Items s))
  /\ exists s',
      Order h s = Ok s'
      /\ elems (Items s') ≡ₚ elems (Items s)
      /\ Sorted (start_le h) (elems (Items s'))
      /\ (forall t, starting_at h t (elems (Items s'))
                    = starting_at h t (elems (Items s)))
      /\ Order h s' = Ok s'.
Proof.
  cbv zeta.
  assert (H : allocated
                (doc_store [text_item 5 6 "a"; text_item 3 4 "b"; text_item 5 7 "c"])
                (elems (Items (doc_of [text_item 5 6 "a"; text_item 3 4 "b";
                                       text_item 5 7 "c"] 3)))).
  { unfold allocated. cbn. repeat constructor. }
  split; [exact H|]. exact (Order_stable_sort _ _ H).
Defined.
End OrderFacts.
Import OrderFacts.

Module ForceFacts.

Lemma set_EndAt_twice it d : set_EndAt (set_EndAt it d) d = set_EndAt it d.
Proof. reflexivity. Qed.

(** What the scan of [ForceDuration] leaves in the store: every item is
    as before or clamped, and the entries passed over end at or before
    the requested duration. *)
Lemma force_scan_spec d : forall l h k,
    allocated h l ->
    exists h1 r,
      force_scan d h l k = Ok (h1, r)
      /\ List.length h1 = List.length h
      /\ (forall q it, h !! q = Some it ->
            h1 !! q = Some it \/ h1 !! q = Some (set_EndAt it d))
      /\ match r with Some j => (k <= j)%nat | None => True end
      /\ forall q,
          q ∈ match r with Some j => take (j - k) l | None => l end ->
          exists it1, h1 !! q = Some it1 /\ EndAt it1 <= d.
Proof.
  induction l as [|i rest IH]; intros h k Hall.
  - exists h, None. cbn. repeat split; auto.
    intros q Hq. apply elem_of_nil in Hq. contradiction.
  - apply Forall_cons in Hall as [Hi Hrest].
    destruct (deref_allocated h i Hi) as (it & Hit & Hd).
    cbn [force_scan]. rewrite Hd. cbn [bind].
    destruct (Z.geb_spec (StartAt it) d) as [Hge|Hlt].
    { exists h, (Some k). repeat split; auto.
      rewrite Nat.sub_diag. cbn. intros q Hq.
      apply elem_of_nil in Hq. contradiction. }
    destruct (Z.gtb_spec (EndAt it) d) as [Hgt|Hle].
    + destruct (IH (<[i := set_EndAt it d]> h) (S k)) as (h1 & r & Hs & Hlen & Hmono & Hk & Hvis).
      { unfold allocated. rewrite length_insert. exact Hrest. }
      exists h1, r. split; [exact Hs|].
      split; [rewrite Hlen, length_insert; reflexivity|].
      assert (Hi1 : h1 !! i = Some (set_EndAt it d)).
      { destruct (Hmono i (set_EndAt it d)) as [H|H]; try exact H.
        apply list_lookup_insert_eq. exact Hi. }
      split.
      { intros q it0 Hq. destruct (decide (q = i)) as [->|Hne].
        - right. rewrite Hit in Hq. injection Hq as <-. exact Hi1.
        - apply Hmono. rewrite list_lookup_insert_ne by congruence. exact Hq. }
      split; [destruct r; [lia|exact I]|].
      intros q Hq.
      assert (Hq' : q = i \/ q ∈ match r with
                                 | Some j => take (j - S k) rest
                                 | None => rest
                                 end).
      { destruct r as [j|].
        - replace (j - k)%nat with (S (j - S k)) in Hq by lia.
          cbn [take] in Hq. apply elem_of_cons in Hq. exact Hq.
        - apply elem_of_cons in Hq. exact Hq. }
      destruct Hq' as [->|Hq'].
      * exists (set_EndAt it d). split; [exact Hi1|]. cbn. lia.
      * apply Hvis, Hq'.
    + destruct (IH h (S k) Hrest) as (h1 & r & Hs & Hlen & Hmono & Hk & Hvis).
      exists h1, r. split; [exact Hs|]. split; [exact Hlen|].
      split; [exact Hmono|].
      split; [destruct r; [lia|exact I]|].
      intros q Hq.
      assert (Hq' : q = i \/ q ∈ match r with
                                 | Some j => take (j - S k) rest
                                 | None => rest
                                 end).
      { destruct r as [j|].
        - replace (j - k)%nat with (S (j - S k)) in Hq by lia.
          cbn [take] in Hq. apply elem_of_cons in Hq. exact Hq.
        - apply elem_of_cons in Hq. exact Hq. }
      destruct Hq' as [->|Hq'].
      * destruct (Hmono i it Hit) as [H|H].
        -- exists it. split; [exact H|lia].
        -- exists (set_EndAt it d). split; [exact H|]. cbn. lia.
      * apply Hvis, Hq'.
Qed.

Lemma Duration_nil h s : elems (Items s) = [] -> Duration h s = Ok 0.
Proof. intros Hl. unfold Duration. rewrite Hl. reflexivity. Qed.

Lemma Duration_last h s l p it :
  elems (Items s) = l ++ [p] -> h !! p = Some it ->
  Duration h s = Ok (EndAt it).
Proof.
  intros Hl Hp. unfold Duration. rewrite Hl, length_app. cbn [List.length].
  destruct (Nat.eqb_spec (List.length l + 1) 0); [lia|].
  replace (List.length l + 1 - 1)%nat with (List.length l) by lia.
  unfold at_index. rewrite list_lookup_middle by reflexivity. cbn [bind].
  unfold deref. rewrite Hp. reflexivity.
Qed.

Lemma Duration_allocated h s :
  allocated h (elems (Items s)) -> exists cur, Duration h s = Ok cur.
Proof.
  intros Hall. destruct (elems (Items s)) as [|x l] eqn:Hl using rev_ind.
  - exists 0. apply Duration_nil, Hl.
  - clear IHl. apply Forall_app in Hall as [_ Hx].
    apply Forall_cons in Hx as [Hx _].
    destruct (deref_allocated h x Hx) as (it & Hit & _).
    exists (EndAt it). eapply Duration_last; eassumption.
Qed.

(** Appending the placeholder makes the duration the requested one. *)
Lemma Duration_dummy growslice h s d :
  Duration (fst (new h (dummy_item d)))
    (set_Items s (append growslice (Items s) [snd (new h (dummy_item d))]))
  = Ok d.
Proof.
  eapply (Duration_last _ _ (elems (Items s)) (List.length h) (dummy_item d)).
  - unfold append. cbn. destruct (_ <=? _)%nat; reflexivity.
  - cbn. rewrite list_lookup_middle by reflexivity. reflexivity.
Qed.

Lemma ForceDuration_fixed growslice d h s :
  Duration h s = Ok d -> ForceDuration growslice d h s = Ok (h, s).
Proof.
  intros Hd. unfold ForceDuration. rewrite Hd. cbn [bind].
  rewrite Z.eqb_refl. reflexivity.
Qed.

(** C4: for a requested duration [d > 0] and a document whose items
    are ordered by StartAt, [ForceDuration d] returns a document whose
    [Duration] is [d], and a second [ForceDuration d] leaves the store
    and the document as they are. *)
Theorem ForceDuration_sets_duration growslice d h s :
  0 < d ->
  allocated h (elems (Items s)) ->
  Sorted (start_le h) (elems (Items s)) ->
  exists h' s',
    ForceDuration growslice d h s = Ok (h', s')
    /\ Duration h' s' = Ok d
    /\ ForceDuration growslice d h' s' = Ok (h', s').
Proof.
  intros Hd Hall _.
  assert (Hgoal : exists h' s',
             ForceDuration growslice d h s = Ok (h', s') /\ Duration h' s' = Ok d).
  { destruct (Duration_allocated h s Hall) as [cur Hcur].
    unfold ForceDuration. rewrite Hcur. cbn [bind].
    destruct (Z.eqb_spec cur d) as [->|Hne]; [exists h, s; auto|].
    destruct (Z.gtb_spec cur d) as [Hgt|Hle].
    - destruct (force_scan_spec d (elems (Items s)) h 0%nat Hall)
        as (h1 & r & Hs & Hlen & Hmono & _ & Hvis).
      rewrite Hs. cbn [bind fst snd].
      set (s1 := match r with
                 | Some lastIndex =>
                     set_Items s {| elems := take lastIndex (elems (Items s));
                                    cap := cap (Items s) |}
                 | None => s
                 end).
      assert (Hst : match r with
                    | Some lastIndex =>
                        Ok (h1, set_Items s
                                  {| elems := take lastIndex (elems (Items s));
                                     cap := cap (Items s) |})
                    | None => Ok (h1, s)
                    end = Ok (h1, s1)) by (destruct r; reflexivity).
      rewrite Hst. cbn [bind fst snd].
      assert (Hs1 : elems (Items s1)
                    = match r with
                      | Some j => take (j - 0) (elems (Items s))
                      | None => elems (Items s)
                      end).
      { unfold s1. destruct r; [rewrite Nat.sub_0_r|]; reflexivity. }
      rewrite <- Hs1 in Hvis.
      destruct (elems (Items s1)) as [|x l] eqn:Hl using rev_ind.
      + rewrite (Duration_nil h1 s1 Hl). cbn [bind].
        destruct (Z.ltb_spec 0 d); [|lia].
        eexists _, _. split; [reflexivity|]. apply Duration_dummy.
      + clear IHl.
        destruct (Hvis x) as (it1 & Hit1 & Hend).
        { apply elem_of_app. right. left. }
        rewrite (Duration_last h1 s1 l x it1 Hl Hit1). cbn [bind].
        destruct (Z.ltb_spec (EndAt it1) d) as [Hlt|Hge].
        * eexists _, _. split; [reflexivity|]. apply Duration_dummy.
        * exists h1, s1. split; [reflexivity|].
          rewrite (Duration_last h1 s1 l x it1 Hl Hit1). f_equal. lia.
    - cbn [bind fst snd]. rewrite Hcur. cbn [bind].
      destruct (Z.ltb_spec cur d); [|lia].
      eexists _, _. split; [reflexivity|]. apply Duration_dummy. }
  destruct Hgoal as (h' & s' & HF & HD).
  exists h', s'. split; [exact HF|]. split; [exact HD|].
  apply ForceDuration_fixed, HD.
Qed.
Lemma ForceDuration_sets_duration_witness :
  let h := doc_store [text_item 0 10 "x"] in
  let s := doc_of [text_item 0 10 "x"] 1 in
  (0 < 5 * Second /\ allocated h (elems (Items s))
   /\ Sorted (start_le h) (elems (Items s)))
  /\ exists h' s',
      ForceDuration double_cap (5 * Second) h s = Ok (h', s')
      /\ Duration h' s' = Ok (5 * Second)
      /\ ForceDuration double_cap (5 * Second) h' s' = Ok (h', s').
Proof.
  cbv zeta.
  assert (H1 : 0 < 5 * Second) by reflexivity.
  assert (H2 : allocated (doc_store [text_item 0 10 "x"])
                 (elems (Items (doc_of [text_item 0 10 "x"] 1))))
    by (unfold allocated; cbn; repeat constructor).
  assert (H3 : Sorted (start_le (doc_store [text_item 0 10 "x"]))
                 (elems (Items (doc_of [text_item 0 10 "x"] 1))))
    by (cbn; repeat constructor).
  split; [auto|].
  exact (ForceDuration_sets_duration double_cap _ _ _ H1 H2 H3).
Defined.
End ForceFacts.
Import ForceFacts.

Module MergeFacts.

Section FirstWriteWins.
Context {V : Type} (id : V -> gostring).

Lemma merge_with_lookup m v k :
  merge_with id m v !! k
  = match m !! k with
    | Some w => Some w
    | None => if decide (id v = k) then Some v else None
    end.
Proof.
  unfold merge_with. destruct (m !! id v) as [w|] eqn:Hv.
  - destruct (m !! k) as [w'|] eqn:Hk; [reflexivity|].
    case_decide; [congruence|reflexivity].
  - destruct (decide (id v = k)) as [<-|Hne].
    + rewrite lookup_insert_eq, Hv. reflexivity.
    + rewrite lookup_insert_ne by exact Hne. destruct (m !! k); reflexivity.
Qed.

(** An entry of the receiver stays; a free identifier takes the first
    value of the visit that carries it. *)
Lemma foldl_merge_lookup vs : forall m k,
    foldl (merge_with id) m vs !! k
    = match m !! k with
      | Some w => Some w
      | None => first_with id k vs
      end.
Proof.
  induction vs as [|v vs IH]; intros m k.
  - cbn. destruct (m !! k); reflexivity.
  - cbn [foldl]. rewrite IH, merge_with_lookup.
    unfold first_with. rewrite filter_cons.
    destruct (m !! k) as [w|]; [reflexivity|].
    destruct (decide (id v = k)); reflexivity.
Qed.


End FirstWriteWins.

Lemma merge_region_with : merge_region = merge_with Region_ID.
Proof. reflexivity. Qed.

Lemma merge_style_with : merge_style = merge_with Style_ID.
Proof. reflexivity. Qed.


End MergeFacts.
Import MergeFacts.

Module UnfragmentFacts.

Lemma string_eqb_eq a : forall b, string_eqb a b = true <-> a = b.
Proof.
  induction a as [|x a IH]; intros [|y b]; cbn; try (split; congruence).
  rewrite andb_true_iff, IH.
  split.
  - intros [Hxy ->]. apply Ascii.eqb_eq in Hxy. congruence.
  - intros [= -> ->]. split; [apply Ascii.eqb_refl|reflexivity].
Qed.

(** The inner loop from [j] on is [absorb] on the entries from [j] on. *)
Lemma inner_absorb i pi : forall rest fuel h pre,
    (List.length rest < fuel)%nat ->
    pre !! i = Some pi ->
    unfragment_inner fuel h (pre ++ rest) i (List.length pre)
    = (r <- absorb h pi rest ;; Ok (fst r, pre ++ snd r)).
Proof.
  induction rest as [|pj rest IH]; intros fuel h pre Hfuel Hpi.
  - destruct fuel as [|fuel]; [cbn in Hfuel; lia|].
    cbn [unfragment_inner absorb bind fst snd].
    rewrite app_nil_r. rewrite Nat.ltb_irrefl. reflexivity.
  - destruct fuel as [|fuel]; [cbn in Hfuel; lia|].
    cbn [List.length] in Hfuel.
    cbn [unfragment_inner absorb].
    destruct (Nat.ltb_spec (List.length pre) (List.length (pre ++ pj :: rest)))
      as [_|Hbad]; [|rewrite length_app in Hbad; cbn in Hbad; lia].
    unfold at_index.
    rewrite (lookup_app_l pre) by (eapply lookup_lt_Some; exact Hpi).
    rewrite Hpi. cbn [bind].
    destruct (deref h pi) as [ii|e]; [|reflexivity]. cbn [bind].
    rewrite (list_lookup_middle pre rest pj (List.length pre) eq_refl). cbn [bind].
    destruct (deref h pj) as [ij|e]; [|reflexivity]. cbn [bind].
    fold (mergeable ii ij). destruct (mergeable ii ij).
    + rewrite take_app_length.
      replace (drop (S (List.length pre)) (pre ++ pj :: rest)) with rest.
      2:{ rewrite cons_middle, app_assoc.
          rewrite drop_app_length'; [reflexivity|].
          rewrite length_app. cbn. lia. }
      apply IH; [lia|exact Hpi].
    + replace (pre ++ pj :: rest) with ((pre ++ [pj]) ++ rest)
        by (rewrite <- app_assoc; reflexivity).
      replace (S (List.length pre)) with (List.length (pre ++ [pj]))
        by (rewrite length_app; cbn; lia).
      rewrite IH.
      * destruct (absorb h pi rest) as [[h' l']|e]; [|reflexivity].
        cbn [bind fst snd]. rewrite <- app_assoc. reflexivity.
      * lia.
      * rewrite lookup_app_l by (eapply lookup_lt_Some; exact Hpi). exact Hpi.
Qed.

Lemma absorb_length : forall rest h pi h' rest',
    absorb h pi rest = Ok (h', rest') ->
    (List.length rest' <= List.length rest)%nat.
Proof.
  induction rest as [|pj rest IH]; intros h pi h' rest' H.
  - injection H as <- <-. reflexivity.
  - cbn [absorb] in H.
    destruct (deref h pi) as [ii|e]; [|discriminate]. cbn [bind] in H.
    destruct (deref h pj) as [ij|e]; [|discriminate]. cbn [bind] in H.
    destruct (mergeable ii ij).
    + apply IH in H. cbn. lia.
    + destruct (absorb h pi rest) as [[h1 l1]|e] eqn:Ha; [|discriminate].
      cbn [bind fst snd] in H. injection H as <- <-.
      apply IH in Ha. cbn. lia.
Qed.

(** The outer loop from [i] on is [scan_ptrs] on the entries from [i] on. *)
Lemma outer_scan : forall fuel h done l,
    unfragment_outer fuel h (done ++ l) (List.length done)
    = (r <- scan_ptrs fuel h l ;; Ok (fst r, done ++ snd r)).
Proof.
  induction fuel as [|fuel IH]; intros h done l; [reflexivity|].
  cbn [unfragment_outer scan_ptrs].
  destruct l as [|p [|q rest]].
  - rewrite app_nil_r.
    destruct (Nat.ltb_spec (List.length done) (List.length done - 1)); [lia|].
    cbn [bind fst snd]. rewrite app_nil_r. reflexivity.
  - destruct (Nat.ltb_spec (List.length done) (List.length (done ++ [p]) - 1))
      as [Hbad|_]; [rewrite length_app in Hbad; cbn in Hbad; lia|].
    reflexivity.
  - destruct (Nat.ltb_spec (List.length done)
                (List.length (done ++ p :: q :: rest) - 1)) as [_|Hbad];
      [|rewrite length_app in Hbad; cbn in Hbad; lia].
    replace (done ++ p :: q :: rest) with ((done ++ [p]) ++ q :: rest)
      by (rewrite <- app_assoc; reflexivity).
    replace (S (List.length done)) with (List.length (done ++ [p]))
      by (rewrite length_app; cbn; lia).
    rewrite (inner_absorb (List.length done) p).
    + destruct (absorb h p (q :: rest)) as [[h1 l1]|e]; [|reflexivity].
      cbn [bind fst snd]. rewrite IH.
      destruct (scan_ptrs fuel h1 l1) as [[h2 l2]|e]; [|reflexivity].
      cbn [bind fst snd]. rewrite <- app_assoc. reflexivity.
    + rewrite length_app. cbn. lia.
    + apply list_lookup_middle. reflexivity.
Qed.
End UnfragmentFacts.
Import UnfragmentFacts.

Module ReadFacts.

Lemma reads_allocated h l xs : reads h l xs -> allocated h l.
Proof.
  intros H. induction H as [|p it l xs Hp _ IH]; constructor; [|exact IH].
  eapply lookup_lt_Some, Hp.
Qed.

Lemma read_reads h l xs : reads h l xs -> read h l = Ok xs.
Proof.
  intros H. induction H as [|p it l xs Hp _ IH]; [reflexivity|].
  cbn [read]. unfold deref. rewrite Hp. cbn [bind]. rewrite IH. reflexivity.
Qed.

Lemma reads_frame h h' l xs :
  (forall q, q ∈ l -> h' !! q = h !! q) -> reads h l xs -> reads h' l xs.
Proof.
  intros Hf H. induction H as [|p it l xs Hp _ IH]; constructor.
  - rewrite Hf by left. exact Hp.
  - apply IH. intros q Hq. apply Hf. right. exact Hq.
Qed.

Lemma reads_lookup h l xs p :
  reads h l xs -> p ∈ l -> exists it, h !! p = Some it /\ it ∈ xs.
Proof.
  intros H Hp. induction H as [|q it l xs Hq _ IH].
  - apply elem_of_nil in Hp. contradiction.
  - apply elem_of_cons in Hp as [->|Hp].
    + exists it. split; [exact Hq|left].
    + destruct (IH Hp) as (it' & H1 & H2). exists it'. split; [exact H1|right; exact H2].
Qed.

(** Reading a rearrangement of the pointers rearranges the items. *)
Lemma reads_perm h l l' xs :
  reads h l xs -> l' ≡ₚ l -> exists xs', reads h l' xs' /\ xs' ≡ₚ xs.
Proof.
  intros H Hp. revert xs H.
  induction Hp as [|p l1 l2 _ IH|p q l1|l1 l2 l3 _ IH1 _ IH2]; intros xs H.
  - inversion H; subst. exists []. split; [constructor|reflexivity].
  - inversion H as [|? it ? xs0 Hit Hrest]; subst.
    destruct (IH _ Hrest) as (xs' & H1 & H2).
    exists (it :: xs'). split; [constructor; assumption|rewrite H2; reflexivity].
  - inversion H as [|? ip ? xs0 Hip Hrest]; subst.
    inversion Hrest as [|? iq ? xs1 Hiq Hrest']; subst.
    exists (iq :: ip :: xs1).
    split; [repeat constructor; assumption|apply Permutation_swap].
  - destruct (IH2 _ H) as (xs2 & H1 & H2).
    destruct (IH1 _ H1) as (xs1 & H3 & H4).
    exists xs1. split; [exact H3|]. rewrite H4. exact H2.
Qed.

Lemma reads_start_of h l xs :
  reads h l xs -> Forall2 (fun p it => start_of h p = StartAt it) l xs.
Proof.
  intros H. induction H as [|p it l xs Hp _ IH]; constructor; [|exact IH].
  unfold start_of. rewrite Hp. reflexivity.
Qed.

Lemma reads_sorted h l xs :
  reads h l xs -> StronglySorted (start_le h) l -> Sorted starts_le xs.
Proof.
  intros H Hs. apply StronglySorted_Sorted.
  apply reads_start_of in H.
  induction H as [|p it l xs Hp Hrest IH]; [constructor|].
  apply StronglySorted_cons in Hs as [Hall Hs].
  apply StronglySorted_cons. split; [|apply IH, Hs].
  clear IH Hs. induction Hrest as [|q iq l xs Hq _ IH]; [constructor|].
  apply Forall_cons in Hall as [Hpq Hall].
  constructor; [|apply IH, Hall].
  unfold start_le, starts_le in *. lia.
Qed.

Lemma reads_starting_at h t l xs :
  reads h l xs ->
  reads h (starting_at h t l) (items_starting_at t xs).
Proof.
  intros H. induction H as [|p it l xs Hp _ IH]; [constructor|].
  unfold starting_at, items_starting_at in *. rewrite !filter_cons.
  assert (Hk : start_of h p = StartAt it) by (unfold start_of; rewrite Hp; reflexivity).
  rewrite Hk. case_decide; [constructor; assumption|exact IH].
Qed.

Lemma reads_fun h l xs ys : reads h l xs -> reads h l ys -> xs = ys.
Proof.
  intros H. revert ys. induction H as [|p it l xs Hp _ IH]; intros ys Hy.
  - inversion Hy. reflexivity.
  - inversion Hy as [|? it' ? ys' Hp' Hrest]; subst.
    f_equal; [congruence|apply IH, Hrest].
Qed.

(** What [Order] does, seen on the items. *)
Lemma Order_items h s xs :
  reads h (elems (Items s)) xs ->
  exists l' out,
    Order h s = Ok (set_Items s {| elems := l'; cap := cap (Items s) |})
    /\ l' ≡ₚ elems (Items s)
    /\ reads h l' out
    /\ out ≡ₚ xs
    /\ Sorted starts_le out
    /\ forall t, items_starting_at t out = items_starting_at t xs.
Proof.
  intros Hr.
  destruct (Order_spec h s (reads_allocated _ _ _ Hr)) as (l' & HO & Hperm & Hs & Hst).
  destruct (reads_perm h _ l' xs Hr Hperm) as (out & Hout & Hpo).
  exists l', out. split; [exact HO|]. split; [exact Hperm|].
  split; [exact Hout|]. split; [exact Hpo|].
  split; [eapply reads_sorted; eassumption|].
  intros t. eapply reads_fun.
  - apply reads_starting_at, Hout.
  - rewrite Hst. apply reads_starting_at, Hr.
Qed.
End ReadFacts.
Import ReadFacts.

Module UnfragmentValues.

(** [absorb] on a pointer that does not occur among the later entries
    is [absorb_items] on the items. *)
Lemma absorb_values : forall rest h pi x ys,
    h !! pi = Some x -> reads h rest ys -> pi ∉ rest ->
    exists h' rest',
      absorb h pi rest = Ok (h', rest')
      /\ h' !! pi = Some (fst (absorb_items x ys))
      /\ reads h' rest' (snd (absorb_items x ys))
      /\ (forall q, q <> pi -> h' !! q = h !! q)
      /\ rest' `sublist_of` rest.
Proof.
  induction rest as [|pj rest IH]; intros h pi x ys Hpi Hr Hnin.
  - inversion Hr; subst. exists h, []. cbn.
    repeat split; auto; constructor.
  - inversion Hr as [|? y ? ys' Hpj Hrest]; subst.
    apply not_elem_of_cons in Hnin as [Hne Hnin].
    cbn [absorb absorb_items]. unfold deref. rewrite Hpi, Hpj. cbn [bind].
    destruct (mergeable x y).
    + destruct (IH (<[pi := set_EndAt x (EndAt y)]> h) pi
                  (set_EndAt x (EndAt y)) ys') as (h' & rest' & Ha & Hp' & Hr' & Hf & Hsub).
      * apply list_lookup_insert_eq. eapply lookup_lt_Some, Hpi.
      * eapply reads_frame; [|exact Hrest].
        intros q Hq. apply list_lookup_insert_ne. intros ->. contradiction.
      * exact Hnin.
      * exists h', rest'. split; [exact Ha|]. split; [exact Hp'|].
        split; [exact Hr'|]. split.
        -- intros q Hq. rewrite Hf by exact Hq.
           apply list_lookup_insert_ne. congruence.
        -- apply sublist_cons, Hsub.
    + destruct (IH h pi x ys' Hpi Hrest Hnin) as (h' & rest' & Ha & Hp' & Hr' & Hf & Hsub).
      rewrite Ha. cbn [bind fst snd].
      exists h', (pj :: rest'). split; [reflexivity|]. split; [exact Hp'|].
      split; [|split; [exact Hf|apply sublist_skip, Hsub]].
      constructor; [|exact Hr']. rewrite Hf by congruence. exact Hpj.
Qed.

Lemma sublist_not_elem {A} (l l' : list A) x :
  l' `sublist_of` l -> x ∉ l -> x ∉ l'.
Proof. intros Hs Hx Hx'. apply Hx. eapply elem_of_sublist; eassumption. Qed.

(** [scan_ptrs] on pointers that are all different is [scan_items] on
    the items. *)
Lemma scan_values : forall fuel h l xs,
    reads h l xs -> NoDup l -> (List.length l <= fuel)%nat -> (1 <= fuel)%nat ->
    exists h' l',
      scan_ptrs fuel h l = Ok (h', l')
      /\ reads h' l' (scan_items fuel xs)
      /\ (forall q, q ∉ l -> h' !! q = h !! q)
      /\ l' `sublist_of` l.
Proof.
  induction fuel as [|fuel IH]; intros h l xs Hr Hnd Hlen Hfuel; [lia|].
  cbn [scan_ptrs scan_items].
  destruct Hr as [|p x l xs Hp Hr].
  { exists h, []. repeat split; auto; constructor. }
  destruct Hr as [|q y l xs Hq Hr].
  { exists h, [p]. split; [reflexivity|]. split; [repeat constructor; exact Hp|].
    split; [auto|reflexivity]. }
  apply NoDup_cons in Hnd as [Hnin Hnd].
  destruct (absorb_values (q :: l) h p x (y :: xs) Hp
              ltac:(constructor; assumption) Hnin)
    as (h1 & l1 & Ha & Hp1 & Hr1 & Hf1 & Hsub1).
  rewrite Ha. cbn [bind fst snd].
  pose proof (sublist_length _ _ Hsub1) as Hlen1.
  cbn [List.length] in Hlen, Hlen1.
  destruct (IH h1 l1 _ Hr1) as (h2 & l2 & Hs & Hr2 & Hf2 & Hsub2).
  { eapply sublist_NoDup; eassumption. }
  { lia. }
  { lia. }
  rewrite Hs. cbn [bind fst snd].
  exists h2, (p :: l2). split; [reflexivity|].
  split.
  { constructor; [|exact Hr2].
    rewrite Hf2; [exact Hp1|]. eapply sublist_not_elem; eassumption. }
  split.
  { intros r Hrn. apply not_elem_of_cons in Hrn as [Hne Hrn].
    rewrite Hf2 by (eapply sublist_not_elem; eassumption).
    apply Hf1, Hne. }
  apply sublist_skip. etransitivity; eassumption.
Qed.

Lemma last_cons_default {A} (y : A) ys d d' :
  List.last (y :: ys) d = List.last (y :: ys) d'.
Proof.
  revert y. induction ys as [|z ys IH]; intros y; [reflexivity|].
  change (List.last (y :: z :: ys) d) with (List.last (z :: ys) d).
  change (List.last (y :: z :: ys) d') with (List.last (z :: ys) d').
  apply IH.
Qed.

(** A run is taken in whole. *)
Lemma absorb_items_run : forall ys x,
    run_after x ys ->
    absorb_items x ys = (set_EndAt x (EndAt (List.last ys x)), []).
Proof.
  induction ys as [|y ys IH]; intros x Hrun.
  - cbn. destruct x; reflexivity.
  - destruct Hrun as (Htext & Hstart & Hrun).
    cbn [absorb_items]. unfold mergeable.
    assert (Ht : string_eqb (Item_String x) (Item_String y) = true)
      by (apply string_eqb_eq; congruence).
    rewrite Ht. destruct (Z.eqb_spec (EndAt x) (StartAt y)); [|congruence].
    cbn [andb]. rewrite IH by exact Hrun.
    f_equal. destruct ys as [|z ys].
    + reflexivity.
    + rewrite (last_cons_default z ys _ x).
      change (List.last (y :: z :: ys) x) with (List.last (z :: ys) x).
      reflexivity.
Qed.

Lemma merge_later_run x ys :
  run_after x ys ->
  merge_later (x :: ys) = [set_EndAt x (EndAt (List.last ys x))].
Proof.
  intros Hrun. unfold merge_later. cbn [List.length scan_items].
  destruct ys as [|y ys]; [destruct x; reflexivity|].
  rewrite absorb_items_run by exact Hrun. reflexivity.
Qed.


End UnfragmentValues.
Import UnfragmentValues.

Module CutFacts.

Lemma filter_ext_Forall {A} (P Q : A -> Prop)
    `{!forall x, Decision (P x)} `{!forall x, Decision (Q x)} (l : list A) :
  Forall (fun x => P x <-> Q x) l -> filter P l = filter Q l.
Proof.
  induction 1 as [|x l Hx _ IH]; [reflexivity|].
  rewrite !filter_cons, IH.
  destruct (decide (P x)), (decide (Q x)); tauto.
Qed.

Lemma filter_none {A} (P : A -> Prop) `{!forall x, Decision (P x)} (l : list A) :
  Forall (fun x => ~ P x) l -> filter P l = [].
Proof.
  induction 1 as [|x l Hx _ IH]; [reflexivity|].
  rewrite filter_cons, IH. destruct (decide (P x)); tauto.
Qed.

(** The passes cut at the boundaries [S + f], [S + 2f], ... that lie
    strictly inside the item. *)
Lemma cuts_loop_filter f : 0 < f -> forall fuel S y,
    cuts_loop fuel f S y
    = cut_at y (filter (fun b => StartAt y < b < EndAt y)
                       (map (fun j => S + Z.of_nat j * f) (seq 1 fuel))).
Proof.
  intros Hf. induction fuel as [|fuel IH]; intros S y; [reflexivity|].
  cbn [cuts_loop].
  assert (Hseq : map (fun j => S + Z.of_nat j * f) (seq 1 (Datatypes.S fuel))
                 = (S + f) :: map (fun j => (S + f) + Z.of_nat j * f) (seq 1 fuel)).
  { cbn [seq map]. f_equal; [lia|].
    rewrite <- seq_shift, map_map. apply map_ext. intros j. lia. }
  rewrite Hseq, filter_cons.
  assert (Hall : forall t, t <= S + f ->
             Forall (fun b => t < b)
                    (map (fun j => (S + f) + Z.of_nat j * f) (seq 1 fuel))).
  { intros t Ht. apply Forall_forall. intros b Hb.
    apply list_elem_of_In, in_map_iff in Hb as (j & <- & Hj).
    apply in_seq in Hj. nia. }
  destruct (Z.ltb_spec S (EndAt y)) as [Hlt|Hge].
  - destruct (Z.ltb_spec (StartAt y) (S + f)) as [H1|H1];
      destruct (Z.gtb_spec (EndAt y) (S + f)) as [H2|H2]; cbn [andb].
    + destruct (decide (StartAt y < S + f < EndAt y)) as [_|Hn]; [|lia].
      cbn [cut_at]. f_equal. rewrite IH. f_equal. cbn [StartAt EndAt set_StartAt].
      apply filter_ext_Forall.
      eapply Forall_impl; [apply (Hall (S + f)); lia|].
      cbn. intros b Hb. lia.
    + destruct (decide (StartAt y < S + f < EndAt y)) as [Hn|_]; [lia|]. apply IH.
    + destruct (decide (StartAt y < S + f < EndAt y)) as [Hn|_]; [lia|]. apply IH.
    + destruct (decide (StartAt y < S + f < EndAt y)) as [Hn|_]; [lia|]. apply IH.
  - destruct (decide (StartAt y < S + f < EndAt y)) as [Hn|_]; [lia|].
    rewrite filter_none; [reflexivity|].
    eapply Forall_impl; [apply (Hall S); lia|]. cbn. intros b Hb. lia.
Qed.

(** With enough passes, these are all the boundaries inside the item. *)
Lemma cuts_loop_fragments f fuel x :
  0 < f -> (Z.to_nat (EndAt x / f) <= fuel)%nat ->
  cuts_loop fuel f 0 x = fragments f x.
Proof.
  intros Hf Hfuel. rewrite cuts_loop_filter by exact Hf.
  unfold fragments, boundaries_in. f_equal.
  replace fuel with (Z.to_nat (EndAt x / f) + (fuel - Z.to_nat (EndAt x / f)))%nat
    at 1 by lia.
  rewrite seq_app, map_app, filter_app.
  set (n := Z.to_nat (EndAt x / f)) in *.
  assert (Hout : filter (fun b => StartAt x < b < EndAt x)
                   (map (fun j => 0 + Z.of_nat j * f) (seq (1 + n) (fuel - n))) = []).
  2:{ rewrite Hout, app_nil_r. reflexivity. }
  apply filter_none.
  - apply Forall_forall. intros b Hb. subst n.
    apply list_elem_of_In, in_map_iff in Hb as (j & <- & Hj).
    apply in_seq in Hj.
    assert (Hdiv : EndAt x < (EndAt x / f + 1) * f).
    { pose proof (Z.div_mod (EndAt x) f ltac:(lia)).
      pose proof (Z.mod_pos_bound (EndAt x) f Hf). nia. }
    assert (Hj' : EndAt x / f + 1 <= Z.of_nat j) by lia.
    assert (EndAt x < Z.of_nat j * f) by nia. lia.
Qed.

Lemma cuts_loop_starts f : 0 < f -> forall fuel S y,
    Forall (fun p => StartAt y <= StartAt p) (cuts_loop fuel f S y).
Proof.
  intros Hf. induction fuel as [|fuel IH]; intros S y.
  - repeat constructor. lia.
  - cbn [cuts_loop]. destruct (S <? EndAt y); [|repeat constructor; lia].
    destruct (Z.ltb_spec (StartAt y) (S + f)) as [H1|H1]; cbn [andb]; [|apply IH].
    destruct (EndAt y >? S + f); [|apply IH].
    constructor; [cbn; lia|].
    eapply Forall_impl; [apply IH|]. cbn. intros p Hp. lia.
Qed.

Lemma cuts_loop_sorted f : 0 < f -> forall fuel S y,
    StronglySorted starts_le (cuts_loop fuel f S y).
Proof.
  intros Hf. induction fuel as [|fuel IH]; intros S y.
  - repeat constructor.
  - cbn [cuts_loop]. destruct (S <? EndAt y); [|repeat constructor].
    destruct (Z.ltb_spec (StartAt y) (S + f)) as [H1|H1]; cbn [andb]; [|apply IH].
    destruct (EndAt y >? S + f); [|apply IH].
    apply StronglySorted_cons. split; [|apply IH].
    eapply Forall_impl; [apply (cuts_loop_starts f Hf)|].
    unfold starts_le. cbn. intros p Hp. lia.
Qed.


End CutFacts.
Import CutFacts.

Module FragmentFacts.
Section WithGrowslice.
Variable growslice : nat -> nat -> nat.

Lemma foldM_app {A B} (f : A -> B -> result A) l1 : forall l2 a,
  foldM f (l1 ++ l2) a = (a' <- foldM f l1 a ;; foldM f l2 a').
Proof.
induction l1 as [|b l1 IH]; intros l2 a; [reflexivity|].
cbn [app foldM]. destruct (f a b) as [a'|e]; [|reflexivity].
cbn [bind]. apply IH.
Qed.

(** A step at an item that holds neither end of the fragment only
  leaves a copy behind in the store. *)
Lemma step_inert S E st i p it :
rs_array st !! i = Some p -> rs_heap st !! p = Some it ->
contains S it = false -> contains E it = false ->
fragment_step growslice S E st i
= Ok {| rs_heap := rs_heap st ++ [it]; rs_array := rs_array st;
        rs_items := rs_items st; rs_shared := rs_shared st |}.
Proof.
intros Hp Hit H1 H2. unfold fragment_step, at_index, deref, contains in *.
rewrite Hp. cbn [bind]. rewrite Hit. cbn [bind new fst snd].
rewrite H1, H2. reflexivity.
Qed.

Lemma steps_inert S E : forall m i st,
  (forall j, (i <= j < i + m)%nat ->
     exists p it, rs_array st !! j = Some p /\ rs_heap st !! p = Some it
                  /\ contains S it = false /\ contains E it = false) ->
  exists g,
    foldM (fragment_step growslice S E) (seq i m) st
    = Ok {| rs_heap := rs_heap st ++ g; rs_array := rs_array st;
            rs_items := rs_items st; rs_shared := rs_shared st |}.
Proof.
induction m as [|m IH]; intros i st Hall.
- exists []. cbn. rewrite app_nil_r. destruct st; reflexivity.
- destruct (Hall i ltac:(lia)) as (p & it & Hp & Hit & H1 & H2).
  cbn [seq foldM]. rewrite (step_inert S E st i p it Hp Hit H1 H2). cbn [bind].
  destruct (IH (Datatypes.S i)
              {| rs_heap := rs_heap st ++ [it]; rs_array := rs_array st;
                 rs_items := rs_items st; rs_shared := rs_shared st |})
    as (g & Hg).
  + intros j Hj. destruct (Hall j ltac:(lia)) as (q & iq & Hq & Hiq & H3 & H4).
    exists q, iq. cbn [rs_heap rs_array]. split; [exact Hq|].
    split; [apply lookup_app_l_Some, Hiq|]. split; assumption.
  + exists (it :: g). rewrite Hg. cbn [rs_heap rs_array rs_items rs_shared].
    rewrite <- app_assoc. reflexivity.
Qed.

(** A step at an item that holds the end of the fragment, and not its
  start, puts the earlier half in front of it. *)
Lemma step_cut S E st i p it :
rs_array st !! i = Some p -> rs_heap st !! p = Some it ->
contains S it = false -> contains E it = true ->
(i <= List.length (elems (rs_items st)))%nat ->
exists arr cp sh,
  fragment_step growslice S E st i
  = Ok {| rs_heap := <[List.length (rs_heap st) := set_EndAt it E]>
                       (<[p := set_StartAt it E]> (rs_heap st ++ [it]));
          rs_array := arr;
          rs_items := {| elems := take i (elems (rs_items st))
                                    ++ List.length (rs_heap st)
                                    :: drop i (elems (rs_items st));
                         cap := cp |};
          rs_shared := sh |}.
Proof.
intros Hp Hit H1 H2 Hi. unfold fragment_step, at_index, deref, contains in *.
rewrite Hp. cbn [bind]. rewrite Hit. cbn [bind new fst snd].
rewrite H1, H2. unfold insert_at.
destruct (Nat.ltb_spec (List.length (elems (rs_items st))) i); [lia|].
destruct (_ <=? _)%nat; eexists _, _, _; reflexivity.
Qed.

(** One pass over a sequence whose items all end at or before the start
  of the fragment, but for the last one, which does not start before
  it. *)
Lemma pass_last S E h P ps py y cp :
S < E ->
reads h P ps -> h !! py = Some y -> NoDup (P ++ [py]) ->
Forall (fun p => EndAt p <= S) ps -> S <= StartAt y ->
exists st P' ps' y',
  fragment_pass growslice S E h {| elems := P ++ [py]; cap := cp |} = Ok st
  /\ elems (rs_items st) = P' ++ [py]
  /\ reads (rs_heap st) P' ps'
  /\ rs_heap st !! py = Some y'
  /\ NoDup (P' ++ [py])
  /\ (ps', y') = (if contains E y
                  then (ps ++ [set_EndAt y E], set_StartAt y E)
                  else (ps, y)).
Proof.
intros HSE Hr Hy Hnd Hends Hstart.
pose proof (Forall2_length _ _ _ Hr) as HlenP.
unfold fragment_pass. cbn [elems]. rewrite length_app. cbn [List.length].
rewrite Nat.add_1_r, seq_S, foldM_app. cbn [Nat.add].
destruct (steps_inert S E (List.length P) 0
            {| rs_heap := h; rs_array := P ++ [py];
               rs_items := {| elems := P ++ [py]; cap := cp |};
               rs_shared := true |}) as (g & Hg).
{ intros j Hj. cbn [rs_heap rs_array].
  destruct (lookup_lt_is_Some_2 P j ltac:(lia)) as [p Hp].
  destruct (Forall2_lookup_l _ _ _ _ _ Hr Hp) as (it & Hit & Hpit).
  exists p, it. split; [rewrite lookup_app_l by lia; exact Hp|].
  split; [exact Hpit|].
  rewrite Forall_forall in Hends.
  assert (Hend : EndAt it <= S)
    by (apply Hends; eapply list_elem_of_lookup_2; exact Hit).
  unfold contains.
  destruct (Z.gtb_spec (EndAt it) S); [lia|].
  destruct (Z.gtb_spec (EndAt it) E); [lia|].
  rewrite !andb_false_r. split; reflexivity. }
rewrite Hg. cbn [bind rs_heap rs_array rs_items rs_shared foldM].
assert (HS : contains S y = false).
{ unfold contains. destruct (Z.ltb_spec (StartAt y) S); [lia|reflexivity]. }
assert (Hpy : (P ++ [py]) !! List.length P = Some py)
  by (apply list_lookup_middle; reflexivity).
assert (Hy' : (h ++ g) !! py = Some y) by (apply lookup_app_l_Some, Hy).
assert (Halloc : forall q, q ∈ P ++ [py] -> (q < List.length h)%nat).
{ intros q Hq. apply elem_of_app in Hq as [Hq|Hq].
  - destruct (reads_lookup h P ps q Hr Hq) as (it & Hit & _).
    eapply lookup_lt_Some, Hit.
  - apply list_elem_of_singleton in Hq. subst. eapply lookup_lt_Some, Hy. }
destruct (contains E y) eqn:HE.
- destruct (step_cut S E
              {| rs_heap := h ++ g; rs_array := P ++ [py];
                 rs_items := {| elems := P ++ [py]; cap := cp |};
                 rs_shared := true |} (List.length P) py y Hpy Hy' HS HE)
    as (arr & cp' & sh & Hstep).
  { cbn. rewrite length_app. lia. }
  rewrite Hstep. cbn [bind rs_heap rs_items elems].
  rewrite take_app_length, drop_app_length.
  set (pn := List.length (h ++ g)).
  assert (Hpn : (List.length h <= pn)%nat)
    by (unfold pn; rewrite length_app; lia).
  eexists _, (P ++ [pn]), (ps ++ [set_EndAt y E]), (set_StartAt y E).
  split; [reflexivity|]. cbn [rs_heap rs_items elems].
  split; [rewrite <- app_assoc; reflexivity|].
  assert (Hpy_lt : (py < List.length h)%nat) by (apply Halloc; set_solver).
  split.
  { apply Forall2_app.
    - eapply reads_frame; [|exact Hr]. intros q Hq.
      assert (Hq_lt : (q < List.length h)%nat) by (apply Halloc; set_solver).
      assert (q <> py).
      { intros ->. apply NoDup_app in Hnd as (_ & Hd & _).
        apply (Hd py Hq). left. }
      rewrite list_lookup_insert_ne by lia.
      rewrite list_lookup_insert_ne by congruence.
      rewrite lookup_app_l by (rewrite length_app; lia).
      apply lookup_app_l. lia.
    - constructor; [|constructor].
      apply list_lookup_insert_eq.
      rewrite length_insert, length_app. cbn. unfold pn. lia. }
  split.
  { rewrite list_lookup_insert_ne by lia.
    apply list_lookup_insert_eq. rewrite !length_app. lia. }
  split; [|reflexivity].
  rewrite <- app_assoc. cbn [app].
  apply NoDup_app in Hnd as (HndP & Hd & _).
  apply NoDup_app. split; [exact HndP|]. split.
  { intros q Hq Hq2. apply elem_of_cons in Hq2 as [->|Hq2].
    - assert ((pn < List.length h)%nat) by (apply Halloc; set_solver). lia.
    - apply (Hd q Hq Hq2). }
  apply NoDup_cons. split; [|apply NoDup_singleton].
  intros Hq. apply list_elem_of_singleton in Hq. lia.
- rewrite (step_inert S E
             {| rs_heap := h ++ g; rs_array := P ++ [py];
                rs_items := {| elems := P ++ [py]; cap := cp |};
                rs_shared := true |} (List.length P) py y Hpy Hy' HS HE).
  cbn [bind].
  eexists _, P, ps, y. split; [reflexivity|]. cbn [rs_heap rs_items elems].
  split; [reflexivity|]. split.
  { eapply reads_frame; [|exact Hr]. intros q Hq.
    assert (Hq_lt : (q < List.length h)%nat) by (apply Halloc; set_solver).
    rewrite <- app_assoc. apply lookup_app_l. exact Hq_lt. }
  split; [rewrite <- app_assoc; apply lookup_app_l_Some, Hy|].
  split; [exact Hnd|reflexivity].
Qed.
End WithGrowslice.
End FragmentFacts.
Import FragmentFacts.

Module FragmentLoop.
Section WithGrowslice.
Variable growslice : nat -> nat -> nat.

Lemma reads_sorted_ptrs h l xs :
reads h l xs -> StronglySorted starts_le xs -> StronglySorted (start_le h) l.
Proof.
intros H Hs. apply reads_start_of in H.
induction H as [|p it l xs Hp Hrest IH]; [constructor|].
apply StronglySorted_cons in Hs as [Hall Hs].
apply StronglySorted_cons. split; [|apply IH, Hs].
clear IH Hs. induction Hrest as [|q iq l xs Hq _ IH]; [constructor|].
apply Forall_cons in Hall as [Hpq Hall].
constructor; [|apply IH, Hall].
unfold start_le, starts_le in *. lia.
Qed.

(** The passes over a sequence that ends with the item still to be
  cut, all items before it lying before the current fragment. *)
Lemma loop_last f : 0 < f -> forall fuel S E h P ps py y cp,
  EndAt y + f <= MaxInt64 -> 0 <= S ->
  (S < EndAt y -> E = S + f) ->
  (S <= StartAt y \/ EndAt y <= S) ->
  reads h P ps -> h !! py = Some y -> NoDup (P ++ [py]) ->
  Forall (fun p => EndAt p <= S) ps ->
  (1 <= fuel)%nat -> EndAt y - S <= (Z.of_nat fuel - 1) * f ->
  exists h' items',
    fragment_loop growslice fuel f S E h {| elems := P ++ [py]; cap := cp |}
    = Ok (h', items')
    /\ reads h' (elems items') (ps ++ cuts_loop fuel f S y).
Proof.
intros Hf. induction fuel as [|fuel IH];
  intros S E h P ps py y cp Hmax HS HE Hstart Hr Hy Hnd Hends Hfuel Hbound;
  [lia|].
cbn [fragment_loop cuts_loop elems].
rewrite length_app. cbn [List.length].
replace (List.length P + 1 - 1)%nat with (List.length P) by lia.
unfold at_index. rewrite list_lookup_middle by reflexivity. cbn [bind].
unfold deref. rewrite Hy. cbn [bind].
destruct (Z.ltb_spec S (EndAt y)) as [Hlt|Hge].
- specialize (HE Hlt). subst E.
  destruct Hstart as [Hstart|Hbad]; [|lia].
  destruct (pass_last growslice S (S + f) h P ps py y cp ltac:(lia)
              Hr Hy Hnd Hends Hstart)
    as (st & P' & ps' & y' & Hpass & Hel & Hr' & Hy' & Hnd' & Hres).
  rewrite Hpass. cbn [bind].
  destruct (rs_items st) as [el c'] eqn:Hitems. cbn [elems] in Hel. subst el.
  rewrite (wrap64_id (S + f)) by (unfold MinInt64, MaxInt64 in *; lia).
  assert (Hey : EndAt y' = EndAt y)
    by (destruct (contains (S + f) y); injection Hres as -> ->; reflexivity).
  destruct (IH (S + f) (wrap64 (S + f + f)) (rs_heap st) P' ps' py y' c')
    as (h' & items' & Hloop & Hread).
  + rewrite Hey. exact Hmax.
  + lia.
  + rewrite Hey. intros Hlt'. apply wrap64_id. unfold MinInt64, MaxInt64 in *. lia.
  + rewrite Hey. unfold contains in Hres.
    destruct (Z.ltb_spec (StartAt y) (S + f));
      destruct (Z.gtb_spec (EndAt y) (S + f)); cbn [andb] in Hres;
      injection Hres as -> ->; cbn; lia.
  + exact Hr'.
  + exact Hy'.
  + exact Hnd'.
  + destruct (contains (S + f) y); injection Hres as -> ->.
    * apply Forall_app. split.
      -- eapply Forall_impl; [exact Hends|]. cbn. intros; lia.
      -- repeat constructor. cbn. lia.
    * eapply Forall_impl; [exact Hends|]. cbn. intros; lia.
  + nia.
  + rewrite Hey. nia.
  + exists h', items'. split; [exact Hloop|].
    fold (contains (S + f) y).
    destruct (contains (S + f) y); injection Hres as -> ->.
    * rewrite <- app_assoc in Hread. exact Hread.
    * exact Hread.
- eexists _, _. split; [reflexivity|]. cbn [elems].
  apply Forall2_app; [exact Hr|]. repeat constructor. exact Hy.
Qed.

End WithGrowslice.

(** Which items a pass reads depends on the room left in the array of
    [s.Items]: an insertion that fits is done in the array the range
    reads, which then shows the item just cut once more and never the
    last one; one that does not fit leaves that array as it was.  With
    no room to spare both items are cut at 3s and 6s; with room to spare
    the second one is cut at 6s only. *)
Lemma Fragment_room_to_spare :
  let d := [text_item 0 7 "x"; text_item 0 7 "y"] in
  (exists h' s',
      Fragment double_cap 10 (3 * Second) (doc_store d) (doc_of d 2) = Ok (h', s')
      /\ read h' (elems (Items s'))
         = Ok [text_item 0 3 "x"; text_item 0 3 "y"; text_item 3 6 "x";
               text_item 3 6 "y"; text_item 6 7 "x"; text_item 6 7 "y"])
  /\ (exists h' s',
        Fragment double_cap 10 (3 * Second) (doc_store d) (doc_of d 8) = Ok (h', s')
        /\ read h' (elems (Items s'))
           = Ok [text_item 0 3 "x"; text_item 0 6 "y"; text_item 3 6 "x";
                 text_item 6 7 "x"; text_item 6 7 "y"]).
Proof.
  cbv zeta. split; eexists _, _; (split; [vm_compute; reflexivity|]);
    vm_compute; reflexivity.
Qed.
End FragmentLoop.
Import FragmentLoop.

Module CuttingFacts.




Lemma cutting_perm f xs a b : cutting f xs a -> a ≡ₚ b -> cutting f xs b.
Proof.
  intros H Hp. destruct H as [xs a Hxa|xs x rest k a Hc Hk Hin Ha].
  - apply cutting_same. etransitivity; eassumption.
  - eapply cutting_cut; try eassumption. etransitivity; eassumption.
Qed.

Lemma reads_app_inv h l1 l2 vs :
  reads h (l1 ++ l2) vs ->
  exists v1 v2, vs = v1 ++ v2 /\ reads h l1 v1 /\ reads h l2 v2.
Proof.
  intros H. apply Forall2_app_inv_l in H as (v1 & v2 & H1 & H2 & ->).
  exists v1, v2. auto.
Qed.

Lemma reads_take h l vs i : reads h l vs -> reads h (take i l) (take i vs).
Proof. apply Forall2_take. Qed.

Lemma reads_drop h l vs i : reads h l vs -> reads h (drop i l) (drop i vs).
Proof. apply Forall2_drop. Qed.

Lemma insert_before_last {A} (init : list A) i x pl :
  (i <= List.length init)%nat ->
  take i (init ++ [pl]) ++ x :: drop i (init ++ [pl])
  = (take i init ++ x :: drop i init) ++ [pl].
Proof.
  intros Hi. rewrite take_app_le, drop_app_le by exact Hi.
  rewrite <- app_assoc. reflexivity.
Qed.
End CuttingFacts.
Import CuttingFacts.

Module FragmentGeneral.
Section WithGrowslice.
Variable growslice : nat -> nat -> nat.

(** A step at an item that holds an end [b] of the fragment (the start,
  or else the end) puts the earlier half in front of the entry at
  [i]; the range goes on reading its own array, or the array of
  [s.Items] when that is still the same. *)
Lemma step_cut_at S E st i p it b :
rs_array st !! i = Some p -> rs_heap st !! p = Some it ->
(contains S it = true /\ b = S
 \/ contains S it = false /\ contains E it = true /\ b = E) ->
(i <= List.length (elems (rs_items st)))%nat ->
exists arr cp sh,
  fragment_step growslice S E st i
  = Ok {| rs_heap := <[List.length (rs_heap st) := set_EndAt it b]>
                       (<[p := set_StartAt it b]> (rs_heap st ++ [it]));
          rs_array := arr;
          rs_items := {| elems := take i (elems (rs_items st))
                                    ++ List.length (rs_heap st)
                                    :: drop i (elems (rs_items st));
                         cap := cp |};
          rs_shared := sh |}
  /\ (arr = rs_array st
      \/ arr = take i (elems (rs_items st))
                 ++ List.length (rs_heap st) :: drop i (elems (rs_items st))).
Proof.
intros Hp Hit Hb Hi. unfold fragment_step, at_index, deref.
rewrite Hp. cbn [bind]. rewrite Hit. cbn [bind new fst snd].
fold (contains S it). fold (contains E it).
assert (Hins : forall h3,
           exists arr cp sh,
             insert_at growslice st h3 i (List.length (rs_heap st))
             = Ok {| rs_heap := h3; rs_array := arr;
                     rs_items := {| elems := take i (elems (rs_items st))
                                               ++ List.length (rs_heap st)
                                               :: drop i (elems (rs_items st));
                                    cap := cp |};
                     rs_shared := sh |}
             /\ (arr = rs_array st
                 \/ arr = take i (elems (rs_items st))
                            ++ List.length (rs_heap st)
                            :: drop i (elems (rs_items st)))).
{ intros h3. unfold insert_at.
  destruct (Nat.ltb_spec (List.length (elems (rs_items st))) i); [lia|].
  destruct (_ <=? _)%nat.
  - destruct (rs_shared st); eexists _, _, _; split; try reflexivity; auto.
  - eexists _, _, _; split; try reflexivity; auto. }
destruct Hb as [[HS ->]|(HS & HE & ->)].
- rewrite HS. apply Hins.
- rewrite HS, HE. apply Hins.
Qed.

Lemma contains_true b it : contains b it = true -> StartAt it < b < EndAt it.
Proof.
unfold contains. intros H. apply andb_true_iff in H as [H1 H2].
apply Z.ltb_lt in H1. apply Z.gtb_lt in H2. lia.
Qed.

(** Cutting the item at [sub] at the multiple [k' * f] keeps
  [range_inv], whichever array the range reads afterwards. *)
Lemma cut_inv f xs n pl L st i sub it k' arr cp sh :
range_inv f xs n pl L st -> (i < n)%nat ->
sub ∈ elems (rs_items st) -> rs_heap st !! sub = Some it ->
0 <= k' -> StartAt it < k' * f < EndAt it ->
(arr = rs_array st
 \/ arr = take i (elems (rs_items st))
            ++ List.length (rs_heap st) :: drop i (elems (rs_items st))) ->
range_inv f xs n pl L
  {| rs_heap := <[List.length (rs_heap st) := set_EndAt it (k' * f)]>
                  (<[sub := set_StartAt it (k' * f)]> (rs_heap st ++ [it]));
     rs_array := arr;
     rs_items := {| elems := take i (elems (rs_items st))
                               ++ List.length (rs_heap st)
                               :: drop i (elems (rs_items st));
                    cap := cp |};
     rs_shared := sh |}.
Proof.
intros [Harr Hitems Hsub Hnd (vs & Hr & Hcut) (init & itl & Hinit & Hpl & HL)]
  Hi Hin Hit Hk' Hb Harr'.
assert (Halloc : forall q, q ∈ elems (rs_items st) ->
                           (q < List.length (rs_heap st))%nat).
{ intros q Hq. destruct (ReadFacts.reads_lookup _ _ _ _ Hr Hq) as (iq & Hiq & _).
  eapply lookup_lt_Some, Hiq. }
set (pn := List.length (rs_heap st)) in *.
set (items := elems (rs_items st)) in *.
set (h3 := <[pn := set_EndAt it (k' * f)]>
             (<[sub := set_StartAt it (k' * f)]> (rs_heap st ++ [it]))).
assert (Hfresh : pn ∉ items)
  by (intros Hq; apply Halloc in Hq; unfold pn in Hq; lia).
assert (Hperm : take i items ++ pn :: drop i items ≡ₚ pn :: items)
  by (rewrite <- Permutation_middle, take_drop; reflexivity).
assert (Hframe : forall q, q ∈ items -> q <> sub -> h3 !! q = rs_heap st !! q).
{ intros q Hq Hne. unfold h3.
  rewrite list_lookup_insert_ne by (intros ->; contradiction).
  rewrite list_lookup_insert_ne by congruence.
  apply lookup_app_l, Halloc, Hq. }
assert (Hsub3 : h3 !! sub = Some (set_StartAt it (k' * f))).
{ unfold h3. rewrite list_lookup_insert_ne by (intros ->; contradiction).
  apply list_lookup_insert_eq. rewrite length_app.
  pose proof (Halloc sub Hin). lia. }
assert (Hpn3 : h3 !! pn = Some (set_EndAt it (k' * f))).
{ unfold h3. apply list_lookup_insert_eq.
  rewrite length_insert, length_app. cbn. unfold pn. lia. }
assert (Hlen : List.length (take i items ++ pn :: drop i items)
               = Datatypes.S (List.length items)).
{ rewrite length_app. cbn [List.length]. rewrite length_take, length_drop. lia. }
constructor; cbn [rs_heap rs_array rs_items elems].
- destruct Harr' as [->| ->]; [exact Harr|]. rewrite Hlen. lia.
- rewrite Hlen. lia.
- intros q Hq. rewrite Hperm. destruct Harr' as [->| ->].
  + right. apply Hsub, Hq.
  + rewrite <- Hperm. exact Hq.
- rewrite Hperm. apply NoDup_cons. split; assumption.
- pose proof Hin as Hin'.
  apply list_elem_of_split in Hin' as (l1 & l2 & Hsplit).
  rewrite Hsplit in Hr.
  apply reads_app_inv in Hr as (v1 & v23 & -> & Hr1 & Hr2).
  inversion Hr2 as [|? it' ? v2 Hit' Hr2']; subst v23.
  assert (it' = it) by congruence. subst it'.
  rewrite Hsplit in Hnd.
  apply NoDup_app in Hnd as (Hnd1 & Hnd12 & Hnd2).
  apply NoDup_cons in Hnd2 as (Hnd2 & Hnd2').
  assert (Hr3 : reads h3 items (v1 ++ set_StartAt it (k' * f) :: v2)).
  { rewrite Hsplit. apply Forall2_app.
    - eapply ReadFacts.reads_frame; [|exact Hr1].
      intros q Hq. apply Hframe.
      + rewrite Hsplit. apply elem_of_app. left. exact Hq.
      + intros ->. apply (Hnd12 sub Hq). left.
    - constructor; [exact Hsub3|].
      eapply ReadFacts.reads_frame; [|exact Hr2'].
      intros q Hq. apply Hframe.
      + rewrite Hsplit. apply elem_of_app. right. right. exact Hq.
      + intros ->. contradiction. }
  exists (take i (v1 ++ set_StartAt it (k' * f) :: v2)
            ++ set_EndAt it (k' * f)
            :: drop i (v1 ++ set_StartAt it (k' * f) :: v2)).
  split.
  + apply Forall2_app; [apply reads_take, Hr3|].
    constructor; [exact Hpn3|apply reads_drop, Hr3].
  + eapply (cutting_cut f xs it (v1 ++ v2) k').
    * eapply cutting_perm; [exact Hcut|].
      rewrite <- Permutation_middle. reflexivity.
    * exact Hk'.
    * exact Hb.
    * rewrite <- Permutation_middle, take_drop.
      rewrite <- Permutation_middle. reflexivity.
- exists (take i init ++ pn :: drop i init).
  assert (Hpl_in : pl ∈ items)
    by (rewrite Hinit; apply elem_of_app; right; left).
  assert (Hshape : take i items ++ pn :: drop i items
                   = (take i init ++ pn :: drop i init) ++ [pl]).
  { rewrite Hinit. apply insert_before_last.
    rewrite Hinit, length_app in Hitems.
    cbn in Hitems. lia. }
  destruct (decide (pl = sub)) as [->|Hne].
  + exists (set_StartAt it (k' * f)). split; [exact Hshape|].
    split; [exact Hsub3|]. cbn. congruence.
  + exists itl. split; [exact Hshape|]. split; [|exact HL].
    rewrite Hframe; [exact Hpl|exact Hpl_in|exact Hne].
Qed.

(** A step of the range keeps [range_inv]. *)
Lemma step_inv f xs n pl L k st i :
0 <= k ->
range_inv f xs n pl L st -> (i < n)%nat ->
exists st',
  fragment_step growslice (k * f) ((k + 1) * f) st i = Ok st'
  /\ range_inv f xs n pl L st'.
Proof.
intros Hk Hinv Hi.
pose proof Hinv as [Harr Hitems Hsub Hnd (vs & Hr & Hcut) Hlast].
destruct (lookup_lt_is_Some_2 (rs_array st) i ltac:(lia)) as [sub Hsubi].
assert (Hin : sub ∈ elems (rs_items st))
  by (apply Hsub; eapply list_elem_of_lookup_2; exact Hsubi).
destruct (ReadFacts.reads_lookup _ _ _ _ Hr Hin) as (it & Hit & _).
destruct (contains (k * f) it) eqn:HS; [|destruct (contains ((k + 1) * f) it) eqn:HE].
- destruct (step_cut_at (k * f) ((k + 1) * f) st i sub it (k * f) Hsubi Hit)
    as (arr & cp & sh & Hstep & Harr'); [left; auto|lia|].
  rewrite Hstep. eexists. split; [reflexivity|].
  apply cut_inv; try assumption. apply contains_true, HS.
- destruct (step_cut_at (k * f) ((k + 1) * f) st i sub it ((k + 1) * f) Hsubi Hit)
    as (arr & cp & sh & Hstep & Harr'); [right; auto|lia|].
  rewrite Hstep. eexists. split; [reflexivity|].
  apply cut_inv; try assumption; [lia|]. apply contains_true, HE.
- rewrite (FragmentFacts.step_inert growslice _ _ st i sub it Hsubi Hit HS HE).
  eexists. split; [reflexivity|].
  destruct Hlast as (init & itl & Hinit & Hpl & HL).
  constructor; cbn [rs_heap rs_array rs_items]; try assumption.
  + exists vs. split; [|exact Hcut].
    eapply ReadFacts.reads_frame; [|exact Hr].
    intros q Hq. apply lookup_app_l.
    destruct (ReadFacts.reads_lookup _ _ _ _ Hr Hq) as (iq & Hiq & _).
    eapply lookup_lt_Some, Hiq.
  + exists init, itl. split; [exact Hinit|].
    split; [apply lookup_app_l_Some, Hpl|exact HL].
Qed.

(** The steps of a range keep [range_inv]. *)
Lemma steps_inv f xs n pl L k : 0 <= k -> forall idxs st,
  Forall (fun i => (i < n)%nat) idxs ->
  range_inv f xs n pl L st ->
  exists st',
    foldM (fragment_step growslice (k * f) ((k + 1) * f)) idxs st = Ok st'
    /\ range_inv f xs n pl L st'.
Proof.
intros Hk. induction idxs as [|i idxs IH]; intros st Hall Hinv.
- exists st. split; [reflexivity|exact Hinv].
- apply Forall_cons in Hall as [Hi Hall].
  destruct (step_inv f xs n pl L k st i Hk Hinv Hi) as (st1 & Hstep & Hinv1).
  cbn [foldM]. rewrite Hstep. cbn [bind]. apply IH; assumption.
Qed.
End WithGrowslice.
End FragmentGeneral.
Import FragmentGeneral.

Module FragmentCuts.
Section WithGrowslice.
Variable growslice : nat -> nat -> nat.

(** The state a range starts in keeps [range_inv] when the state the
  range before it ended in does. *)
Lemma range_inv_restart f xs n pl L st :
range_inv f xs n pl L st ->
range_inv f xs (List.length (elems (rs_items st))) pl L
  {| rs_heap := rs_heap st; rs_array := elems (rs_items st);
     rs_items := rs_items st; rs_shared := true |}.
Proof.
intros [_ _ _ Hnd Hr Hlast].
constructor; cbn [rs_heap rs_array rs_items]; auto.
Qed.


(** The range a document starts in. *)
Lemma range_inv_start f h items xs init pl xl :
reads h (elems items) xs -> NoDup (elems items) ->
elems items = init ++ [pl] -> h !! pl = Some xl ->
range_inv f xs (List.length (elems items)) pl (EndAt xl)
  {| rs_heap := h; rs_array := elems items;
     rs_items := items; rs_shared := true |}.
Proof.
intros Hr Hnd Hinit Hpl.
constructor; cbn [rs_heap rs_array rs_items]; auto.
- exists xs. split; [exact Hr|]. apply cutting_same. reflexivity.
- exists init, xl. auto.
Qed.

Lemma fuel_bound f L (fuel : nat) :
0 < f -> (Z.to_nat (L / f) + 2 <= fuel)%nat ->
L - 0 * f <= (Z.of_nat fuel - 1) * f.
Proof.
intros Hf Hfuel.
destruct (Z.le_gt_cases L 0) as [Hneg|Hpos]; [nia|].
pose proof (Z.div_mod L f ltac:(lia)).
pose proof (Z.mod_pos_bound L f Hf).
assert (0 <= L / f) by (apply Z.div_pos; lia).
assert (L / f + 1 <= Z.of_nat fuel - 1) by lia. nia.
Qed.

End WithGrowslice.
End FragmentCuts.
Import FragmentCuts.

(** * Further properties of the package *)

Module AddFacts.

Lemma wrap64_add_l x y : wrap64 (wrap64 x + y) = wrap64 (x + y).
Proof.
  unfold wrap64. f_equal.
  replace ((x + 2 ^ 63) mod 2 ^ 64 - 2 ^ 63 + y + 2 ^ 63)
    with ((x + 2 ^ 63) mod 2 ^ 64 + y) by lia.
  rewrite Zplus_mod_idemp_l. f_equal. lia.
Qed.

Lemma wrap64_add_r x y : wrap64 (x + wrap64 y) = wrap64 (x + y).
Proof. rewrite (Z.add_comm x), wrap64_add_l. f_equal. lia. Qed.

Lemma shifted_shifted d1 d2 it :
  shifted d2 (shifted d1 it) = shifted (wrap64 (d1 + d2)) it.
Proof.
  unfold shifted, set_StartAt, set_EndAt. cbn.
  rewrite !wrap64_add_l, !wrap64_add_r, !Z.add_assoc. reflexivity.
Qed.

Lemma shifted_0 it : int64_item it -> shifted 0 it = it.
Proof.
  intros [Hs He]. unfold shifted, set_StartAt, set_EndAt. cbn.
  rewrite !Z.add_0_r, !wrap64_id by assumption. destruct it; reflexivity.
Qed.

Lemma iter_swap {A} (f g : A -> A) n :
  (forall x, f (g x) = g (f x)) ->
  forall x, f (Nat.iter n g x) = Nat.iter n g (f x).
Proof.
  intros Hc x. induction n as [|n IH]; [reflexivity|].
  rewrite !Nat.iter_succ, Hc, IH. reflexivity.
Qed.

Lemma iter_shifted_shifted d1 d2 n it :
  Nat.iter n (shifted d2) (Nat.iter n (shifted d1) it)
  = Nat.iter n (shifted (wrap64 (d1 + d2))) it.
Proof.
  induction n as [|n IH]; [reflexivity|].
  rewrite !Nat.iter_succ, <- IH, <- shifted_shifted. f_equal.
  symmetry. apply iter_swap. intros x.
  rewrite !shifted_shifted. f_equal. f_equal. lia.
Qed.

Lemma add_step_Some d h v it :
  h !! v = Some it -> add_step d h v = Ok (<[v := shifted d it]> h).
Proof. intros H. unfold add_step, deref. rewrite H. reflexivity. Qed.

Lemma occurrences_cons p v l :
  occurrences p (v :: l)
  = if decide (v = p) then S (occurrences p l) else occurrences p l.
Proof.
  unfold occurrences. rewrite filter_cons. destruct (decide (v = p)); reflexivity.
Qed.

Lemma occurrences_0 p l : p ∉ l -> occurrences p l = 0%nat.
Proof.
  induction l as [|v l IH]; intros Hp; [reflexivity|].
  rewrite occurrences_cons. apply not_elem_of_cons in Hp as [Hne Hp].
  destruct (decide (v = p)); [congruence|]. apply IH, Hp.
Qed.

Lemma occurrences_1 p l : NoDup l -> p ∈ l -> occurrences p l = 1%nat.
Proof.
  induction 1 as [|v l Hv Hnd IH]; intros Hp.
  - apply elem_of_nil in Hp. contradiction.
  - rewrite occurrences_cons. destruct (decide (v = p)) as [->|Hne].
    + rewrite occurrences_0 by exact Hv. reflexivity.
    + apply elem_of_cons in Hp as [Hp|Hp]; [congruence|]. apply IH, Hp.
Qed.

(** The loop of [Add] over the entries [l]. *)
Lemma add_loop d : forall l h,
    allocated h l ->
    exists h',
      foldM (add_step d) l h = Ok h'
      /\ List.length h' = List.length h
      /\ forall p it, h !! p = Some it ->
           h' !! p = Some (Nat.iter (occurrences p l) (shifted d) it).
Proof.
  induction l as [|v l IH]; intros h Hall.
  - exists h. repeat split; auto.
  - apply Forall_cons in Hall as [Hv Hall].
    destruct (lookup_lt_is_Some_2 h v Hv) as [iv Hiv].
    cbn [foldM]. rewrite (add_step_Some d h v iv Hiv). cbn [bind].
    destruct (IH (<[v := shifted d iv]> h)) as (h' & Hrun & Hlen & Hlook).
    { unfold allocated in *. eapply Forall_impl; [exact Hall|].
      cbn. intros q Hq. rewrite length_insert. exact Hq. }
    exists h'. split; [exact Hrun|].
    split; [rewrite Hlen; apply length_insert|].
    intros p it Hp. rewrite occurrences_cons.
    destruct (decide (v = p)) as [->|Hne].
    + rewrite Nat.iter_succ_r. apply Hlook.
      rewrite list_lookup_insert_eq by exact Hv. congruence.
    + apply Hlook. rewrite list_lookup_insert_ne by exact Hne. exact Hp.
Qed.

(** An entry that points nowhere stops the loop. *)
Lemma add_loop_nil d : forall l h,
    ~ allocated h l ->
    foldM (add_step d) l h = Err (Panic (str "nil pointer dereference")).
Proof.
  induction l as [|v l IH]; intros h Hall.
  - exfalso. apply Hall. constructor.
  - cbn [foldM]. destruct (h !! v) as [iv|] eqn:Hiv.
    + rewrite (add_step_Some d h v iv Hiv). cbn [bind]. apply IH.
      intros Hall'. apply Hall. constructor.
      * eapply lookup_lt_Some, Hiv.
      * unfold allocated in *. eapply Forall_impl; [exact Hall'|].
        cbn. intros q Hq. rewrite length_insert in Hq. exact Hq.
    + unfold add_step, deref. rewrite Hiv. reflexivity.
Qed.

(** X1: [Add d] moves the boundaries of every item by [d], once for each
    entry of the slice that points to it, and touches nothing else; on
    a nil entry it panics. *)
Theorem Add_shifts d h s :
  (allocated h (elems (Items s)) ->
   exists h',
     Add d h s = Ok h'
     /\ List.length h' = List.length h
     /\ forall p it, h !! p = Some it ->
          h' !! p = Some (Nat.iter (occurrences p (elems (Items s)))
                            (shifted d) it))
  /\ (~ allocated h (elems (Items s)) ->
      Add d h s = Err (Panic (str "nil pointer dereference"))).
Proof. split; [apply add_loop|apply add_loop_nil]. Qed.

(** On distinct entries the items read are the shifted items. *)
Lemma add_loop_reads d h l xs h' :
  reads h l xs -> NoDup l ->
  (forall p it, h !! p = Some it ->
     h' !! p = Some (Nat.iter (occurrences p l) (shifted d) it)) ->
  reads h' l (shifted d <$> xs).
Proof.
  intros Hr Hnd Hlook.
  assert (Hone : forall p, p ∈ l -> occurrences p l = 1%nat)
    by (intros p; apply occurrences_1, Hnd).
  assert (Hgen : forall l0 xs0, reads h l0 xs0 -> (forall p, p ∈ l0 -> p ∈ l) ->
                                reads h' l0 (shifted d <$> xs0)).
  { intros l0 xs0 H0. induction H0 as [|p it l0 xs0 Hp _ IH]; intros Hsub.
    - constructor.
    - cbn [fmap list_fmap]. constructor.
      + rewrite (Hlook p it Hp), Hone by (apply Hsub; left). reflexivity.
      + apply IH. intros q Hq. apply Hsub. right. exact Hq. }
  apply Hgen; auto.
Qed.

(** X2: two shifts in a row are one shift by the sum, computed as Go
    computes it. *)
Theorem Add_Add d1 d2 h s :
  allocated h (elems (Items s)) ->
  exists h1 h2,
    Add d1 h s = Ok h1 /\ Add d2 h1 s = Ok h2
    /\ Add (wrap64 (d1 + d2)) h s = Ok h2.
Proof.
  intros Hall. unfold Add.
  destruct (add_loop d1 _ h Hall) as (h1 & H1 & Hlen1 & Hlook1).
  assert (Hall1 : allocated h1 (elems (Items s)))
    by (unfold allocated in *; rewrite Hlen1; exact Hall).
  destruct (add_loop d2 _ h1 Hall1) as (h2 & H2 & Hlen2 & Hlook2).
  destruct (add_loop (wrap64 (d1 + d2)) _ h Hall) as (h3 & H3 & Hlen3 & Hlook3).
  exists h1, h2. split; [exact H1|]. split; [exact H2|].
  rewrite H3. f_equal. apply list_eq. intros p.
  destruct (h !! p) as [it|] eqn:Hp.
  - rewrite (Hlook3 p it Hp), (Hlook2 p _ (Hlook1 p it Hp)).
    rewrite iter_shifted_shifted. reflexivity.
  - apply lookup_ge_None in Hp.
    rewrite (proj2 (lookup_ge_None h3 p)), (proj2 (lookup_ge_None h2 p)) by lia.
    reflexivity.
Qed.

Lemma iter_id {A} (f : A -> A) n x : f x = x -> Nat.iter n f x = x.
Proof.
  intros Hf. induction n as [|n IH]; [reflexivity|].
  rewrite Nat.iter_succ, IH. exact Hf.
Qed.

(** X3: shifting by [d] and then by [-d] gives the store back, also when
    the boundaries wrap around on the way. *)
Theorem Add_undo d h s :
  allocated h (elems (Items s)) ->
  (forall p it, p ∈ elems (Items s) -> h !! p = Some it -> int64_item it) ->
  exists h1,
    Add d h s = Ok h1 /\ Add (wrap64 (- d)) h1 s = Ok h.
Proof.
  intros Hall Hint. unfold Add.
  destruct (add_loop d _ h Hall) as (h1 & H1 & Hlen1 & Hlook1).
  assert (Hall1 : allocated h1 (elems (Items s)))
    by (unfold allocated in *; rewrite Hlen1; exact Hall).
  destruct (add_loop (wrap64 (- d)) _ h1 Hall1) as (h2 & H2 & Hlen2 & Hlook2).
  exists h1. split; [exact H1|]. rewrite H2. f_equal.
  apply list_eq. intros p.
  destruct (h !! p) as [it|] eqn:Hp.
  - rewrite (Hlook2 p _ (Hlook1 p it Hp)), iter_shifted_shifted.
    destruct (decide (p ∈ elems (Items s))) as [Hin|Hout].
    + rewrite wrap64_add_r. replace (d + - d) with 0 by lia.
      change (wrap64 0) with 0.
      rewrite iter_id; [reflexivity|]. apply shifted_0. eapply Hint; eassumption.
    + rewrite occurrences_0 by exact Hout. reflexivity.
  - apply lookup_ge_None in Hp. apply lookup_ge_None. lia.
Qed.

(** X4: [Add d] moves the duration of a document by [d], except that the
    duration of an empty document stays 0. *)
Theorem Add_Duration d h s :
  allocated h (elems (Items s)) -> NoDup (elems (Items s)) ->
  exists h' cur,
    Add d h s = Ok h' /\ Duration h s = Ok cur
    /\ Duration h' s = Ok (if IsEmpty s then 0 else wrap64 (cur + d)).
Proof.
  intros Hall Hnd. unfold Add.
  destruct (add_loop d _ h Hall) as (h' & Hrun & Hlen & Hlook).
  exists h'. unfold IsEmpty.
  destruct (elems (Items s)) as [|x l] eqn:Hl using rev_ind.
  - exists 0. split; [exact Hrun|].
    rewrite !Duration_nil by exact Hl. auto.
  - clear IHl. pose proof Hall as Hall'.
    apply Forall_app in Hall' as [_ Hx]. apply Forall_cons in Hx as [Hx _].
    destruct (lookup_lt_is_Some_2 h x Hx) as [it Hit].
    exists (EndAt it). split; [exact Hrun|].
    split; [eapply Duration_last; eassumption|].
    rewrite length_app. cbn [List.length].
    destruct (Nat.eqb_spec (List.length l + 1) 0); [lia|].
    eapply (Duration_last h' s l x (shifted d it)); [exact Hl|].
    rewrite (Hlook x it Hit), occurrences_1; [reflexivity|exact Hnd|].
    apply elem_of_app. right. left.
Qed.

Lemma shifted_StartAt d it : StartAt (shifted d it) = wrap64 (StartAt it + d).
Proof. reflexivity. Qed.

(** X5: [Add d] keeps a document in the order of its starts as long as no
    start wraps around; [Order] then has nothing to do. *)
Theorem Add_keeps_order d h s xs :
  reads h (elems (Items s)) xs -> NoDup (elems (Items s)) ->
  Sorted starts_le xs ->
  Forall (fun it => in_int64 (StartAt it + d)) xs ->
  exists h',
    Add d h s = Ok h'
    /\ reads h' (elems (Items s)) (shifted d <$> xs)
    /\ Sorted starts_le (shifted d <$> xs)
    /\ Order h' s = Ok s.
Proof.
  intros Hr Hnd Hs Hin. unfold Add.
  destruct (add_loop d _ h (reads_allocated _ _ _ Hr)) as (h' & Hrun & Hlen & Hlook).
  exists h'. split; [exact Hrun|].
  pose proof (add_loop_reads d h _ xs h' Hr Hnd Hlook) as Hr'.
  split; [exact Hr'|].
  assert (Htrans : Transitive starts_le) by (intros a b c; unfold starts_le; lia).
  assert (Hss : StronglySorted starts_le (shifted d <$> xs)).
  { apply Sorted_StronglySorted in Hs; [|exact Htrans].
    clear Hr Hr'. induction Hs as [|x xs Hs IH Hall]; [constructor|].
    apply Forall_cons in Hin as [Hx Hin].
    cbn [fmap list_fmap]. constructor; [apply IH, Hin|].
    apply Forall_fmap. rewrite Forall_forall in Hall, Hin.
    apply Forall_forall. intros y Hy. cbn. unfold starts_le.
    rewrite !shifted_StartAt, !wrap64_id by first [exact Hx | apply (Hin y Hy)].
    specialize (Hall y Hy). unfold starts_le in Hall. lia. }
  split; [apply StronglySorted_Sorted, Hss|].
  apply Order_sorted_id.
  - eapply reads_allocated, Hr'.
  - eapply reads_sorted_ptrs; eassumption.
Qed.

Lemma Add_Add_witness :
  let xs := [text_item 0 2 "a"; text_item 2 4 "b"] in
  allocated (doc_store xs) (elems (Items (doc_of xs 2)))
  /\ exists h1 h2,
      Add (1 * Second) (doc_store xs) (doc_of xs 2) = Ok h1
      /\ Add (2 * Second) h1 (doc_of xs 2) = Ok h2
      /\ Add (wrap64 (1 * Second + 2 * Second)) (doc_store xs) (doc_of xs 2)
         = Ok h2.
Proof.
  cbv zeta.
  assert (H : allocated (doc_store [text_item 0 2 "a"; text_item 2 4 "b"])
                (elems (Items (doc_of [text_item 0 2 "a"; text_item 2 4 "b"] 2))))
    by (repeat constructor).
  split; [exact H|].
  exact (Add_Add (1 * Second) (2 * Second) _ _ H).
Defined.

Lemma Add_undo_witness :
  let xs := [text_item 0 2 "a"; text_item 2 4 "b"] in
  (allocated (doc_store xs) (elems (Items (doc_of xs 2)))
   /\ (forall p it, p ∈ elems (Items (doc_of xs 2)) ->
                    doc_store xs !! p = Some it -> int64_item it))
  /\ exists h1,
      Add (- (3 * Second)) (doc_store xs) (doc_of xs 2) = Ok h1
      /\ Add (wrap64 (- - (3 * Second))) h1 (doc_of xs 2) = Ok (doc_store xs).
Proof.
  cbv zeta.
  assert (H : allocated (doc_store [text_item 0 2 "a"; text_item 2 4 "b"])
                (elems (Items (doc_of [text_item 0 2 "a"; text_item 2 4 "b"] 2))))
    by (repeat constructor).
  assert (H2 : forall p it,
             p ∈ elems (Items (doc_of [text_item 0 2 "a"; text_item 2 4 "b"] 2)) ->
             doc_store [text_item 0 2 "a"; text_item 2 4 "b"] !! p = Some it ->
             int64_item it).
  { intros p it _ Hp.
    destruct p as [|[|p]]; cbn in Hp; [| |discriminate];
      injection Hp as <-; split; vm_compute; split; discriminate. }
  split; [split; [exact H|exact H2]|].
  exact (Add_undo (- (3 * Second)) _ _ H H2).
Defined.

Lemma Add_Duration_witness :
  let xs := [text_item 0 2 "a"; text_item 2 4 "b"] in
  (allocated (doc_store xs) (elems (Items (doc_of xs 2)))
   /\ NoDup (elems (Items (doc_of xs 2))))
  /\ exists h' cur,
      Add (1 * Second) (doc_store xs) (doc_of xs 2) = Ok h'
      /\ Duration (doc_store xs) (doc_of xs 2) = Ok cur
      /\ Duration h' (doc_of xs 2)
         = Ok (if IsEmpty (doc_of xs 2) then 0 else wrap64 (cur + 1 * Second)).
Proof.
  cbv zeta.
  assert (H : allocated (doc_store [text_item 0 2 "a"; text_item 2 4 "b"])
                (elems (Items (doc_of [text_item 0 2 "a"; text_item 2 4 "b"] 2))))
    by (repeat constructor).
  assert (H2 : NoDup (elems (Items (doc_of [text_item 0 2 "a"; text_item 2 4 "b"] 2))))
    by (apply NoDup_seq).
  split; [split; [exact H|exact H2]|].
  exact (Add_Duration (1 * Second) _ _ H H2).
Defined.

Lemma Add_keeps_order_witness :
  let xs := [text_item 0 2 "a"; text_item 2 4 "b"] in
  (reads (doc_store xs) (elems (Items (doc_of xs 2))) xs
   /\ NoDup (elems (Items (doc_of xs 2)))
   /\ Sorted starts_le xs
   /\ Forall (fun it => in_int64 (StartAt it + 1 * Second)) xs)
  /\ exists h',
      Add (1 * Second) (doc_store xs) (doc_of xs 2) = Ok h'
      /\ reads h' (elems (Items (doc_of xs 2))) (shifted (1 * Second) <$> xs)
      /\ Sorted starts_le (shifted (1 * Second) <$> xs)
      /\ Order h' (doc_of xs 2) = Ok (doc_of xs 2).
Proof.
  cbv zeta.
  assert (H1 : reads (doc_store [text_item 0 2 "a"; text_item 2 4 "b"])
                 (elems (Items (doc_of [text_item 0 2 "a"; text_item 2 4 "b"] 2)))
                 [text_item 0 2 "a"; text_item 2 4 "b"])
    by (repeat constructor).
  assert (H2 : NoDup (elems (Items (doc_of [text_item 0 2 "a"; text_item 2 4 "b"] 2))))
    by (apply NoDup_seq).
  assert (H3 : Sorted starts_le [text_item 0 2 "a"; text_item 2 4 "b"])
    by (repeat constructor; vm_compute; discriminate).
  assert (H4 : Forall (fun it => in_int64 (StartAt it + 1 * Second))
                 [text_item 0 2 "a"; text_item 2 4 "b"])
    by (repeat constructor; vm_compute; discriminate).
  split; [auto 10|].
  exact (Add_keeps_order (1 * Second) _ _ _ H1 H2 H3 H4).
Defined.
End AddFacts.
Import AddFacts.

Module ForceItems.

Lemma Duration_reads h s xs :
  reads h (elems (Items s)) xs -> Duration h s = Ok (duration_of xs).
Proof.
  intros Hr. unfold duration_of.
  destruct xs as [|x xs _] using rev_ind.
  - apply Forall2_nil_inv_r in Hr. apply Duration_nil, Hr.
  - apply Forall2_app_inv_r in Hr as (l & lx & Hl & Hx & Heq).
    inversion Hx as [|p ? ? ? Hp Hnil]; subst. inversion Hnil; subst.
    rewrite last_snoc. eapply Duration_last; eassumption.
Qed.

(** The scan of [ForceDuration] over distinct entries: it stops at the
    first item that starts at [d] or later and has cut off the items
    before it. *)
Lemma force_scan_kept d : forall l h k xs,
    reads h l xs -> NoDup l ->
    exists h1,
      force_scan d h l k
      = Ok (h1, if (List.length (kept_before d xs) <? List.length l)%nat
                then Some (k + List.length (kept_before d xs))%nat else None)
      /\ List.length h1 = List.length h
      /\ reads h1 (take (List.length (kept_before d xs)) l) (kept_before d xs)
      /\ (forall q, q ∉ take (List.length (kept_before d xs)) l ->
                    h1 !! q = h !! q).
Proof.
  induction l as [|i l IH]; intros h k xs Hr Hnd.
  - apply Forall2_nil_inv_l in Hr. subst xs. exists h. cbn.
    repeat split; auto. constructor.
  - inversion Hr as [|? it ? xs' Hi Hr']; subst.
    apply NoDup_cons in Hnd as [Hil Hnd].
    cbn [force_scan kept_before]. unfold deref. rewrite Hi. cbn [bind].
    destruct (StartAt it >=? d).
    + exists h. cbn [List.length take]. rewrite Nat.add_0_r.
      repeat split; auto. constructor.
    + set (h' := if EndAt it >? d then <[i := set_EndAt it d]> h else h).
      assert (Hi' : h' !! i = Some (clipped d it)).
      { unfold h', clipped. destruct (EndAt it >? d); [|exact Hi].
        apply list_lookup_insert_eq. eapply lookup_lt_Some, Hi. }
      assert (Hframe : forall q, q <> i -> h' !! q = h !! q).
      { intros q Hq. unfold h'. destruct (EndAt it >? d); [|reflexivity].
        apply list_lookup_insert_ne. congruence. }
      assert (Hlen : List.length h' = List.length h).
      { unfold h'. destruct (EndAt it >? d); [apply length_insert|reflexivity]. }
      destruct (IH h' (S k) xs') as (h1 & Hscan & Hlen1 & Hr1 & Hframe1).
      { eapply reads_frame; [|exact Hr'].
        intros q Hq. apply Hframe. intros ->. contradiction. }
      { exact Hnd. }
      exists h1. cbn [List.length take].
      split.
      { transitivity (force_scan d h' l (S k));
          [unfold h'; destruct (EndAt it >? d); reflexivity|].
        rewrite Hscan. f_equal. f_equal.
        change (S ?a <? S ?b)%nat with (a <? b)%nat.
        destruct (_ <? _)%nat; [f_equal; lia|reflexivity]. }
      split; [lia|]. split.
      * constructor; [|exact Hr1].
        rewrite Hframe1; [exact Hi'|].
        intros Hq. apply Hil. eapply subseteq_take, Hq.
      * intros q Hq. apply not_elem_of_cons in Hq as [Hne Hq].
        rewrite Hframe1 by exact Hq. apply Hframe, Hne.
Qed.

Lemma kept_before_length d xs :
  (List.length (kept_before d xs) <= List.length xs)%nat.
Proof.
  induction xs as [|x xs IH]; [reflexivity|].
  cbn. destruct (StartAt x >=? d); cbn; lia.
Qed.

(** What [ForceDuration] leaves in a document of distinct entries, in
    terms of the items read. *)
Lemma ForceDuration_read growslice d h s xs :
  reads h (elems (Items s)) xs -> NoDup (elems (Items s)) ->
  exists h' s',
    ForceDuration growslice d h s = Ok (h', s')
    /\ read h' (elems (Items s'))
       = Ok ((if d <? duration_of xs then kept_before d xs else xs)
             ++ (if duration_of (if d <? duration_of xs
                                 then kept_before d xs else xs) <? d
                 then [dummy_item d] else [])).
Proof.
  intros Hr Hnd. unfold ForceDuration.
  rewrite (Duration_reads h s xs Hr). cbn [bind].
  assert (Hdummy : forall h1 s1 ys,
             reads h1 (elems (Items s1)) ys ->
             exists h' s',
               (cur1 <- Duration h1 s1 ;;
                if cur1 <? d then
                  let hp := new h1 (dummy_item d) in
                  Ok (fst hp, set_Items s1 (append growslice (Items s1) [snd hp]))
                else Ok (h1, s1)) = Ok (h', s')
               /\ read h' (elems (Items s'))
                  = Ok (ys ++ (if duration_of ys <? d then [dummy_item d] else []))).
  { intros h1 s1 ys Hys. rewrite (Duration_reads h1 s1 ys Hys). cbn [bind].
    destruct (duration_of ys <? d).
    - eexists _, _. split; [reflexivity|]. apply read_reads.
      cbn [fst snd new Items set_Items].
      assert (Hel : elems (append growslice (Items s1) [List.length h1])
                    = elems (Items s1) ++ [List.length h1])
        by (unfold append; destruct (_ <=? _)%nat; reflexivity).
      rewrite Hel. apply Forall2_app.
      + eapply reads_frame; [|exact Hys].
        intros q Hq. apply lookup_app_l.
        destruct (reads_lookup _ _ _ _ Hys Hq) as (iq & Hiq & _).
        eapply lookup_lt_Some, Hiq.
      + repeat constructor. apply list_lookup_middle. reflexivity.
    - exists h1, s1. split; [reflexivity|].
      rewrite app_nil_r. apply read_reads, Hys. }
  destruct (Z.eqb_spec (duration_of xs) d) as [Heq|Hne].
  - exists h, s. split; [reflexivity|].
    rewrite Heq, Z.ltb_irrefl. cbv iota. rewrite Heq, Z.ltb_irrefl, app_nil_r.
    apply read_reads, Hr.
  - destruct (Z.gtb_spec (duration_of xs) d) as [Hgt|Hle].
    + destruct (Z.ltb_spec d (duration_of xs)); [|lia].
      destruct (force_scan_kept d _ h 0%nat xs Hr Hnd)
        as (h1 & Hscan & Hlen & Hr1 & _).
      rewrite Hscan. cbn [bind fst snd].
      pose proof (kept_before_length d xs) as Hk.
      pose proof (Forall2_length _ _ _ Hr) as Hlx.
      destruct (Nat.ltb_spec (List.length (kept_before d xs))
                  (List.length (elems (Items s)))) as [Hlt|Hge].
      * cbn [bind fst snd]. apply Hdummy. cbn [Items set_Items elems]. exact Hr1.
      * cbn [bind fst snd]. apply Hdummy.
        rewrite take_ge in Hr1 by lia. exact Hr1.
    + destruct (Z.ltb_spec d (duration_of xs)); [lia|].
      cbn [bind fst snd]. apply Hdummy, Hr.
Qed.

Lemma kept_before_sorted d xs :
  Sorted starts_le xs ->
  kept_before d xs = clipped d <$> filter (fun x => StartAt x < d) xs.
Proof.
  intros Hs.
  assert (Htrans : Transitive starts_le) by (intros a b c; unfold starts_le; lia).
  apply Sorted_StronglySorted in Hs; [|exact Htrans].
  induction Hs as [|x xs _ IH Hall]; [reflexivity|].
  cbn [kept_before]. rewrite filter_cons.
  destruct (Z.geb_spec (StartAt x) d) as [Hge|Hlt].
  - destruct (decide (StartAt x < d)); [lia|].
    assert (Hnil : filter (fun x0 => StartAt x0 < d) xs = []).
    { clear IH. induction Hall as [|y ys Hy _ IHy]; [reflexivity|].
      rewrite filter_cons. unfold starts_le in Hy.
      destruct (decide (StartAt y < d)); [lia|exact IHy]. }
    rewrite Hnil. reflexivity.
  - destruct (decide (StartAt x < d)); [|lia].
    cbn [fmap list_fmap]. rewrite IH. reflexivity.
Qed.

(** X6: [ForceDuration d] on a document of distinct entries: when the
    document lasts longer than [d], the items from the first one that
    starts at [d] or later are dropped and those before it are cut off
    at [d]; then a placeholder from [d - 1ms] to [d] is added when the
    document ends before [d].  In a document in the order of its
    starts the items kept are those that start before [d]. *)
Theorem ForceDuration_items growslice d h s xs :
  reads h (elems (Items s)) xs -> NoDup (elems (Items s)) ->
  exists h' s',
    ForceDuration growslice d h s = Ok (h', s')
    /\ read h' (elems (Items s'))
       = Ok ((if d <? duration_of xs then kept_before d xs else xs)
             ++ (if duration_of (if d <? duration_of xs
                                 then kept_before d xs else xs) <? d
                 then [dummy_item d] else []))
    /\ (Sorted starts_le xs ->
        kept_before d xs = clipped d <$> filter (fun x => StartAt x < d) xs).
Proof.
  intros Hr Hnd.
  destruct (ForceDuration_read growslice d h s xs Hr Hnd) as (h' & s' & HF & Hread).
  exists h', s'. split; [exact HF|]. split; [exact Hread|].
  apply kept_before_sorted.
Qed.

Lemma duration_of_nonneg xs :
  Forall (fun x => 0 <= StartAt x <= EndAt x) xs -> 0 <= duration_of xs.
Proof.
  intros Hall. unfold duration_of.
  destruct (last xs) as [x|] eqn:Hl; [|lia].
  apply last_Some in Hl as [l' ->].
  apply Forall_app in Hall as [_ Hx]. apply Forall_cons in Hx as [Hx _]. lia.
Qed.

(** X7: a negative duration cannot be forced: on a document whose items
    start at 0 or later and do not end before they start,
    [ForceDuration d] with [d < 0] drops every item and adds none, so
    that the duration is 0 afterwards. *)
Theorem ForceDuration_negative growslice d h s xs :
  d < 0 ->
  reads h (elems (Items s)) xs -> NoDup (elems (Items s)) ->
  Forall (fun x => 0 <= StartAt x <= EndAt x) xs ->
  exists h' s',
    ForceDuration growslice d h s = Ok (h', s')
    /\ elems (Items s') = []
    /\ Duration h' s' = Ok 0.
Proof.
  intros Hd Hr Hnd Hall.
  destruct (ForceDuration_read growslice d h s xs Hr Hnd) as (h' & s' & HF & Hread).
  exists h', s'. split; [exact HF|].
  pose proof (duration_of_nonneg xs Hall) as Hdur.
  destruct (Z.ltb_spec d (duration_of xs)); [|lia].
  assert (Hk : kept_before d xs = []).
  { destruct xs as [|x xs]; [reflexivity|].
    apply Forall_cons in Hall as [Hx _]. cbn [kept_before].
    destruct (Z.geb_spec (StartAt x) d); [reflexivity|lia]. }
  rewrite Hk in Hread. change (duration_of []) with 0 in Hread.
  destruct (Z.ltb_spec 0 d); [lia|]. cbn [app] in Hread.
  assert (Hel : elems (Items s') = []).
  { destruct (elems (Items s')) as [|p l]; [reflexivity|].
    cbn [read] in Hread. destruct (deref h' p); [|discriminate].
    cbn [bind] in Hread. destruct (read h' l); discriminate. }
  split; [exact Hel|]. apply Duration_nil, Hel.
Qed.
Lemma ForceDuration_items_witness :
  let xs := [text_item 0 4 "a"; text_item 2 6 "b"; text_item 7 9 "c"] in
  (reads (doc_store xs) (elems (Items (doc_of xs 3))) xs
   /\ NoDup (elems (Items (doc_of xs 3))))
  /\ exists h' s',
      ForceDuration double_cap (5 * Second) (doc_store xs) (doc_of xs 3)
      = Ok (h', s')
      /\ read h' (elems (Items s'))
         = Ok [text_item 0 4 "a"; text_item 2 5 "b"].
Proof.
  cbv zeta.
  assert (H1 : reads (doc_store [text_item 0 4 "a"; text_item 2 6 "b"; text_item 7 9 "c"])
                 (elems (Items (doc_of [text_item 0 4 "a"; text_item 2 6 "b";
                                        text_item 7 9 "c"] 3)))
                 [text_item 0 4 "a"; text_item 2 6 "b"; text_item 7 9 "c"])
    by (repeat constructor).
  assert (H2 : NoDup (elems (Items (doc_of [text_item 0 4 "a"; text_item 2 6 "b";
                                            text_item 7 9 "c"] 3))))
    by (apply NoDup_seq).
  split; [split; assumption|].
  destruct (ForceDuration_items double_cap (5 * Second) _ _ _ H1 H2)
    as (h' & s' & HF & Hread & _).
  exists h', s'. split; [exact HF|exact Hread].
Defined.

Lemma ForceDuration_negative_witness :
  let xs := [text_item 0 4 "a"; text_item 2 6 "b"] in
  (- (1 * Second) < 0
   /\ reads (doc_store xs) (elems (Items (doc_of xs 2))) xs
   /\ NoDup (elems (Items (doc_of xs 2)))
   /\ Forall (fun x => 0 <= StartAt x <= EndAt x) xs)
  /\ exists h' s',
      ForceDuration double_cap (- (1 * Second)) (doc_store xs) (doc_of xs 2)
      = Ok (h', s')
      /\ elems (Items s') = []
      /\ Duration h' s' = Ok 0.
Proof.
  cbv zeta.
  assert (H0 : - (1 * Second) < 0) by reflexivity.
  assert (H1 : reads (doc_store [text_item 0 4 "a"; text_item 2 6 "b"])
                 (elems (Items (doc_of [text_item 0 4 "a"; text_item 2 6 "b"] 2)))
                 [text_item 0 4 "a"; text_item 2 6 "b"])
    by (repeat constructor).
  assert (H2 : NoDup (elems (Items (doc_of [text_item 0 4 "a"; text_item 2 6 "b"] 2))))
    by (apply NoDup_seq).
  assert (H3 : Forall (fun x => 0 <= StartAt x <= EndAt x)
                 [text_item 0 4 "a"; text_item 2 6 "b"])
    by (repeat constructor; vm_compute; discriminate).
  split; [auto 10|].
  exact (ForceDuration_negative double_cap _ _ _ _ H0 H1 H2 H3).
Defined.
End ForceItems.
Import ForceItems.

Module FragmentMore.
Section WithGrowslice.
Variable growslice : nat -> nat -> nat.

(** With a fragment duration of 0 the loop of [Fragment] starts every
  pass at 0 and never gets past the end of the last item. *)
Lemma loop_zero xs pl L :
0 < L -> forall fuel h items,
  range_inv 0 xs (List.length (elems items)) pl L
    {| rs_heap := h; rs_array := elems items;
       rs_items := items; rs_shared := true |} ->
  fragment_loop growslice fuel 0 0 0 h items = Err OutOfFuel.
Proof.
intros HL0. induction fuel as [|fuel IH]; intros h items Hinv; [reflexivity|].
pose proof Hinv as [_ _ _ _ _ (init & it & Hinit & Hpl & HL)].
cbn [rs_heap rs_items] in *.
assert (Hat : elems items !! (List.length (elems items) - 1)%nat = Some pl).
{ rewrite Hinit, length_app. cbn [List.length].
  apply list_lookup_middle. lia. }
cbn [fragment_loop]. unfold at_index. rewrite Hat. cbn [bind].
unfold deref. rewrite Hpl. cbn [bind]. rewrite HL.
destruct (Z.ltb_spec 0 L) as [_|Hge]; [|lia].
destruct (steps_inv growslice 0 xs (List.length (elems items)) pl L 0
            (Z.le_refl 0) (seq 0 (List.length (elems items)))
            {| rs_heap := h; rs_array := elems items;
               rs_items := items; rs_shared := true |})
  as (st & Hpass & Hinv').
{ apply Forall_forall. intros i Hi. apply elem_of_seq in Hi. lia. }
{ exact Hinv. }
change (0 * 0) with 0 in Hpass. change ((0 + 1) * 0) with 0 in Hpass.
unfold fragment_pass. rewrite Hpass. cbn [bind].
change (wrap64 (0 + 0)) with 0.
apply IH. eapply range_inv_restart, Hinv'.
Qed.

(** X8: [Fragment 0] does not return on a document of distinct entries
  whose last item ends after 0: whatever the number of passes
  allowed, they are used up. *)
Theorem Fragment_zero_diverges (fuel : nat) h s xs xl :
reads h (elems (Items s)) xs -> NoDup (elems (Items s)) ->
last xs = Some xl -> 0 < EndAt xl ->
Fragment growslice fuel 0 h s = Err OutOfFuel.
Proof.
intros Hr Hnd Hlast HL. unfold Fragment.
apply last_Some in Hlast as [vinit ->].
pose proof Hr as Hr0.
apply Forall2_app_inv_r in Hr0 as (init & lx & Hi & Hx & Heq).
inversion Hx as [|pl ? ? ? Hpl Hnil]; subst. inversion Hnil; subst.
rewrite Heq, length_app. cbn [List.length].
destruct (Nat.eqb_spec (List.length init + 1) 0); [lia|].
rewrite (loop_zero (vinit ++ [xl]) pl (EndAt xl) HL fuel h (Items s));
  [reflexivity|].
eapply range_inv_start; eassumption.
Qed.

(** The passes of [Fragment] leave distinct entries. *)
Lemma loop_distinct f xs pl L :
0 < f -> L + f <= MaxInt64 -> forall fuel k E h items h' items',
  0 <= k -> (k * f < L -> E = (k + 1) * f) ->
  range_inv f xs (List.length (elems items)) pl L
    {| rs_heap := h; rs_array := elems items;
       rs_items := items; rs_shared := true |} ->
  fragment_loop growslice fuel f (k * f) E h items = Ok (h', items') ->
  NoDup (elems items').
Proof.
intros Hf Hmax. induction fuel as [|fuel IH];
  intros k E h items h' items' Hk HE Hinv Hloop; [discriminate|].
pose proof Hinv as [_ _ _ Hnd _ (init & it & Hinit & Hpl & HL)].
cbn [rs_heap rs_items] in *.
assert (Hat : elems items !! (List.length (elems items) - 1)%nat = Some pl).
{ rewrite Hinit, length_app. cbn [List.length].
  apply list_lookup_middle. lia. }
cbn [fragment_loop] in Hloop. unfold at_index in Hloop.
rewrite Hat in Hloop. cbn [bind] in Hloop.
unfold deref in Hloop. rewrite Hpl in Hloop. cbn [bind] in Hloop.
rewrite HL in Hloop.
destruct (Z.ltb_spec (k * f) L) as [Hlt|Hge].
- specialize (HE Hlt). subst E.
  destruct (steps_inv growslice f xs (List.length (elems items)) pl L k Hk
              (seq 0 (List.length (elems items)))
              {| rs_heap := h; rs_array := elems items;
                 rs_items := items; rs_shared := true |})
    as (st & Hpass & Hinv').
  { apply Forall_forall. intros i Hi. apply elem_of_seq in Hi. lia. }
  { exact Hinv. }
  unfold fragment_pass in Hloop. rewrite Hpass in Hloop. cbn [bind] in Hloop.
  assert (Hkf : 0 <= k * f) by nia.
  replace (wrap64 (k * f + f)) with ((k + 1) * f) in Hloop
    by (rewrite wrap64_id; unfold MinInt64, MaxInt64 in *; lia).
  eapply (IH (k + 1)); [| |eapply range_inv_restart, Hinv'|exact Hloop].
  + lia.
  + intros Hlt'. rewrite wrap64_id by (unfold MinInt64, MaxInt64 in *; lia). lia.
- injection Hloop as <- <-. exact Hnd.
Qed.

(** What [Unfragment] leaves, in terms of the items read. *)
Lemma Unfragment_read h s xs :
reads h (elems (Items s)) xs -> NoDup (elems (Items s)) ->
exists h' s' out,
  Unfragment h s = Ok (h', s')
  /\ read h' (elems (Items s')) = Ok out
  /\ out ≡ₚ merge_later xs
  /\ Sorted starts_le out
  /\ (forall t, items_starting_at t out = items_starting_at t (merge_later xs)).
Proof.
intros Hr Hnd. unfold Unfragment.
pose proof (Forall2_length _ _ _ Hr) as Hlen.
destruct (Nat.leb_spec (List.length (elems (Items s))) 1) as [Hle|Hgt].
- exists h, s, xs. split; [reflexivity|].
  split; [apply read_reads, Hr|].
  assert (Hm : merge_later xs = xs).
  { unfold merge_later. destruct xs as [|x [|y xs]]; try reflexivity.
    cbn in Hlen. lia. }
  rewrite Hm. split; [reflexivity|]. split; [|reflexivity].
  destruct xs as [|x [|y xs]]; [constructor|repeat constructor|cbn in Hlen; lia].
- pose proof (outer_scan (List.length (elems (Items s))) h [] (elems (Items s))) as Ho.
  cbn [app List.length] in Ho. rewrite Ho. clear Ho.
  destruct (scan_values (List.length (elems (Items s))) h _ xs Hr Hnd)
    as (h1 & l1 & Hs & Hr1 & _ & _); [lia..|].
  rewrite Hs. cbn [bind fst snd].
  set (s1 := set_Items s {| elems := l1; cap := cap (Items s) |}).
  destruct (Order_items h1 s1 _ Hr1) as (l' & out & HO & _ & Hro & Hperm & Hsort & Hst).
  rewrite HO. cbn [bind].
  eexists _, _, out. split; [reflexivity|].
  cbn [Items set_Items elems].
  split; [apply read_reads, Hro|].
  unfold merge_later. rewrite <- Hlen.
  repeat split; assumption.
Qed.

Lemma Item_String_Lines x y : Lines y = Lines x -> Item_String y = Item_String x.
Proof. unfold Item_String. intros ->. reflexivity. Qed.

(** The pieces of an item continue one another. *)
Lemma cut_at_run : forall bs x0 y,
  Lines y = Lines x0 -> StartAt y = EndAt x0 ->
  run_after x0 (cut_at y bs)
  /\ EndAt (List.last (cut_at y bs) x0) = EndAt y.
Proof.
induction bs as [|b bs IH]; intros x0 y Hl Hs.
- cbn. repeat split; [apply Item_String_Lines, Hl|exact Hs].
- destruct (IH (set_EndAt x0 b) (set_StartAt y b) Hl eq_refl) as [Hrun Hlast].
  cbn [cut_at run_after]. split.
  + split; [apply Item_String_Lines, Hl|]. split; [exact Hs|exact Hrun].
  + destruct (cut_at (set_StartAt y b) bs) as [|z zs] eqn:Hc.
    { destruct bs; discriminate Hc. }
    change (List.last (set_EndAt y b :: z :: zs) x0) with (List.last (z :: zs) x0).
    rewrite (last_cons_default z zs x0 (set_EndAt x0 b)). exact Hlast.
Qed.

Lemma merge_later_fragments f x : merge_later (fragments f x) = [x].
Proof.
unfold fragments. destruct (boundaries_in f (StartAt x) (EndAt x)) as [|b bs].
- reflexivity.
- cbn [cut_at].
  destruct (cut_at_run bs (set_EndAt x b) (set_StartAt x b) eq_refl eq_refl)
    as [Hrun Hlast].
  rewrite merge_later_run by exact Hrun. rewrite Hlast.
  destruct x; reflexivity.
Qed.

(** X9: [Unfragment] undoes [Fragment] on a document of one item: the
  pieces are merged back into the item. *)
Theorem Unfragment_Fragment (fuel : nat) f h s x :
0 < f -> reads h (elems (Items s)) [x] ->
0 <= StartAt x -> EndAt x + f <= MaxInt64 ->
(Z.to_nat (EndAt x / f) + 2 <= fuel)%nat ->
exists h1 s1 h2 s2,
  Fragment growslice fuel f h s = Ok (h1, s1)
  /\ read h1 (elems (Items s1)) = Ok (fragments f x)
  /\ Unfragment h1 s1 = Ok (h2, s2)
  /\ read h2 (elems (Items s2)) = Ok [x].
Proof.
intros Hf Hr Hs Hmax Hfuel.
destruct (Items s) as [el cp] eqn:Hitems. cbn [elems] in Hr.
inversion Hr as [|pl ? ? ? Hpl Hnil]; subst. inversion Hnil; subst.
assert (Hnd : NoDup [pl]) by apply NoDup_singleton.
destruct (loop_last growslice f Hf fuel 0 f h [] [] pl x cp Hmax
            (Z.le_refl 0) (fun _ => eq_refl) (or_introl Hs)
            (Forall2_nil_2 _ _ _) Hpl Hnd (Forall_nil_2 _) ltac:(lia)
            (fuel_bound f _ fuel Hf Hfuel))
  as (h1 & items1 & Hloop & Hr1).
cbn [app] in Hloop, Hr1.
rewrite cuts_loop_fragments in Hr1 by (try assumption; lia).
assert (Hnd1 : NoDup (elems items1)).
{ eapply (loop_distinct f [x] pl (EndAt x) Hf Hmax fuel 0 f h
            {| elems := [pl]; cap := cp |} h1 items1 (Z.le_refl 0));
    [intros _; lia| |exact Hloop].
  eapply (range_inv_start f h {| elems := [pl]; cap := cp |} [x] [] pl x);
    [exact Hr|exact Hnd|reflexivity|exact Hpl]. }
assert (Hss : StronglySorted starts_le (fragments f x)).
{ rewrite <- (cuts_loop_fragments f fuel x Hf ltac:(lia)).
  apply cuts_loop_sorted, Hf. }
assert (HF : Fragment growslice fuel f h s = Ok (h1, set_Items s items1)).
{ unfold Fragment. rewrite Hitems. cbn [elems List.length Nat.eqb].
  rewrite Hloop. cbn [bind fst snd].
  rewrite Order_sorted_id; [reflexivity| |].
  - cbn [Items set_Items]. eapply reads_allocated, Hr1.
  - cbn [Items set_Items]. eapply reads_sorted_ptrs; eassumption. }
destruct (Unfragment_read h1 (set_Items s items1) (fragments f x))
  as (h2 & s2 & out & HU & Hread & Hperm & _); [exact Hr1|exact Hnd1|].
rewrite merge_later_fragments in Hperm.
apply Permutation_singleton_r in Hperm. subst out.
exists h1, (set_Items s items1), h2, s2.
split; [exact HF|]. split; [apply read_reads, Hr1|].
split; [exact HU|exact Hread].
Qed.

Lemma absorb_items_none x ys :
Forall (fun y => mergeable x y = false) ys -> absorb_items x ys = (x, ys).
Proof.
induction 1 as [|y ys Hy _ IH]; [reflexivity|].
cbn [absorb_items]. rewrite Hy, IH. reflexivity.
Qed.

Lemma scan_items_none : forall fuel xs,
  none_mergeable xs -> scan_items fuel xs = xs.
Proof.
induction fuel as [|fuel IH]; intros xs Hn; [reflexivity|].
destruct xs as [|x [|y ys]]; try reflexivity.
destruct Hn as [Hx Hrest]. cbn [scan_items].
rewrite absorb_items_none by exact Hx. cbn [fst snd].
rewrite IH by exact Hrest. reflexivity.
Qed.

(** X10: where no item can take in a later one, [Unfragment] only orders
  the document: the items stay as they are, in the order of their
  starts, those with equal starts in the order they had. *)
Theorem Unfragment_only_orders h s xs :
reads h (elems (Items s)) xs -> NoDup (elems (Items s)) ->
none_mergeable xs ->
exists h' s' out,
  Unfragment h s = Ok (h', s')
  /\ read h' (elems (Items s')) = Ok out
  /\ out ≡ₚ xs
  /\ Sorted starts_le out
  /\ (forall t, items_starting_at t out = items_starting_at t xs).
Proof.
intros Hr Hnd Hn.
destruct (Unfragment_read h s xs Hr Hnd)
  as (h' & s' & out & HU & Hread & Hperm & Hsort & Hst).
assert (Hm : merge_later xs = xs) by (apply scan_items_none, Hn).
rewrite Hm in Hperm, Hst.
exists h', s', out. repeat split; assumption.
Qed.
Lemma Item_String_texts x :
Item_String x = Strings.Join (map (fun ts => Strings.Join ts (str " ")) (texts_of x))
                  (str " - ").
Proof.
unfold Item_String, texts_of. rewrite map_map. reflexivity.
Qed.

(** X23: [Unfragment] compares rendered texts only: two items with the
  same texts, the second starting where the first ends, are merged
  whatever their styles, regions, comments and voice names, and the
  merged item is the first one with the end of the second. *)
Theorem Unfragment_ignores_formatting h s x y :
reads h (elems (Items s)) [x; y] -> NoDup (elems (Items s)) ->
texts_of y = texts_of x -> StartAt y = EndAt x ->
exists h' s',
  Unfragment h s = Ok (h', s')
  /\ read h' (elems (Items s')) = Ok [set_EndAt x (EndAt y)].
Proof.
intros Hr Hnd Ht Hs.
destruct (Unfragment_read h s [x; y] Hr Hnd)
  as (h' & s' & out & HU & Hread & Hperm & _).
assert (Hrun : run_after x [y]).
{ cbn. split; [|split; [exact Hs|exact I]].
  rewrite !Item_String_texts, Ht. reflexivity. }
rewrite (merge_later_run x [y] Hrun) in Hperm.
apply Permutation_singleton_r in Hperm. subst out.
exists h', s'. split; [exact HU|exact Hread].
Qed.
End WithGrowslice.
Lemma Fragment_zero_diverges_witness :
  let xs := [text_item 0 4 "a"] in
  (reads (doc_store xs) (elems (Items (doc_of xs 1))) xs
   /\ NoDup (elems (Items (doc_of xs 1)))
   /\ last xs = Some (text_item 0 4 "a")
   /\ 0 < EndAt (text_item 0 4 "a"))
  /\ Fragment double_cap 1000 0 (doc_store xs) (doc_of xs 1) = Err OutOfFuel.
Proof.
  cbv zeta.
  assert (H1 : reads (doc_store [text_item 0 4 "a"])
                 (elems (Items (doc_of [text_item 0 4 "a"] 1)))
                 [text_item 0 4 "a"])
    by (repeat constructor).
  assert (H2 : NoDup (elems (Items (doc_of [text_item 0 4 "a"] 1))))
    by (apply NoDup_seq).
  assert (H3 : last [text_item 0 4 "a"] = Some (text_item 0 4 "a")) by reflexivity.
  assert (H4 : 0 < EndAt (text_item 0 4 "a")) by reflexivity.
  split; [auto 10|].
  exact (Fragment_zero_diverges double_cap 1000 _ _ _ _ H1 H2 H3 H4).
Defined.

Lemma Unfragment_Fragment_witness :
  let x := text_item 0 7 "x" in
  (0 < 3 * Second
   /\ reads (doc_store [x]) (elems (Items (doc_of [x] 1))) [x]
   /\ 0 <= StartAt x /\ EndAt x + 3 * Second <= MaxInt64
   /\ (Z.to_nat (EndAt x / (3 * Second)) + 2 <= 10)%nat)
  /\ exists h1 s1 h2 s2,
      Fragment double_cap 10 (3 * Second) (doc_store [x]) (doc_of [x] 1)
      = Ok (h1, s1)
      /\ read h1 (elems (Items s1))
         = Ok [text_item 0 3 "x"; text_item 3 6 "x"; text_item 6 7 "x"]
      /\ Unfragment h1 s1 = Ok (h2, s2)
      /\ read h2 (elems (Items s2)) = Ok [x].
Proof.
  cbv zeta.
  assert (H0 : 0 < 3 * Second) by reflexivity.
  assert (H1 : reads (doc_store [text_item 0 7 "x"])
                 (elems (Items (doc_of [text_item 0 7 "x"] 1)))
                 [text_item 0 7 "x"])
    by (repeat constructor).
  assert (H2 : 0 <= StartAt (text_item 0 7 "x")) by (vm_compute; discriminate).
  assert (H3 : EndAt (text_item 0 7 "x") + 3 * Second <= MaxInt64)
    by (vm_compute; discriminate).
  assert (H4 : (Z.to_nat (EndAt (text_item 0 7 "x") / (3 * Second)) + 2 <= 10)%nat)
    by (vm_compute; lia).
  split; [auto 10|].
  exact (Unfragment_Fragment double_cap 10 _ _ _ _ H0 H1 H2 H3 H4).
Defined.

Lemma Unfragment_only_orders_witness :
  let xs := [text_item 2 4 "a"; text_item 0 2 "b"] in
  (reads (doc_store xs) (elems (Items (doc_of xs 2))) xs
   /\ NoDup (elems (Items (doc_of xs 2)))
   /\ none_mergeable xs)
  /\ exists h' s',
      Unfragment (doc_store xs) (doc_of xs 2) = Ok (h', s')
      /\ read h' (elems (Items s'))
         = Ok [text_item 0 2 "b"; text_item 2 4 "a"].
Proof.
  cbv zeta.
  assert (H1 : reads (doc_store [text_item 2 4 "a"; text_item 0 2 "b"])
                 (elems (Items (doc_of [text_item 2 4 "a"; text_item 0 2 "b"] 2)))
                 [text_item 2 4 "a"; text_item 0 2 "b"])
    by (repeat constructor).
  assert (H2 : NoDup (elems (Items (doc_of [text_item 2 4 "a"; text_item 0 2 "b"] 2))))
    by (apply NoDup_seq).
  assert (H3 : none_mergeable [text_item 2 4 "a"; text_item 0 2 "b"])
    by (cbn; repeat split; repeat constructor).
  split; [auto 10|].
  destruct (Unfragment_only_orders _ _ _ H1 H2 H3)
    as (h' & s' & out & HU & Hread & Hperm & Hsort & _).
  exists h', s'. split; [exact HU|]. rewrite Hread. f_equal.
  symmetry in Hperm.
  apply Permutation_length_2_inv in Hperm as [Hout|Hout]; subst out.
  - exfalso. apply Sorted_inv in Hsort as [_ Hhd].
    apply HdRel_inv in Hhd. vm_compute in Hhd. apply Hhd. reflexivity.
  - reflexivity.
Defined.
Lemma Unfragment_ignores_formatting_witness :
  let x := text_item 0 2 "a" in
  let y := {| Comments := [str "note"]; EndAt := 4 * Second;
              Item_InlineStyle := None; Lines := Lines (text_item 0 2 "a");
              Item_Region := None; StartAt := 2 * Second;
              Item_Style := Some (colour_style "s1" "red") |} in
  (reads (doc_store [x; y]) (elems (Items (doc_of [x; y] 2))) [x; y]
   /\ NoDup (elems (Items (doc_of [x; y] 2)))
   /\ texts_of y = texts_of x /\ StartAt y = EndAt x)
  /\ exists h' s',
      Unfragment (doc_store [x; y]) (doc_of [x; y] 2) = Ok (h', s')
      /\ read h' (elems (Items s')) = Ok [text_item 0 4 "a"].
Proof.
  cbv zeta.
  set (x := text_item 0 2 "a").
  set (y := {| Comments := [str "note"]; EndAt := 4 * Second;
               Item_InlineStyle := None; Lines := Lines (text_item 0 2 "a");
               Item_Region := None; StartAt := 2 * Second;
               Item_Style := Some (colour_style "s1" "red") |}).
  assert (H1 : reads (doc_store [x; y]) (elems (Items (doc_of [x; y] 2))) [x; y])
    by (repeat constructor).
  assert (H2 : NoDup (elems (Items (doc_of [x; y] 2)))) by (apply NoDup_seq).
  assert (H3 : texts_of y = texts_of x) by reflexivity.
  assert (H4 : StartAt y = EndAt x) by reflexivity.
  split; [auto 10|].
  exact (Unfragment_ignores_formatting _ _ x y H1 H2 H3 H4).
Defined.
End FragmentMore.
Import FragmentMore.

Module MergeMore.

Lemma first_with_none_perm {V} (id : V -> gostring) k (vs ws : list V) :
  ws ≡ₚ vs -> first_with id k vs = None -> first_with id k ws = None.
Proof.
  unfold first_with. intros Hp Hv.
  apply head_None in Hv.
  assert (Hw : filter (fun v => id v = k) ws ≡ₚ filter (fun v => id v = k) vs)
    by (rewrite Hp; reflexivity).
  rewrite Hv in Hw. apply Permutation_nil_r in Hw. rewrite Hw. reflexivity.
Qed.

Lemma merge_again {V} (id : V -> gostring) (m : gmap gostring V) vs ws :
  ws ≡ₚ vs ->
  foldl (merge_with id) (foldl (merge_with id) m vs) ws
  = foldl (merge_with id) m vs.
Proof.
  intros Hp. apply map_eq. intros k.
  rewrite foldl_merge_lookup.
  destruct (foldl (merge_with id) m vs !! k) as [v|] eqn:Hk; [reflexivity|].
  rewrite foldl_merge_lookup in Hk.
  destruct (m !! k); [discriminate|].
  eapply first_with_none_perm; eassumption.
Qed.

(** X11: merging the same document a second time changes no region and no
    style, in whatever order the maps are visited; its items are
    appended once more. *)
Theorem Merge_again growslice h s i regions1 styles1 regions2 styles2 s1 :
  allocated h (elems (Items s)) -> allocated h (elems (Items i)) ->
  visit_of (Regions i) regions1 -> visit_of (Regions i) regions2 ->
  visit_of (Styles i) styles1 -> visit_of (Styles i) styles2 ->
  Merge growslice h s i regions1 styles1 = Ok s1 ->
  exists s2,
    Merge growslice h s1 i regions2 styles2 = Ok s2
    /\ Regions s2 = Regions s1 /\ Styles s2 = Styles s1
    /\ elems (Items s2) ≡ₚ (elems (Items s) ++ elems (Items i)) ++ elems (Items i).
Proof.
  intros Hs Hi Hr1 Hr2 Hs1 Hs2 H1.
  assert (HR : regions2 ≡ₚ regions1)
    by (unfold visit_of in *; rewrite Hr1, Hr2; reflexivity).
  assert (HS : styles2 ≡ₚ styles1)
    by (unfold visit_of in *; rewrite Hs1, Hs2; reflexivity).
  assert (Hel : forall a xs, elems (append growslice a xs) = elems a ++ xs).
  { intros a xs. unfold append. destruct (_ <=? _)%nat; reflexivity. }
  unfold Merge in H1.
  destruct (Order_spec h (set_Items s (append growslice (Items s) (elems (Items i)))))
    as (l1 & HO1 & Hperm1 & _).
  { cbn [Items set_Items]. rewrite Hel. apply Forall_app. split; assumption. }
  rewrite HO1 in H1. cbn [bind] in H1. injection H1 as <-.
  cbn [Items Regions Styles set_Items Subtitles_Metadata].
  cbn [Items set_Items] in Hperm1. rewrite Hel in Hperm1.
  unfold Merge.
  match goal with
  | |- context [Order h ?s0] =>
      destruct (Order_spec h s0) as (l2 & HO2 & Hperm2 & _);
      [|rewrite HO2]
  end.
  { cbn [Items set_Items]. rewrite Hel. cbn [elems].
    apply Forall_app. split; [|exact Hi].
    eapply allocated_perm; [exact Hperm1|]. apply Forall_app. split; assumption. }
  cbn [bind]. eexists. split; [reflexivity|].
  cbn [Items Regions Styles set_Items elems] in *.
  rewrite merge_region_with, merge_style_with.
  split; [apply merge_again, HR|]. split; [apply merge_again, HS|].
  rewrite Hel in Hperm2. cbn [elems] in Hperm2.
  rewrite Hperm2, Hperm1. reflexivity.
Qed.
Lemma Merge_again_witness :
  let other := styled {[ str "s1" := colour_style "s1" "blue" ]} in
  (allocated [] (elems (Items NewSubtitles))
   /\ allocated [] (elems (Items other))
   /\ visit_of (Regions other) [] /\ visit_of (Regions other) []
   /\ visit_of (Styles other) [colour_style "s1" "blue"]
   /\ visit_of (Styles other) [colour_style "s1" "blue"]
   /\ Merge double_cap [] NewSubtitles other [] [colour_style "s1" "blue"]
      = Ok other)
  /\ exists s2,
      Merge double_cap [] other other [] [colour_style "s1" "blue"] = Ok s2
      /\ Regions s2 = Regions other /\ Styles s2 = Styles other.
Proof.
  cbv zeta.
  assert (H1 : allocated [] (elems (Items NewSubtitles))) by constructor.
  assert (H2 : allocated []
                 (elems (Items (styled {[ str "s1" := colour_style "s1" "blue" ]}))))
    by constructor.
  assert (H3 : visit_of (Regions (styled {[ str "s1" := colour_style "s1" "blue" ]})) [])
    by (unfold visit_of; cbn [Regions styled]; rewrite map_to_list_empty; reflexivity).
  assert (H4 : visit_of (Styles (styled {[ str "s1" := colour_style "s1" "blue" ]}))
                 [colour_style "s1" "blue"])
    by (unfold visit_of; cbn [Styles styled]; rewrite map_to_list_singleton;
        reflexivity).
  assert (H5 : Merge double_cap [] NewSubtitles
                 (styled {[ str "s1" := colour_style "s1" "blue" ]})
                 [] [colour_style "s1" "blue"]
               = Ok (styled {[ str "s1" := colour_style "s1" "blue" ]})).
  { unfold Merge. cbn. unfold merge_style. cbn. rewrite lookup_empty.
    reflexivity. }
  split; [auto 10|].
  destruct (Merge_again double_cap [] NewSubtitles _ [] _ [] _ _ H1 H2 H3 H3 H4 H4 H5)
    as (s2 & HM & HR & HS & _).
  exists s2. auto.
Defined.
End MergeMore.
Import MergeMore.

Module ColorMore.
Import Strconv.

Lemma byte_of i k :
  0 <= k -> Z.land (uint8 (Z.shiftr i k)) 255 = (i / 2 ^ k) mod 256.
Proof.
  intros Hk. unfold uint8. change 255 with (Z.ones 8).
  rewrite Z.land_ones, Z.shiftr_div_pow2 by lia.
  rewrite Z.mod_mod by lia. reflexivity.
Qed.

Lemma bytes_sum i :
  (i / 2 ^ 24) mod 256 * 2 ^ 24 + (i / 2 ^ 16) mod 256 * 2 ^ 16
  + (i / 2 ^ 8) mod 256 * 2 ^ 8 + i mod 256 = i mod 2 ^ 32.
Proof.
  pose proof (Z.div_mod i 256 ltac:(lia)) as H0.
  pose proof (Z.div_mod (i / 256) 256 ltac:(lia)) as H1.
  pose proof (Z.div_mod (i / 256 / 256) 256 ltac:(lia)) as H2.
  pose proof (Z.div_mod (i / 256 / 256 / 256) 256 ltac:(lia)) as H3.
  pose proof (Z.mod_pos_bound i 256 ltac:(lia)).
  pose proof (Z.mod_pos_bound (i / 256) 256 ltac:(lia)).
  pose proof (Z.mod_pos_bound (i / 256 / 256) 256 ltac:(lia)).
  pose proof (Z.mod_pos_bound (i / 256 / 256 / 256) 256 ltac:(lia)).
  change (2 ^ 8) with 256.
  replace (i / 2 ^ 16) with (i / 256 / 256)
    by (rewrite Z.div_div by lia; reflexivity).
  replace (i / 2 ^ 24) with (i / 256 / 256 / 256)
    by (rewrite !Z.div_div by lia; reflexivity).
  apply Z.mod_unique with (i / 256 / 256 / 256 / 256); [left|]; lia.
Qed.

(** What [newColorFromString] gives for the number [i]. *)
Lemma decoded_word i :
  let c := {| Alpha := Z.land (uint8 (Z.shiftr i 24)) 255;
              Blue := Z.land (uint8 (Z.shiftr i 16)) 255;
              Green := Z.land (uint8 (Z.shiftr i 8)) 255;
              Red := Z.land (uint8 i) 255 |} in
  wf_Color c /\ Color_word c = i mod 2 ^ 32.
Proof.
  cbv zeta.
  assert (Hr : Z.land (uint8 i) 255 = i mod 256).
  { pose proof (byte_of i 0 ltac:(lia)) as H.
    rewrite Z.shiftr_0_r, Z.pow_0_r, Z.div_1_r in H. exact H. }
  assert (Hwf : wf_Color {| Alpha := Z.land (uint8 (Z.shiftr i 24)) 255;
                            Blue := Z.land (uint8 (Z.shiftr i 16)) 255;
                            Green := Z.land (uint8 (Z.shiftr i 8)) 255;
                            Red := Z.land (uint8 i) 255 |}).
  { unfold wf_Color. cbn. rewrite !byte_of, Hr by lia.
    repeat split; apply Z.mod_pos_bound; lia. }
  split; [exact Hwf|].
  rewrite Color_word_sum by exact Hwf. cbn.
  rewrite !byte_of, Hr by lia. apply bytes_sum.
Qed.

(** X12: [newColorFromString] fails exactly when [strconv.ParseInt] does,
    with the text and the base in the error; otherwise the colour is
    the low 32 bits of the number read, alpha in the high byte and red
    in the low one, whatever the sign and the size of the number. *)
Theorem newColorFromString_low_bits parse_base0 s base :
  match ParseInt parse_base0 s base with
  | inl e => newColorFromString parse_base0 s base = Err (ErrParseInt s base e)
  | inr i =>
      exists c,
        newColorFromString parse_base0 s base = Ok c
        /\ wf_Color c /\ Color_word c = i mod 2 ^ 32
  end.
Proof.
  unfold newColorFromString.
  destruct (ParseInt parse_base0 s base) as [e|i]; [reflexivity|].
  eexists. split; [reflexivity|]. apply decoded_word.
Qed.

(** X13: the text of a number below 2^32, in decimal or in eight hex
    digits, is given back by [String] from the colour it is read as. *)
Theorem Color_text_roundtrip parse_base0 i :
  0 <= i < 2 ^ 32 ->
  (exists c, newColorFromString parse_base0 (Itoa i) 10 = Ok c
             /\ Color_String c 10 = Itoa i)
  /\ (exists c, newColorFromString parse_base0 (Fmt.fmt_x 8 i) 16 = Ok c
                /\ Color_String c 16 = Fmt.fmt_x 8 i).
Proof.
  intros Hi. unfold newColorFromString. split.
  - rewrite Itoa_nonneg by lia. rewrite ParseInt_FormatUint by lia.
    eexists. split; [reflexivity|].
    unfold Color_String. change (10 =? 16) with false. cbv iota.
    destruct (decoded_word i) as [_ ->].
    rewrite Z.mod_small by lia. apply Itoa_nonneg. lia.
  - rewrite ParseInt_fmt_x by lia.
    eexists. split; [reflexivity|].
    unfold Color_String. change (16 =? 16) with true. cbv iota.
    destruct (decoded_word i) as [_ ->].
    rewrite Z.mod_small by lia. reflexivity.
Qed.
Lemma Color_text_roundtrip_witness :
  0 <= 4278190335 < 2 ^ 32
  /\ (exists c, newColorFromString (fun _ => inl ErrSyntax) (str "4278190335") 10 = Ok c
                /\ Color_String c 10 = str "4278190335")
  /\ (exists c, newColorFromString (fun _ => inl ErrSyntax) (str "ff0000ff") 16 = Ok c
                /\ Color_String c 16 = str "ff0000ff").
Proof.
  assert (H : 0 <= 4278190335 < 2 ^ 32) by (split; [discriminate|reflexivity]).
  split; [exact H|].
  exact (Color_text_roundtrip (fun _ => inl ErrSyntax) 4278190335 H).
Defined.
End ColorMore.
Import ColorMore.

Module ParseMore.
Import Strings.

(** Trimming leaves bytes of the text. *)
Lemma TrimLeftSpace_Forall (P : ascii -> Prop) : forall n s,
    (List.length s <= n)%nat -> Forall P s -> Forall P (TrimLeftSpace s).
Proof.
  induction n as [|n IH]; intros s Hn Hs.
  - destruct s; [constructor|cbn in Hn; lia].
  - destruct s as [|c1 s1]; [constructor|].
    cbn [TrimLeftSpace]. cbn in Hn.
    pose proof Hs as Hs0. apply Forall_cons in Hs as [_ Hs1].
    destruct (is_space1 c1); [apply IH; [lia|exact Hs1]|].
    destruct s1 as [|c2 s2]; [exact Hs0|]. cbn in Hn.
    apply Forall_cons in Hs1 as [_ Hs2].
    destruct (is_space2 c1 c2); [apply IH; [lia|exact Hs2]|].
    destruct s2 as [|c3 s3]; [exact Hs0|]. cbn in Hn.
    apply Forall_cons in Hs2 as [_ Hs3].
    destruct (is_space3 c1 c2 c3); [apply IH; [lia|exact Hs3]|exact Hs0].
Qed.

Lemma trim_right_rev_Forall (P : ascii -> Prop) : forall n s,
    (List.length s <= n)%nat -> Forall P s -> Forall P (trim_right_rev s).
Proof.
  induction n as [|n IH]; intros s Hn Hs.
  - destruct s; [constructor|cbn in Hn; lia].
  - destruct s as [|c1 s1]; [constructor|].
    cbn [trim_right_rev]. cbn in Hn.
    pose proof Hs as Hs0. apply Forall_cons in Hs as [_ Hs1].
    destruct (is_space1 c1); [apply IH; [lia|exact Hs1]|].
    destruct s1 as [|c2 s2]; [exact Hs0|]. cbn in Hn.
    apply Forall_cons in Hs1 as [_ Hs2].
    destruct (is_space2 c2 c1); [apply IH; [lia|exact Hs2]|].
    destruct s2 as [|c3 s3]; [exact Hs0|]. cbn in Hn.
    apply Forall_cons in Hs2 as [_ Hs3].
    destruct (is_space3 c3 c2 c1); [apply IH; [lia|exact Hs3]|exact Hs0].
Qed.

Lemma TrimSpace_Forall (P : ascii -> Prop) s :
  Forall P s -> Forall P (TrimSpace s).
Proof.
  intros Hs. unfold TrimSpace, TrimRightSpace.
  apply Forall_rev. eapply trim_right_rev_Forall; [reflexivity|].
  apply Forall_rev. eapply TrimLeftSpace_Forall; [reflexivity|exact Hs].
Qed.

(** The parts of a split hold bytes of the text. *)
Lemma split_from_Forall (P : ascii -> Prop) sep : forall s k cur,
    Forall P s -> Forall P cur -> Forall (Forall P) (split_from sep s k cur).
Proof.
  induction s as [|c s IH]; intros k cur Hs Hcur.
  - cbn. constructor; [apply Forall_rev, Hcur|constructor].
  - apply Forall_cons in Hs as [Hc Hs]. cbn [split_from].
    destruct k as [|k]; [|apply IH; assumption].
    destruct (HasPrefix (c :: s) sep).
    + constructor; [apply Forall_rev, Hcur|]. apply IH; [exact Hs|constructor].
    + apply IH; [exact Hs|]. constructor; assumption.
Qed.

Lemma Join_Forall (P : ascii -> Prop) sep : forall parts,
    Forall (Forall P) parts -> Forall P sep -> Forall P (Join parts sep).
Proof.
  induction parts as [|x parts IH]; intros Hp Hsep; [constructor|].
  apply Forall_cons in Hp as [Hx Hp]. cbn [Join].
  destruct parts as [|y parts]; [exact Hx|].
  apply Forall_app_2; [exact Hx|]. apply Forall_app_2; [exact Hsep|].
  apply IH; assumption.
Qed.

Lemma removelast_Forall {A} (P : A -> Prop) l :
  Forall P l -> Forall P (removelast l).
Proof.
  induction 1 as [|x l Hx Hl IH]; [constructor|].
  cbn [removelast]. destruct l; [constructor|]. constructor; assumption.
Qed.

(** A separator with a byte that the text does not hold is not a
    prefix of any rest of the text. *)
Lemma HasPrefix_byte c : forall sep s,
    c ∈ sep -> c ∉ s -> HasPrefix s sep = false.
Proof.
  induction sep as [|p sep IH]; intros s Hc Hs.
  - apply elem_of_nil in Hc. contradiction.
  - destruct s as [|x s]; [reflexivity|]. cbn [HasPrefix].
    apply not_elem_of_cons in Hs as [Hne Hs].
    apply elem_of_cons in Hc as [->|Hc].
    + destruct (Ascii.eqb_spec x p); [congruence|reflexivity].
    + rewrite (IH s Hc Hs). apply andb_false_r.
Qed.

Lemma split_from_absent c sep : c ∈ sep -> forall s cur,
    c ∉ s -> split_from sep s 0 cur = [rev cur ++ s].
Proof.
  intros Hc. induction s as [|x s IH]; intros cur Hs.
  - cbn. rewrite app_nil_r. reflexivity.
  - cbn [split_from]. rewrite (HasPrefix_byte c sep (x :: s) Hc Hs).
    apply not_elem_of_cons in Hs as [_ Hs].
    rewrite IH by exact Hs. cbn [rev]. rewrite <- app_assoc. reflexivity.
Qed.

(** The text handed to the split at ":" holds no colon when the input
    holds none. *)
Lemma clock_fields_no_colon explode i c0 sep :
  Forall (fun c => c <> ":"%char) i ->
  exists t, clock_fields explode i (c0 :: sep) = [t].
Proof.
  intros Hi. unfold clock_fields, Split.
  assert (Hcolon : ":"%char ∈ [":"%char]) by left.
  assert (Hnot : forall t, Forall (fun c => c <> ":"%char) t -> ":"%char ∉ t).
  { intros t Ht Hin. rewrite Forall_forall in Ht. exact (Ht _ Hin eq_refl). }
  assert (Hone : forall t, Forall (fun c => c <> ":"%char) t ->
                           exists u, split_from (str ":") (TrimSpace t) 0 [] = [u]).
  { intros t Ht. eexists. apply (split_from_absent ":"%char); [exact Hcolon|].
    apply Hnot, TrimSpace_Forall, Ht. }
  destruct (2 <=? List.length (split_from (c0 :: sep) i 0 []))%nat eqn:Hlen;
    [|apply Hone, Hi].
  destruct (decide (":"%char ∈ c0 :: sep)) as [Hin|Hout].
  - rewrite (split_from_absent ":"%char (c0 :: sep) Hin i [] (Hnot i Hi)) in Hlen.
    discriminate Hlen.
  - apply Hone, Join_Forall.
    + apply removelast_Forall, split_from_Forall; [exact Hi|constructor].
    + apply Forall_forall. intros c Hc ->. contradiction.
Qed.

(** X14: an input without a colon is refused, whatever the separator and
    the number of digits: for its fractional segment when that is too
    long or not a number, and otherwise for want of hours, minutes and
    seconds. *)
Theorem parseDuration_needs_colon explode int_overflow i sep n :
  sep <> [] -> Forall (fun c => c <> ":"%char) i ->
  parseDuration explode int_overflow i sep n = Err (ErrNoHMS i)
  \/ parseDuration explode int_overflow i sep n = Err (ErrMillisecondDigits i)
  \/ exists tok e,
       fraction_of explode i sep = Some tok
       /\ parseDuration explode int_overflow i sep n = Err (ErrAtoi tok e).
Proof.
  intros Hsep Hi. destruct sep as [|c0 sep]; [contradiction|].
  destruct (clock_fields_no_colon explode i c0 sep Hi) as [t Ht].
  assert (Hclock : forall ms, clock_total explode i (c0 :: sep) ms = Err (ErrNoHMS i)).
  { intros ms. unfold clock_total. rewrite Ht. reflexivity. }
  destruct (fraction_of explode i (c0 :: sep)) as [f|] eqn:Hf.
  - rewrite (parseDuration_fraction _ _ _ _ _ _ Hf).
    destruct (3 <? List.length f)%nat; [right; left; reflexivity|].
    unfold atoi. destruct (Strconv.Atoi f) as [e|v].
    + right. right. exists f, e. split; reflexivity.
    + left. cbn [bind]. apply Hclock.
  - left. unfold clock_fields in Ht.
    unfold fraction_of in Hf. unfold parseDuration.
    destruct (2 <=? List.length (Split explode i (c0 :: sep)))%nat; [discriminate|].
    cbn [bind fst snd]. rewrite Ht. reflexivity.
Qed.
(** X15: a clock text without fractional segment: two fields are minutes
    and seconds, three are hours, minutes and seconds, an empty hours
    field counting as 0; the fields are not checked against 60. *)
Theorem parseDuration_clock explode int_overflow H M S h m s c0 sep n :
  Forall dec_digit H -> Forall dec_digit M -> Forall dec_digit S ->
  (H = [] /\ h = 0 \/ Strconv.Atoi H = inr h) ->
  Strconv.Atoi M = inr m -> Strconv.Atoi S = inr s ->
  0 <= h -> 0 <= m -> 0 <= s ->
  s * Second + m * Minute + h * Hour <= MaxInt64 ->
  Fmt.is_digit c0 = false -> c0 <> ":"%char ->
  parseDuration explode int_overflow (M ++ str ":" ++ S) (c0 :: sep) n
  = Ok (s * Second + m * Minute)
  /\ parseDuration explode int_overflow
       (H ++ str ":" ++ M ++ str ":" ++ S) (c0 :: sep) n
     = Ok (s * Second + m * Minute + h * Hour).
Proof.
  intros HH HM HS Hh Hm Hs Hh0 Hm0 Hs0 Hsum Hc0 Hcolon.
  assert (Hnd : forall t, Forall dec_digit t -> Forall (fun c => c <> c0) t).
  { intros t Ht. eapply Forall_impl; [exact Ht|]. intros c Hc ->.
    apply is_digit_dec in Hc. congruence. }
  assert (Hcc : Forall (fun c => c <> c0) (str ":"))
    by (constructor; [congruence|constructor]).
  assert (Hcp : Forall plain (str ":"))
    by (constructor; [apply colon_plain|constructor]).
  assert (Hp : forall t, Forall dec_digit t -> Forall plain t).
  { intros t Ht. eapply Forall_impl; [exact Ht|apply dec_digit_plain]. }
  assert (HaM : atoi (TrimSpace M) = Ok m)
    by (rewrite TrimSpace_plain by (apply Hp, HM); unfold atoi; rewrite Hm; reflexivity).
  assert (HaS : atoi (TrimSpace S) = Ok s)
    by (rewrite TrimSpace_plain by (apply Hp, HS); unfold atoi; rewrite Hs; reflexivity).
  cbv delta [Millisecond Microsecond Nanosecond Second Minute Hour MaxInt64] in *.
  split.
  - unfold parseDuration, Split.
    rewrite split_from_end
      by (apply Forall_app_2; [apply Hnd, HM|apply Forall_app_2; [exact Hcc|apply Hnd, HS]]).
    cbn [List.length Nat.leb bind fst snd].
    rewrite TrimSpace_plain
      by (apply Forall_app_2; [apply Hp, HM|apply Forall_app_2; [exact Hcp|apply Hp, HS]]).
    change (str ":") with [":"%char].
    rewrite split_from_cons by (apply Forall_dec_not_colon, HM).
    rewrite split_from_end by (apply Forall_dec_not_colon, HS).
    cbn [bind]. rewrite HaS, HaM. cbn [bind List.length Nat.ltb Nat.leb].
    cbv delta [Millisecond Microsecond Nanosecond Second Minute Hour].
    f_equal.
    repeat match goal with
           | |- context [wrap64 ?x] =>
               lazymatch x with
               | context [wrap64 _] => fail
               | _ => rewrite (wrap64_id x) by (unfold MinInt64, MaxInt64; lia)
               end
           end.
    lia.
  - unfold parseDuration, Split.
    rewrite split_from_end
      by (apply Forall_app_2; [apply Hnd, HH|];
          apply Forall_app_2; [exact Hcc|];
          apply Forall_app_2; [apply Hnd, HM|];
          apply Forall_app_2; [exact Hcc|apply Hnd, HS]).
    cbn [List.length Nat.leb bind fst snd].
    rewrite TrimSpace_plain
      by (apply Forall_app_2; [apply Hp, HH|];
          apply Forall_app_2; [exact Hcp|];
          apply Forall_app_2; [apply Hp, HM|];
          apply Forall_app_2; [exact Hcp|apply Hp, HS]).
    change (str ":") with [":"%char].
    rewrite split_from_cons by (apply Forall_dec_not_colon, HH).
    rewrite split_from_cons by (apply Forall_dec_not_colon, HM).
    rewrite split_from_end by (apply Forall_dec_not_colon, HS).
    cbn [bind]. rewrite HaS, HaM. cbn [bind].
    assert (Hhours : (if (0 <? List.length H)%nat then atoi (TrimSpace H) else Ok 0)
                     = Ok h).
    { destruct Hh as [[-> ->]|Hh]; [reflexivity|].
      destruct H as [|c H']; [discriminate Hh|]. cbn [List.length Nat.ltb Nat.leb].
      rewrite TrimSpace_plain by (apply Hp, HH). unfold atoi. rewrite Hh. reflexivity. }
    rewrite Hhours. cbn [bind].
    cbv delta [Millisecond Microsecond Nanosecond Second Minute Hour]. f_equal.
    repeat match goal with
           | |- context [wrap64 ?x] =>
               lazymatch x with
               | context [wrap64 _] => fail
               | _ => rewrite (wrap64_id x) by (unfold MinInt64, MaxInt64; lia)
               end
           end.
    lia.
Qed.
Lemma parseDuration_needs_colon_witness :
  (str "," <> [] /\ Forall (fun c => c <> ":"%char) (str "12,5"))
  /\ (parseDuration (fun _ => []) (fun _ => 0) (str "12,5") (str ",") 3
      = Err (ErrNoHMS (str "12,5"))
      \/ parseDuration (fun _ => []) (fun _ => 0) (str "12,5") (str ",") 3
         = Err (ErrMillisecondDigits (str "12,5"))
      \/ exists tok e,
           fraction_of (fun _ => []) (str "12,5") (str ",") = Some tok
           /\ parseDuration (fun _ => []) (fun _ => 0) (str "12,5") (str ",") 3
              = Err (ErrAtoi tok e)).
Proof.
  assert (H1 : str "," <> []) by discriminate.
  assert (H2 : Forall (fun c => c <> ":"%char) (str "12,5"))
    by (repeat constructor; discriminate).
  split; [auto|].
  exact (parseDuration_needs_colon (fun _ => []) (fun _ => 0) _ _ 3 H1 H2).
Defined.

Lemma parseDuration_clock_witness :
  (Forall dec_digit (str "1") /\ Forall dec_digit (str "75")
   /\ Forall dec_digit (str "07")
   /\ (str "1" = [] /\ 1 = 0 \/ Strconv.Atoi (str "1") = inr 1)
   /\ Strconv.Atoi (str "75") = inr 75 /\ Strconv.Atoi (str "07") = inr 7
   /\ 0 <= 1 /\ 0 <= 75 /\ 0 <= 7
   /\ 7 * Second + 75 * Minute + 1 * Hour <= MaxInt64
   /\ Fmt.is_digit "." = false /\ "."%char <> ":"%char)
  /\ parseDuration (fun _ => []) (fun _ => 0) (str "75:07") (str ".") 3
     = Ok (7 * Second + 75 * Minute)
  /\ parseDuration (fun _ => []) (fun _ => 0) (str "1:75:07") (str ".") 3
     = Ok (7 * Second + 75 * Minute + 1 * Hour).
Proof.
  assert (H1 : Forall dec_digit (str "1"))
    by (repeat constructor; vm_compute; discriminate).
  assert (H2 : Forall dec_digit (str "75"))
    by (repeat constructor; vm_compute; discriminate).
  assert (H3 : Forall dec_digit (str "07"))
    by (repeat constructor; vm_compute; discriminate).
  assert (H4 : str "1" = [] /\ 1 = 0 \/ Strconv.Atoi (str "1") = inr 1)
    by (right; reflexivity).
  assert (H5 : Strconv.Atoi (str "75") = inr 75) by reflexivity.
  assert (H6 : Strconv.Atoi (str "07") = inr 7) by reflexivity.
  assert (H7 : 0 <= 1) by lia.
  assert (H8 : 0 <= 75) by lia.
  assert (H9 : 0 <= 7) by lia.
  assert (H10 : 7 * Second + 75 * Minute + 1 * Hour <= MaxInt64)
    by (vm_compute; discriminate).
  assert (H11 : Fmt.is_digit "." = false) by reflexivity.
  assert (H12 : "."%char <> ":"%char) by discriminate.
  split; [auto 20|].
  exact (parseDuration_clock (fun _ => []) (fun _ => 0) (str "1") (str "75")
           (str "07") 1 75 7 "." [] 3 H1 H2 H3 H4 H5 H6 H7 H8 H9 H10 H11 H12).
Defined.
End ParseMore.
Import ParseMore.

Module FormatMore.

(** The units of a duration, whatever lies below the millisecond. *)
Lemma split_units_trunc d :
  0 <= d ->
  let h := d / Hour in
  let m := (d mod Hour) / Minute in
  let s := (d mod Minute) / Second in
  let k := (d mod Second) / Millisecond in
  0 <= h /\ 0 <= m < 60 /\ 0 <= s < 60 /\ 0 <= k < 1000
  /\ k * Millisecond + s * Second + m * Minute + h * Hour
     = d - d mod Millisecond.
Proof.
  cbv delta [Millisecond Microsecond Nanosecond Second Minute Hour].
  cbv beta. change (1000 * (1000 * 1)) with 1000000.
  change (1000 * 1000000) with 1000000000.
  change (60 * 1000000000) with 60000000000.
  change (60 * 60000000000) with 3600000000000.
  intros Hd. cbv zeta.
  pose proof (Z.div_mod d 3600000000000 ltac:(lia)) as E1.
  pose proof (Z.mod_pos_bound d 3600000000000 ltac:(lia)) as B1.
  pose proof (Z.div_mod (d mod 3600000000000) 60000000000 ltac:(lia)) as E2.
  pose proof (Z.mod_pos_bound (d mod 3600000000000) 60000000000 ltac:(lia)) as B2.
  pose proof (Z.div_mod d 60000000000 ltac:(lia)) as E3.
  pose proof (Z.mod_pos_bound d 60000000000 ltac:(lia)) as B3.
  pose proof (Z.div_mod (d mod 60000000000) 1000000000 ltac:(lia)) as E4.
  pose proof (Z.mod_pos_bound (d mod 60000000000) 1000000000 ltac:(lia)) as B4.
  pose proof (Z.div_mod d 1000000000 ltac:(lia)) as E5.
  pose proof (Z.mod_pos_bound d 1000000000 ltac:(lia)) as B5.
  pose proof (Z.div_mod (d mod 1000000000) 1000000 ltac:(lia)) as E6.
  pose proof (Z.mod_pos_bound (d mod 1000000000) 1000000 ltac:(lia)) as B6.
  pose proof (Z.div_mod d 1000000 ltac:(lia)) as E7.
  pose proof (Z.mod_pos_bound d 1000000 ltac:(lia)) as B7.
  assert (0 <= d / 3600000000000) by (apply Z.div_pos; lia).
  assert (0 <= d mod 3600000000000 / 60000000000 < 60)
    by (split; [apply Z.div_pos; lia|apply Z.div_lt_upper_bound; lia]).
  assert (0 <= d mod 60000000000 / 1000000000 < 60)
    by (split; [apply Z.div_pos; lia|apply Z.div_lt_upper_bound; lia]).
  assert (0 <= d mod 1000000000 / 1000000 < 1000)
    by (split; [apply Z.div_pos; lia|apply Z.div_lt_upper_bound; lia]).
  lia.
Qed.

(** The text [formatDuration] writes with three digits. *)
Lemma formatDuration_three fmt_v d sep :
  0 <= d ->
  exists F,
    formatDuration fmt_v d sep 3
    = Ok (pad2 (d / Hour) ++ str ":" ++ pad2 (d mod Hour / Minute) ++ str ":"
            ++ pad2 (d mod Minute / Second) ++ sep ++ F)
    /\ List.length F = 3%nat /\ Forall dec_digit F
    /\ Strconv.Atoi F = inr (d mod Second / Millisecond).
Proof.
  intros Hd.
  destruct (split_units_trunc d Hd) as (Hh & Hm & Hs & Hk & Hsum).
  destruct (frac_spec fmt_v _ Hk) as (Hlen & Hlen3 & Hdig & Hatoi).
  unfold formatDuration.
  assert (H1 : 0 <= d mod Hour) by (apply Z.mod_pos_bound; reflexivity).
  assert (H2 : 0 <= d mod Minute) by (apply Z.mod_pos_bound; reflexivity).
  assert (H3 : 0 <= d mod Second) by (apply Z.mod_pos_bound; reflexivity).
  rewrite (Z.quot_div_nonneg d Hour), (Z.rem_mod_nonneg d Hour),
    (Z.rem_mod_nonneg d Minute), (Z.rem_mod_nonneg d Second)
    by first [assumption | reflexivity].
  rewrite (Z.quot_div_nonneg (d mod Hour) Minute),
    (Z.quot_div_nonneg (d mod Minute) Second),
    (Z.quot_div_nonneg (d mod Second) Millisecond)
    by first [assumption | reflexivity].
  match goal with
  | |- context [(List.length ?f <? 2)%nat] =>
      destruct (Nat.ltb_spec (List.length f) 2) as [Hbad|_]; [lia|];
      exists (drop 2 f)
  end.
  split; [|auto].
  f_equal. unfold pad2. rewrite <- !app_assoc. reflexivity.
Qed.

Lemma pad2_two_all :
  forallb (fun v => (List.length (pad2 (Z.of_nat v)) =? 2)%nat) (seq 0 100) = true.
Proof. vm_compute. reflexivity. Qed.

Lemma pad2_two v : 0 <= v < 100 -> List.length (pad2 v) = 2%nat.
Proof.
  intros Hv. pose proof pad2_two_all as Hall.
  rewrite forallb_forall in Hall. specialize (Hall (Z.to_nat v)).
  rewrite Z2Nat.id in Hall by lia. apply Nat.eqb_eq, Hall.
  apply in_seq. lia.
Qed.

Lemma format_loop_longer f : forall base u acc,
    (S (List.length acc) <= List.length (Strconv.format_loop f base u acc))%nat.
Proof.
  induction f as [|f IH]; intros base u acc; cbn [Strconv.format_loop].
  - cbn. lia.
  - destruct (base <=? u).
    + etransitivity; [|apply IH]. cbn. lia.
    + cbn. lia.
Qed.

Lemma pad2_longer v : 0 <= v -> (2 <= List.length (pad2 v))%nat.
Proof.
  intros Hv. destruct (Z.lt_ge_cases v 100) as [Hlt|Hge].
  - rewrite pad2_two by lia. lia.
  - unfold pad2. destruct (Z.ltb_spec v 10); [lia|]. cbn [app].
    rewrite Itoa_nonneg by lia. unfold Strconv.FormatUint.
    assert (Hlog : 3 <= Z.log2 v) by (apply Z.log2_le_pow2; lia).
    destruct (Z.to_nat (Z.log2 v)) as [|f] eqn:Hf; [lia|].
    cbn [Strconv.format_loop]. destruct (Z.leb_spec 10 v); [|lia].
    etransitivity; [|apply format_loop_longer]. cbn. lia.
Qed.

(** X16: the shape of the text for a duration that is not negative: the
    hours in two digits or more, never reduced to a day; minutes and
    seconds in exactly two digits; the separator; the milliseconds in
    exactly three digits, what lies below a millisecond being
    dropped. *)
Theorem formatDuration_shape fmt_v d sep :
  0 <= d <= MaxInt64 ->
  exists H M S F,
    formatDuration fmt_v d sep 3
    = Ok (H ++ str ":" ++ M ++ str ":" ++ S ++ sep ++ F)
    /\ (2 <= List.length H)%nat /\ List.length M = 2%nat
    /\ List.length S = 2%nat /\ List.length F = 3%nat
    /\ Forall dec_digit (H ++ M ++ S ++ F)
    /\ Strconv.Atoi H = inr (d / Hour)
    /\ Strconv.Atoi M = inr (d mod Hour / Minute)
    /\ Strconv.Atoi S = inr (d mod Minute / Second)
    /\ Strconv.Atoi F = inr (d mod Second / Millisecond).
Proof.
  intros [Hd Hmax].
  destruct (split_units_trunc d Hd) as (Hh & Hm & Hs & Hk & Hsum).
  destruct (formatDuration_three fmt_v d sep Hd) as (F & HF & Hlen & Hdig & Hatoi).
  exists (pad2 (d / Hour)), (pad2 (d mod Hour / Minute)),
    (pad2 (d mod Minute / Second)), F.
  split; [exact HF|].
  assert (Hat : forall v, 0 <= v < 2 ^ 63 -> Strconv.Atoi (pad2 v) = inr v).
  { intros v Hv. pose proof (pad2_atoi v Hv) as Ha. unfold atoi in Ha.
    destruct (Strconv.Atoi (pad2 v)); [discriminate|]. congruence. }
  assert (Hhmax : d / Hour < 2 ^ 63).
  { apply Z.div_lt_upper_bound; [reflexivity|].
    unfold MaxInt64 in Hmax. cbv delta [Hour Minute Second Millisecond Microsecond Nanosecond].
    lia. }
  split; [apply pad2_longer, Hh|].
  split; [apply pad2_two; lia|]. split; [apply pad2_two; lia|].
  split; [exact Hlen|].
  split.
  { apply Forall_app_2; [apply pad2_dec, Hh|].
    apply Forall_app_2; [apply pad2_dec; lia|].
    apply Forall_app_2; [apply pad2_dec; lia|exact Hdig]. }
  split; [apply Hat; lia|]. split; [apply Hat; lia|].
  split; [apply Hat; lia|exact Hatoi].
Qed.

(** X17: writing a duration with three digits and reading the text again
    gives the duration cut down to whole milliseconds. *)
Theorem format_parse_truncates d sep :
  0 <= d <= MaxInt64 -> sep_ok sep ->
  forall explode int_overflow fmt_v,
  exists s,
    formatDuration fmt_v d sep 3 = Ok s
    /\ parseDuration explode int_overflow s sep 3 = Ok (d - d mod Millisecond).
Proof.
  intros [Hd Hmax] [Hne Hsep] explode int_overflow fmt_v.
  destruct sep as [|c0 sep]; [contradiction|].
  inversion Hsep as [|? ? [Hc0 Hcolon] _]; subst.
  destruct (split_units_trunc d Hd) as (Hh & Hm & Hs & Hk & Hsum).
  destruct (formatDuration_three fmt_v d (c0 :: sep) Hd)
    as (F & HF & Hlen & Hdig & Hatoi).
  eexists. split; [exact HF|].
  assert (Hmod : 0 <= d mod Millisecond) by (apply Z.mod_pos_bound; reflexivity).
  rewrite (parse_formatted explode int_overflow _ _ _ (d mod Second / Millisecond));
    try assumption; try lia.
  f_equal. exact Hsum.
Qed.
Lemma formatDuration_shape_witness :
  0 <= 3723500 * Millisecond + 999 <= MaxInt64
  /\ exists H M S F,
      formatDuration (fun _ => []) (3723500 * Millisecond + 999) (str ",") 3
      = Ok (H ++ str ":" ++ M ++ str ":" ++ S ++ str "," ++ F)
      /\ (2 <= List.length H)%nat /\ List.length M = 2%nat
      /\ List.length S = 2%nat /\ List.length F = 3%nat.
Proof.
  assert (H0 : 0 <= 3723500 * Millisecond + 999 <= MaxInt64)
    by (vm_compute; split; discriminate).
  split; [exact H0|].
  destruct (formatDuration_shape (fun _ => []) _ (str ",") H0)
    as (H & M & S & F & HF & HH & HM & HS & HFl & _).
  exists H, M, S, F. auto.
Defined.

Lemma format_parse_truncates_witness :
  (0 <= 3723500 * Millisecond + 999 <= MaxInt64 /\ sep_ok (str ","))
  /\ exists s,
      formatDuration (fun _ => []) (3723500 * Millisecond + 999) (str ",") 3 = Ok s
      /\ parseDuration (fun _ => []) (fun _ => 0) s (str ",") 3
         = Ok (3723500 * Millisecond).
Proof.
  assert (H0 : 0 <= 3723500 * Millisecond + 999 <= MaxInt64)
    by (vm_compute; split; discriminate).
  assert (H1 : sep_ok (str ","))
    by (split; [discriminate|repeat constructor; discriminate]).
  split; [auto|].
  exact (format_parse_truncates _ _ H0 H1 (fun _ => []) (fun _ => 0) (fun _ => [])).
Defined.
End FormatMore.
Import FormatMore.

Module FileFacts.
Section Files.
Variable IsPathSeparator : ascii -> bool.
Variables FS File TeletextOptions E Doc : Type.
Variable os_Open : FS -> gostring -> E + File.
Variable os_Create : FS -> gostring -> FS * (E + File).
Variable Close : File -> FS -> FS.
Variables ReadFromSRT ReadFromSSA ReadFromSTL ReadFromTTML ReadFromWebVTT
: File -> file_error E + Doc.
Variable ReadFromTeletext : File -> TeletextOptions -> file_error E + Doc.
Variables WriteToSRT WriteToSSA WriteToSTL WriteToTTML WriteToWebVTT
: Doc -> File -> FS -> FS * option (file_error E).
Variable no_teletext_options : TeletextOptions.

#[local] Abbreviation Ext := (Filepath.Ext IsPathSeparator).
#[local] Abbreviation open_ :=
(Open IsPathSeparator FS File TeletextOptions E Doc os_Open
   ReadFromSRT ReadFromSSA ReadFromSTL ReadFromTTML ReadFromWebVTT
   ReadFromTeletext).
#[local] Abbreviation write_ :=
(Write IsPathSeparator FS File E Doc os_Create Close
   WriteToSRT WriteToSSA WriteToSTL WriteToTTML WriteToWebVTT).

#[local] Abbreviation in_name := (in_name IsPathSeparator).

Lemma ext_loop_name e : forall r acc,
  Forall in_name e ->
  Filepath.ext_loop IsPathSeparator (rev e ++ r) acc
  = Filepath.ext_loop IsPathSeparator r (e ++ acc).
Proof.
induction e as [|c e IH]; intros r acc He; [reflexivity|].
apply Forall_cons in He as [[Hdot Hsep] He].
cbn [rev]. rewrite <- app_assoc. rewrite IH by exact He.
cbn [app Filepath.ext_loop]. rewrite Hsep.
destruct (Ascii.eqb_spec c "."); [contradiction|]. reflexivity.
Qed.

(** The extension of a path that ends in a dot and a name. *)
Lemma Ext_suffix name e :
IsPathSeparator "." = false -> Forall in_name e ->
Ext (name ++ "."%char :: e) = "."%char :: e.
Proof.
intros Hdot He. unfold Filepath.Ext.
rewrite rev_app_distr. cbn [rev]. rewrite <- !app_assoc.
rewrite ext_loop_name by exact He. cbn [app Filepath.ext_loop].
rewrite Hdot, app_nil_r. reflexivity.
Qed.

(** A path whose last element holds no dot has no extension. *)
Lemma Ext_none dir last_ :
(dir = [] \/ exists d c, dir = d ++ [c] /\ IsPathSeparator c = true) ->
Forall in_name last_ ->
Ext (dir ++ last_) = [].
Proof.
intros Hdir Hl. unfold Filepath.Ext.
rewrite rev_app_distr, ext_loop_name by exact Hl.
destruct Hdir as [->|(d & c & -> & Hc)]; [reflexivity|].
rewrite rev_app_distr. cbn [rev app Filepath.ext_loop]. rewrite Hc. reflexivity.
Qed.

Lemma string_eqb_dot a b :
string_eqb ("."%char :: a) ("."%char :: b) = string_eqb a b.
Proof. reflexivity. Qed.

Lemma string_eqb_decide a b : string_eqb a b = bool_decide (a = b).
Proof.
destruct (string_eqb a b) eqn:H.
- apply string_eqb_eq in H. symmetry. apply bool_decide_eq_true. exact H.
- symmetry. apply bool_decide_eq_false. intros Heq.
  apply string_eqb_eq in Heq. congruence.
Qed.

(** X18: [Open] chooses the reader by the bytes after the last dot of the
  path, compared as they are; any other ending is an invalid
  extension. *)
Theorem Open_by_extension w name e t f :
IsPathSeparator "." = false -> Forall in_name e ->
os_Open w (name ++ "."%char :: e) = inr f ->
open_ w {| Filename := name ++ "."%char :: e; Teletext := t |}
= if bool_decide (e = str "srt") then ReadFromSRT f
  else if bool_decide (e = str "ssa" \/ e = str "ass") then ReadFromSSA f
  else if bool_decide (e = str "stl") then ReadFromSTL f
  else if bool_decide (e = str "ts") then ReadFromTeletext f t
  else if bool_decide (e = str "ttml") then ReadFromTTML f
  else if bool_decide (e = str "vtt") then ReadFromWebVTT f
  else inl ErrInvalidExtension.
Proof.
intros Hdot He Hopen. unfold Open. cbn [Filename Teletext].
rewrite Hopen, (Ext_suffix name e Hdot He).
change (str ".srt") with ("."%char :: str "srt").
change (str ".ssa") with ("."%char :: str "ssa").
change (str ".ass") with ("."%char :: str "ass").
change (str ".stl") with ("."%char :: str "stl").
change (str ".ts") with ("."%char :: str "ts").
change (str ".ttml") with ("."%char :: str "ttml").
change (str ".vtt") with ("."%char :: str "vtt").
rewrite !string_eqb_dot, !string_eqb_decide.
rewrite <- bool_decide_or. reflexivity.
Qed.
(** X19: [Write] creates the file, chooses the writer by the bytes after
  the last dot of the path and closes the file; with any other
  ending the file has been created all the same. *)
Theorem Write_by_extension s w name e w1 g :
IsPathSeparator "." = false -> Forall in_name e ->
os_Create w (name ++ "."%char :: e) = (w1, inr g) ->
write_ s (name ++ "."%char :: e) w
= let r :=
    if bool_decide (e = str "srt") then WriteToSRT s g w1
    else if bool_decide (e = str "ssa" \/ e = str "ass") then WriteToSSA s g w1
    else if bool_decide (e = str "stl") then WriteToSTL s g w1
    else if bool_decide (e = str "ttml") then WriteToTTML s g w1
    else if bool_decide (e = str "vtt") then WriteToWebVTT s g w1
    else (w1, Some ErrInvalidExtension) in
  (Close g (fst r), snd r).
Proof.
intros Hdot He Hcreate. unfold Write.
rewrite Hcreate, (Ext_suffix name e Hdot He).
change (str ".srt") with ("."%char :: str "srt").
change (str ".ssa") with ("."%char :: str "ssa").
change (str ".ass") with ("."%char :: str "ass").
change (str ".stl") with ("."%char :: str "stl").
change (str ".ttml") with ("."%char :: str "ttml").
change (str ".vtt") with ("."%char :: str "vtt").
rewrite !string_eqb_dot, !string_eqb_decide.
rewrite <- bool_decide_or. reflexivity.
Qed.

(** X20: teletext is read and not written: a path ending in ".ts" goes to
  the teletext reader with the options given, and [Write] creates
  the file, writes nothing and answers with the invalid extension. *)
Theorem Teletext_read_only s w name t f w1 g :
IsPathSeparator "." = false -> Forall in_name (str "ts") ->
os_Open w (name ++ str ".ts") = inr f ->
os_Create w (name ++ str ".ts") = (w1, inr g) ->
open_ w {| Filename := name ++ str ".ts"; Teletext := t |}
= ReadFromTeletext f t
/\ write_ s (name ++ str ".ts") w = (Close g w1, Some ErrInvalidExtension).
Proof.
intros Hdot He Hopen Hcreate. unfold Open, Write. cbn [Filename Teletext].
rewrite Hopen, Hcreate.
change (str ".ts") with ("."%char :: str "ts").
rewrite (Ext_suffix name (str "ts") Hdot He). split; reflexivity.
Qed.

(** X21: a path whose last element holds no dot has no extension, also when
  a directory before it holds one: [Open] answers with the invalid
  extension, and so does [Write], after creating the file. *)
Theorem extension_needed s w dir last_ t f w1 g :
(dir = [] \/ exists d c, dir = d ++ [c] /\ IsPathSeparator c = true) ->
Forall in_name last_ ->
os_Open w (dir ++ last_) = inr f ->
os_Create w (dir ++ last_) = (w1, inr g) ->
open_ w {| Filename := dir ++ last_; Teletext := t |} = inl ErrInvalidExtension
/\ write_ s (dir ++ last_) w = (Close g w1, Some ErrInvalidExtension).
Proof.
intros Hdir Hl Hopen Hcreate. unfold Open, Write. cbn [Filename Teletext].
rewrite Hopen, Hcreate, (Ext_none dir last_ Hdir Hl). split; reflexivity.
Qed.
End Files.
Lemma Open_by_extension_witness :
  (unix_separator "." = false /\ Forall (in_name unix_separator) (str "ass"))
  /\ example_Open [] {| Filename := str "dir.d/film.ass"; Teletext := tt |}
     = inr SSA.
Proof.
  assert (H1 : unix_separator "." = false) by reflexivity.
  assert (H2 : Forall (in_name unix_separator) (str "ass"))
    by (repeat constructor; discriminate).
  split; [auto|]. unfold example_Open.
  change (str "dir.d/film.ass") with (str "dir.d/film" ++ "."%char :: str "ass").
  rewrite (Open_by_extension unix_separator (list format) unit unit unit format
             (fun _ _ => inr tt)
             (fun _ => inr SRT) (fun _ => inr SSA) (fun _ => inr STL)
             (fun _ => inr TTML) (fun _ => inr WebVTT) (fun _ _ => inr Teletext_)
             [] (str "dir.d/film") (str "ass") tt tt H1 H2 eq_refl).
  reflexivity.
Defined.

Lemma Write_by_extension_witness :
  (unix_separator "." = false /\ Forall (in_name unix_separator) (str "vtt"))
  /\ example_Write WebVTT (str "film.vtt") [] = ([WebVTT], None).
Proof.
  assert (H1 : unix_separator "." = false) by reflexivity.
  assert (H2 : Forall (in_name unix_separator) (str "vtt"))
    by (repeat constructor; discriminate).
  split; [auto|]. unfold example_Write.
  change (str "film.vtt") with (str "film" ++ "."%char :: str "vtt").
  rewrite (Write_by_extension unix_separator (list format) unit unit format
             (fun w _ => (w, inr tt)) (fun _ w => w)
             (fun _ _ w => (w ++ [SRT], None)) (fun _ _ w => (w ++ [SSA], None))
             (fun _ _ w => (w ++ [STL], None)) (fun _ _ w => (w ++ [TTML], None))
             (fun _ _ w => (w ++ [WebVTT], None))
             WebVTT [] (str "film") (str "vtt") [] tt H1 H2 eq_refl).
  reflexivity.
Defined.

Lemma Teletext_read_only_witness :
  (unix_separator "." = false /\ Forall (in_name unix_separator) (str "ts"))
  /\ example_Open [] {| Filename := str "film.ts"; Teletext := tt |}
     = inr Teletext_
  /\ example_Write Teletext_ (str "film.ts") [] = ([], Some ErrInvalidExtension).
Proof.
  assert (H1 : unix_separator "." = false) by reflexivity.
  assert (H2 : Forall (in_name unix_separator) (str "ts"))
    by (repeat constructor; discriminate).
  split; [auto|]. unfold example_Open, example_Write.
  exact (Teletext_read_only unix_separator (list format) unit unit unit format
           (fun _ _ => inr tt) (fun w _ => (w, inr tt)) (fun _ w => w)
           (fun _ => inr SRT) (fun _ => inr SSA) (fun _ => inr STL)
           (fun _ => inr TTML) (fun _ => inr WebVTT) (fun _ _ => inr Teletext_)
           (fun _ _ w => (w ++ [SRT], None)) (fun _ _ w => (w ++ [SSA], None))
           (fun _ _ w => (w ++ [STL], None)) (fun _ _ w => (w ++ [TTML], None))
           (fun _ _ w => (w ++ [WebVTT], None))
           Teletext_ [] (str "film") tt tt [] tt H1 H2 eq_refl eq_refl).
Defined.

Lemma extension_needed_witness :
  ((str "dir.d/" = [] \/ exists d c, str "dir.d/" = d ++ [c] /\ unix_separator c = true)
   /\ Forall (in_name unix_separator) (str "film"))
  /\ example_Open [] {| Filename := str "dir.d/film"; Teletext := tt |}
     = inl ErrInvalidExtension
  /\ example_Write SRT (str "dir.d/film") [] = ([], Some ErrInvalidExtension).
Proof.
  assert (H1 : str "dir.d/" = []
               \/ exists d c, str "dir.d/" = d ++ [c] /\ unix_separator c = true)
    by (right; exists (str "dir.d"), "/"%char; split; reflexivity).
  assert (H2 : Forall (in_name unix_separator) (str "film"))
    by (repeat constructor; discriminate).
  split; [auto|]. unfold example_Open, example_Write.
  exact (extension_needed unix_separator (list format) unit unit unit format
           (fun _ _ => inr tt) (fun w _ => (w, inr tt)) (fun _ w => w)
           (fun _ => inr SRT) (fun _ => inr SSA) (fun _ => inr STL)
           (fun _ => inr TTML) (fun _ => inr WebVTT) (fun _ _ => inr Teletext_)
           (fun _ _ w => (w ++ [SRT], None)) (fun _ _ w => (w ++ [SSA], None))
           (fun _ _ w => (w ++ [STL], None)) (fun _ _ w => (w ++ [TTML], None))
           (fun _ _ w => (w ++ [WebVTT], None))
           SRT [] (str "dir.d/") (str "film") tt tt [] tt H1 H2 eq_refl eq_refl).
Defined.
End FileFacts.
Import FileFacts.

Module LineFacts.
Import Strings.

Lemma append_lines ls : forall b,
    foldl appendStringToBytesWithNewLine b ls
    = b ++ concat (map (fun l => l ++ bytesLineSeparator) ls).
Proof.
  induction ls as [|l ls IH]; intros b; cbn [foldl map concat].
  - rewrite app_nil_r. reflexivity.
  - rewrite IH. unfold appendStringToBytesWithNewLine.
    rewrite <- !app_assoc. reflexivity.
Qed.

(** X22: lines added one after the other are the parts between the line
    separators: splitting the bytes gives the lines back, and an empty
    part after the last separator. *)
Theorem lines_split explode ls :
  Forall (Forall (fun c => c <> "010"%char)) ls ->
  Split explode (foldl appendStringToBytesWithNewLine [] ls) bytesLineSeparator
  = ls ++ [[]].
Proof.
  intros Hls. rewrite append_lines. cbn [app].
  unfold Split, bytesLineSeparator.
  induction Hls as [|l ls Hl _ IH]; [reflexivity|].
  cbn [map concat]. rewrite <- app_assoc.
  rewrite split_from_cons by exact Hl. rewrite IH. reflexivity.
Qed.
Lemma lines_split_witness :
  Forall (Forall (fun c => c <> "010"%char)) [str "1"; str "00:00:01,000"; str ""]
  /\ Split (fun _ => [])
       (foldl appendStringToBytesWithNewLine []
          [str "1"; str "00:00:01,000"; str ""])
       bytesLineSeparator
     = [str "1"; str "00:00:01,000"; str ""] ++ [[]].
Proof.
  assert (H : Forall (Forall (fun c => c <> "010"%char))
                [str "1"; str "00:00:01,000"; str ""])
    by (repeat constructor; discriminate).
  split; [exact H|].
  exact (lines_split (fun _ => []) _ H).
Defined.
End LineFacts.
Import LineFacts.
